(** * FourierNetHead: the polar / Fourier contour head of FourierNet

    A shallow embedding of [mmdet/models/anchor_heads/fouriernet_head.py]
    and the properties of its specification.

    Conventions of the model:
    - Tensors hold exact real numbers ([R]); the rounding, overflow and
      underflow of float32 are outside the model.
    - A tensor of shape [n, k] is a list of [n] rows of length [k]; a tensor of
      shape [n, c, 2] of complex coefficients is a list of [n] rows of [c]
      pairs (real part, imaginary part); a polygon tensor of shape [n, 2, K]
      is a list of [n] pairs (x coordinates, y coordinates).  A tensor without
      rows therefore carries no width.
    - Integer tensors and Python [int]s are [Z]; sizes read off a tensor are
      [nat].
    - A Python exception is a value of [exn]; a function that can raise
      returns [result].  A local variable that some paths leave unassigned
      is an [option], read through [read_local].
    - The [torch] operations are modelled in [Module Torch] from their
      documented behaviour; the layers, the loss functions, [distance2bbox]
      and [multiclass_nms_with_mask] are parameters.

    The first part holds the model, in the order of the source, and the
    notions the statements use; the second part holds the properties. *)

From Stdlib Require Import String.
From Stdlib Require Import Reals Lra Lia ZArith List Bool Permutation Sorted.
Import ListNotations.

Open Scope R_scope.

(** ** Exceptions *)

Inductive exn : Type :=
| AssertionError
| UnboundLocalError (var : string)
| ZeroDivisionError
| IndexError
| TypeError
| ValueError
| RuntimeError (msg : string).

Inductive result (A : Type) : Type :=
| Ok (a : A)
| Raise (e : exn).
Arguments Ok {A} a.
Arguments Raise {A} e.

Definition bind {A B : Type} (m : result A) (k : A -> result B) : result B :=
  match m with
  | Ok a => k a
  | Raise e => Raise e
  end.

Notation "x <- m ;; k" := (bind m (fun x => k))
  (at level 61, m at next level, right associativity).
Notation "' p <- m ;; k" := (bind m (fun x => match x with p => k end))
  (at level 61, p pattern, m at next level, right associativity).

Definition assert (b : bool) : result unit :=
  if b then Ok tt else Raise AssertionError.

(** Reading a Python local that may not have been assigned. *)
Definition read_local {A : Type} (name : string) (v : option A) : result A :=
  match v with
  | Some a => Ok a
  | None => Raise (UnboundLocalError name)
  end.

Fixpoint mapM {A B : Type} (f : A -> result B) (l : list A) : result (list B) :=
  match l with
  | [] => Ok []
  | a :: l' => b <- f a ;; bs <- mapM f l' ;; Ok (b :: bs)
  end.

Definition raised {A : Type} (m : result A) : Prop := exists e, m = Raise e.

(** ** The tensor operations the head calls *)

Module Torch.

Definition vec := list R.
Definition mat := list vec.
Definition complex := (R * R)%type.
Definition cvec := list complex.
Definition cmat := list cvec.

Definition sumR (l : list R) : R := fold_right Rplus 0 l.

(** [t.sum()] of a tensor of shape [n, k]. *)
Definition sum2 (t : mat) : R := sumR (map sumR t).

(** [t.sum()] of a tensor of shape [n, c, 2]. *)
Definition csum2 (t : cmat) : R :=
  sumR (map (fun row => sumR (map (fun z => fst z + snd z) row)) t).

Definition sigmoid (x : R) : R := 1 / (1 + exp (- x)).

(** [t.min(dim=-1)[0]] and [t.max(dim=-1)[0]] on one row; a reduction over a
    dimension of size zero is an error. *)
Definition min_row (row : vec) : result R :=
  match row with
  | [] => Raise (RuntimeError "min over an empty dimension")
  | x :: xs => Ok (fold_left Rmin xs x)
  end.

Definition max_row (row : vec) : result R :=
  match row with
  | [] => Raise (RuntimeError "max over an empty dimension")
  | x :: xs => Ok (fold_left Rmax xs x)
  end.

Definition min_dim (t : mat) : result vec := mapM min_row t.
Definition max_dim (t : mat) : result vec := mapM max_row t.

(** [t.clamp(min=lo, max=hi)] on one entry. *)
Definition clamp (lo hi x : R) : R := Rmin (Rmax x lo) hi.

(** Elementwise binary operation with the broadcasting rule along one
    dimension: equal sizes are zipped, a size-one operand is repeated, any
    other pair of sizes is an error. *)
Fixpoint zipM {A B C : Type} (f : A -> B -> result C) (a : list A) (b : list B)
  : result (list C) :=
  match a, b with
  | x :: a', y :: b' => z <- f x y ;; zs <- zipM f a' b' ;; Ok (z :: zs)
  | _, _ => Ok []
  end.

Definition bcastM {A B C : Type} (f : A -> B -> result C) (a : list A) (b : list B)
  : result (list C) :=
  if Nat.eqb (length a) (length b) then zipM f a b
  else match a, b with
       | [x], _ => mapM (f x) b
       | _, [y] => mapM (fun x => f x y) a
       | _, _ => Raise (RuntimeError "the sizes of the tensors must match")
       end.

Definition bcast1 (f : R -> R -> R) (a b : vec) : result vec :=
  bcastM (fun x y => Ok (f x y)) a b.

Definition bcast2 (f : R -> R -> R) (a b : mat) : result mat :=
  bcastM (bcast1 f) a b.

(** [torch.arange(start, end, step)] and [torch.range(start, end, step)] on
    integers; [range] includes its end point. *)
Definition bad_step (start stop step : Z) : bool :=
  ((0 <? step)%Z && (stop <? start)%Z) || ((step <? 0)%Z && (start <? stop)%Z).

Definition ceil_div (a b : Z) : Z := (- ((- a) / b))%Z.

Definition steps (start step : Z) (n : Z) : list Z :=
  map (fun i => (start + Z.of_nat i * step)%Z) (seq 0 (Z.to_nat n)).

Definition arange (start stop step : Z) : result (list Z) :=
  if (step =? 0)%Z then Raise (RuntimeError "step must be nonzero")
  else if bad_step start stop step
       then Raise (RuntimeError "bounds inconsistent with step sign")
       else Ok (steps start step (ceil_div (stop - start) step)).

Definition range (start stop step : Z) : result (list Z) :=
  if (step =? 0)%Z then Raise (RuntimeError "step must be nonzero")
  else if bad_step start stop step
       then Raise (RuntimeError "bounds inconsistent with step sign")
       else Ok (steps start step ((stop - start) / step + 1)).

(** [torch.meshgrid(ys, xs)]: two grids of shape [len ys, len xs]. *)
Definition meshgrid {A : Type} (ys xs : list A) : list (list A) * list (list A) :=
  (map (fun y => repeat y (length xs)) ys, map (fun _ => xs) ys).

(** [t.reshape(-1)] of a two-dimensional tensor. *)
Definition flatten {A : Type} (t : list (list A)) : list A := concat t.

(** Cutting a flat list into rows of [k] entries ([k > 0]). *)
Fixpoint chunks_fuel {A : Type} (fuel k : nat) (l : list A) : list (list A) :=
  match fuel with
  | O => []
  | S fuel' =>
      match l with
      | [] => []
      | _ => firstn k l :: chunks_fuel fuel' k (skipn k l)
      end
  end.

Definition chunks {A : Type} (k : nat) (l : list A) : list (list A) :=
  chunks_fuel (length l) k l.

(** [flat.reshape(-1, k)]: [k] must be positive and divide the number of
    entries. *)
Definition reshape_rows {A : Type} (k : Z) (flat : list A) : result (list (list A)) :=
  if (k <=? 0)%Z then Raise (RuntimeError "invalid shape")
  else if Nat.eqb (Nat.modulo (length flat) (Z.to_nat k)) 0
       then Ok (chunks (Z.to_nat k) flat)
       else Raise (RuntimeError "shape is invalid for input size").

(** Pairing the last dimension of size 2 into complex coefficients. *)
Fixpoint pairs (l : vec) : cvec :=
  match l with
  | re :: im :: l' => (re, im) :: pairs l'
  | _ => []
  end.

(** [t.reshape(-1, c, 2)], from the entries of [t] in row-major order. *)
Definition reshape_coe_flat (c : Z) (flat : vec) : result cmat :=
  rows <- reshape_rows (c * 2) flat ;;
  Ok (map pairs rows).

Definition reshape_coe (c : Z) (t : mat) : result cmat :=
  reshape_coe_flat c (flatten t).

(** Python slice [l[:v]]. *)
Definition slice_to {A : Type} (v : Z) (l : list A) : list A :=
  if (0 <=? v)%Z then firstn (Z.to_nat v) l
  else firstn (Z.to_nat (Z.of_nat (length l) + v)) l.

(** [torch.zeros(n, k, 2)]. *)
Definition zeros_c (n : nat) (k : Z) : result cmat :=
  if (k <? 0)%Z then Raise (RuntimeError "negative dimension")
  else Ok (repeat (repeat (0, 0) (Z.to_nat k)) n).

(** [torch.cat([a, b], 1)] for tensors of shape [n, _, 2]. *)
Definition cat_dim1 (a b : cmat) : result cmat :=
  if Nat.eqb (length a) (length b)
  then Ok (map (fun p => fst p ++ snd p) (combine a b))
  else Raise (RuntimeError "sizes of tensors must match except in dimension 1").

(** [torch.rfft(x, 1, normalized=True, onesided=False)] on one row: the full
    spectrum of a real signal of length [N], scaled by [1/sqrt N]. *)
Definition dft_angle (N k m : nat) : R := 2 * PI * INR k * INR m / INR N.

Definition rfft_coef (x : vec) (k : nat) : complex :=
  let N := length x in
  (sumR (map (fun m => nth m x 0 * cos (dft_angle N k m)) (seq 0 N)) / sqrt (INR N),
   sumR (map (fun m => - (nth m x 0 * sin (dft_angle N k m))) (seq 0 N)) / sqrt (INR N)).

Definition rfft (x : vec) : result cvec :=
  match x with
  | [] => Raise (RuntimeError "signal has no element")
  | _ => Ok (map (rfft_coef x) (seq 0 (length x)))
  end.

(** [torch.irfft(X, 1, normalized=True, onesided=False)] on one row of [N]
    coefficients: a complex-to-real transform with an output of length [N].
    It reads the first [N/2 + 1] coefficients only and takes the others to be
    their conjugate mirror images. *)
Definition conj (z : complex) : complex := (fst z, - snd z).

Definition hermitian (X : cvec) (k : nat) : complex :=
  let N := length X in
  if Nat.leb k (N / 2) then nth k X (0, 0) else conj (nth (N - k) X (0, 0)).

Definition irfft_entry (X : cvec) (n : nat) : R :=
  let N := length X in
  sumR (map (fun k => fst (hermitian X k) * cos (dft_angle N k n)
                      - snd (hermitian X k) * sin (dft_angle N k n))
            (seq 0 N)) / sqrt (INR N).

Definition irfft (X : cvec) : result vec :=
  match X with
  | [] => Raise (RuntimeError "signal has no element")
  | _ => Ok (map (irfft_entry X) (seq 0 (length X)))
  end.

(** [v.topk(k)]: the [k] largest entries in decreasing order with their
    indices.  Entries are sorted by insertion; among equal entries the one
    met first comes first. *)
Definition Rleb (x y : R) : bool := if Rle_dec x y then true else false.

Fixpoint insert_desc (p : R * nat) (l : list (R * nat)) : list (R * nat) :=
  match l with
  | [] => [p]
  | q :: l' => if Rleb (fst q) (fst p) then p :: l else q :: insert_desc p l'
  end.

Definition sort_desc (l : list (R * nat)) : list (R * nat) :=
  fold_right insert_desc [] l.

Definition topk (k : nat) (v : vec) : result (vec * list nat) :=
  if Nat.leb k (length v)
  then let top := firstn k (sort_desc (combine v (seq 0 (length v)))) in
       Ok (map fst top, map snd top)
  else Raise (RuntimeError "selected index k out of range").

(** [t[inds]] along the first dimension. *)
Definition index_rows {A : Type} (t : list A) (inds : list nat) : result (list A) :=
  mapM (fun i => match nth_error t i with
                 | Some a => Ok a
                 | None => Raise IndexError
                 end) inds.

(** [labels.nonzero().reshape(-1)]. *)
Definition nonzero (labels : list Z) : list nat :=
  map snd (filter (fun p => negb (fst p =? 0)%Z) (combine labels (seq 0 (length labels)))).

(** [torch.cat(ts)] along the first dimension; the list must not be empty. *)
Definition cat {A : Type} (ts : list (list A)) : result (list A) :=
  match ts with
  | [] => Raise (RuntimeError "expected a non-empty list of Tensors")
  | _ => Ok (concat ts)
  end.

(** [t.split(sizes, 0)]: the sizes must add up to the first dimension. *)
Fixpoint split_sizes {A : Type} (sizes : list nat) (t : list A) : list (list A) :=
  match sizes with
  | [] => []
  | n :: sizes' => firstn n t :: split_sizes sizes' (skipn n t)
  end.

Definition split {A : Type} (sizes : list nat) (t : list A) : result (list (list A)) :=
  if Nat.eqb (list_sum sizes) (length t) then Ok (split_sizes sizes t)
  else Raise (RuntimeError "split sizes must sum to the dimension size").

(** Feature-map tensors: shape [C, H, W] for one image, [N, C, H, W] for a
    batch. *)
Record tensor3 : Type := Tensor3 {
  size3 : nat * nat * nat;
  get3 : nat -> nat -> nat -> R
}.

Record tensor4 : Type := Tensor4 {
  size4 : nat * nat * nat * nat;
  get4 : nat -> nat -> nat -> nat -> R
}.

Definition map4 (f : R -> R) (t : tensor4) : tensor4 :=
  Tensor4 (size4 t) (fun n c h w => f (get4 t n c h w)).

(** [t[:, :k, :, :]]. *)
Definition slice_channels (k : nat) (t : tensor4) : tensor4 :=
  let '(n, c, h, w) := size4 t in
  Tensor4 (n, Nat.min k c, h, w) (get4 t).

(** [t.size()[-2:]] and [t.size(0)]. *)
Definition featmap_size4 (t : tensor4) : nat * nat :=
  let '(_, _, h, w) := size4 t in (h, w).

Definition featmap_size3 (t : tensor3) : nat * nat :=
  let '(_, h, w) := size3 t in (h, w).

Definition size0 (t : tensor4) : nat :=
  let '(n, _, _, _) := size4 t in n.

(** The entries of [t.permute(1, 2, 0)] and of [t.permute(0, 2, 3, 1)] in
    row-major order. *)
Definition permute_flat3 (t : tensor3) : vec :=
  let '(c, h, w) := size3 t in
  flat_map (fun y => flat_map (fun x => map (fun ch => get3 t ch y x) (seq 0 c))
                              (seq 0 w)) (seq 0 h).

Definition permute_flat4 (t : tensor4) : vec :=
  let '(n, c, h, w) := size4 t in
  flat_map (fun i => flat_map (fun y => flat_map (fun x =>
    map (fun ch => get4 t i ch y x) (seq 0 c)) (seq 0 w)) (seq 0 h)) (seq 0 n).

End Torch.

Import Torch.

(** ** Centerness target (lines 425-428) *)

Definition polar_centerness_target (pos_mask_targets : mat) : result vec :=
  mins <- min_dim pos_mask_targets ;;
  maxs <- max_dim pos_mask_targets ;;
  let centerness_targets := map (fun p => fst p / snd p) (combine mins maxs) in
  Ok (map sqrt centerness_targets).

(** ** The head object (lines 20-71)

    The attributes set by the constructor that the methods below read.  The
    convolution layers are built from [mmcv]/[mmdet] modules and enter the
    model as parameters of the section that follows. *)

Record FourierNetHead : Type := {
  use_fourier : bool;
  contour_points : Z;
  num_coe : Z;
  visulize_coe : Z;
  interval : Z;
  num_classes : Z;
  cls_out_channels : Z;
  strides : list Z;
  regress_ranges : list (R * R);
  loss_on_coe : bool;
  mask_nms : bool;
  bbox_from_mask : bool;
  angles : vec;
  centerness_factor : R
}.

(** Python floor division [a // b]. *)
Definition floordiv (a b : Z) : result Z :=
  if (b =? 0)%Z then Raise ZeroDivisionError else Ok (a / b)%Z.

Definition __init__ (num_classes : Z) (strides : list Z)
    (regress_ranges : list (R * R)) (mask_nms bbox_from_mask loss_on_coe : bool)
    (contour_points : Z) (use_fourier : bool) (num_coe visulize_coe : Z)
    (centerness_factor : R) : result FourierNetHead :=
  interval <- floordiv 360 contour_points ;;
  degrees <- range 0 359 interval ;;
  let angles := map (fun a => IZR a / 180 * PI) degrees in
  Ok {| use_fourier := use_fourier;
        contour_points := contour_points;
        num_coe := num_coe;
        visulize_coe := visulize_coe;
        interval := interval;
        num_classes := num_classes;
        cls_out_channels := num_classes - 1;
        strides := strides;
        regress_ranges := regress_ranges;
        loss_on_coe := loss_on_coe;
        mask_nms := mask_nms;
        bbox_from_mask := bbox_from_mask;
        angles := angles;
        centerness_factor := centerness_factor |}.

(** ** Point grid (lines 354-381) *)

Definition get_points_single (featmap_size : nat * nat) (stride : Z)
  : result (list (R * R)) :=
  let '(h, w) := featmap_size in
  x_range <- arange 0 (Z.of_nat w * stride) stride ;;
  y_range <- arange 0 (Z.of_nat h * stride) stride ;;
  let '(y, x) := meshgrid y_range x_range in
  let points := map (fun p => (IZR (fst p) + IZR (stride / 2),
                               IZR (snd p) + IZR (stride / 2)))
                    (combine (flatten x) (flatten y)) in
  Ok points.

Fixpoint get_points_from (self : FourierNetHead) (i : nat)
    (featmap_sizes : list (nat * nat)) : result (list (list (R * R))) :=
  match featmap_sizes with
  | [] => Ok []
  | sz :: rest =>
      stride <- match nth_error (strides self) i with
                | Some s => Ok s
                | None => Raise IndexError
                end ;;
      pts <- get_points_single sz stride ;;
      more <- get_points_from self (S i) rest ;;
      Ok (pts :: more)
  end.

Definition get_points (self : FourierNetHead) (featmap_sizes : list (nat * nat))
  : result (list (list (R * R))) :=
  get_points_from self 0 featmap_sizes.

(** ** Polygon decoding (lines 563-606) *)

(** The mask payload handed around by the head: ray distances of shape
    [n, K], or frequency coefficients of shape [n, C, 2]. *)
Inductive mask_tensor : Type :=
| Rays (t : mat)
| Coeffs (t : cmat).

(** Evaluations of [torch.sin] and [torch.cos], recorded with their argument. *)
Inductive trig_call : Type :=
| CallSin (arg : vec)
| CallCos (arg : vec).

Definition polygons := list (vec * vec).

(** The inverse transform followed by [.float().exp()], for a batch. *)
Definition irfft_exp (padded : cmat) : result mat :=
  signal <- mapM irfft padded ;;
  Ok (map (map exp) signal).

(** Lines 573-584: the distances the polygon is drawn from.  The callers hand
    coefficients of shape [n, C, 2] to the training branch and a flat
    [n, 2C] tensor to the inference branch, which reshapes whatever it gets;
    a coefficient tensor given to the ray head has no counterpart in the
    callers and is rejected where it would meet the [n, K] tables. *)
Definition decode_distances (self : FourierNetHead) (train : bool)
    (distances : mask_tensor) : result mat :=
  if use_fourier self then
    if train then
      match distances with
      | Coeffs d =>
          pad <- zeros_c (length d) (contour_points self - num_coe self) ;;
          padded <- cat_dim1 d pad ;;
          irfft_exp padded
      | Rays _ => Raise (RuntimeError "tensors must have the same number of dimensions")
      end
    else
      d <- reshape_coe (num_coe self)
             match distances with
             | Rays t => t
             | Coeffs t => map (flat_map (fun z => [fst z; snd z])) t
             end ;;
      pad <- zeros_c (length d) (contour_points self - visulize_coe self) ;;
      padded <- cat_dim1 (map (slice_to (visulize_coe self)) d) pad ;;
      irfft_exp padded
  else
    match distances with
    | Rays t => Ok t
    | Coeffs _ => Raise (RuntimeError "the sizes of the tensors must match")
    end.

(** [t[:, j].unsqueeze(1)]. *)
Definition column (j : nat) (t : mat) : result mat :=
  mapM (fun row => match nth_error row j with
                   | Some v => Ok [v]
                   | None => Raise IndexError
                   end) t.

(** Lines 601-603, for one coordinate. *)
Definition clip_to_bbox (lo hi : nat) (bbox : option mat) (t : mat) : result mat :=
  match bbox with
  | None => Ok t
  | Some b =>
      upper <- column hi b ;;
      lower <- column lo b ;;
      capped <- bcast2 Rmin t upper ;;
      bcast2 Rmax capped lower
  end.

(** Lines 598-600, for one coordinate. *)
Definition clip_to_shape (bound : option Z) (t : mat) : mat :=
  match bound with
  | None => t
  | Some m => map (map (clamp 0 (IZR (m - 1)))) t
  end.

(** Lines 563-606, together with the record of the [torch.sin] and
    [torch.cos] evaluations of lines 590-591, which are reached once the
    distances are there. *)
Definition distance2mask_traced (self : FourierNetHead) (points : list (R * R))
    (distances : mask_tensor) (max_shape : option (Z * Z)) (train : bool)
    (bbox : option mat) : list trig_call * result (polygons * mat) :=
  match decode_distances self train distances with
  | Raise e => ([], Raise e)
  | Ok distances =>
      let num_points := length points in
      let c_x := map (fun p => repeat (fst p) (length (angles self))) points in
      let c_y := map (fun p => repeat (snd p) (length (angles self))) points in
      let sin := repeat (map sin (angles self)) num_points in
      let cos := repeat (map cos (angles self)) num_points in
      ([CallSin (angles self); CallCos (angles self)],
       xs <- bcast2 Rmult distances sin ;;
       x <- bcast2 Rplus xs c_x ;;
       ys <- bcast2 Rmult distances cos ;;
       y <- bcast2 Rplus ys c_y ;;
       let x := clip_to_shape (option_map snd max_shape) x in
       let y := clip_to_shape (option_map fst max_shape) y in
       x <- clip_to_bbox 0 2 bbox x ;;
       y <- clip_to_bbox 1 3 bbox y ;;
       _ <- (if Nat.eqb (length x) (length y) then Ok tt
             else Raise (RuntimeError "sizes of tensors must match")) ;;
       Ok (combine x y, distances))
  end.

Definition distance2mask (self : FourierNetHead) (points : list (R * R))
    (distances : mask_tensor) (max_shape : option (Z * Z)) (train : bool)
    (bbox : option mat) : result (polygons * mat) :=
  snd (distance2mask_traced self points distances max_shape train bbox).

(** ** The methods that call into [mmdet] and the layers

    The layers, the loss functions, [distance2bbox] and
    [multiclass_nms_with_mask] live outside this file of the repository; the
    methods are stated over any choice of them. *)

(** [img_metas[i]['scale_factor']]: a float, or an array of floats. *)
Inductive scale_factor_t : Type :=
| ScaleScalar (s : R)
| ScaleArray (a : vec).

Section Head.

Variable feat : Type.
Variable nms_cfg : Type.
Variables cls_convs reg_convs mask_convs : list (feat -> feat).
Variables polar_cls polar_reg polar_mask polar_centerness : feat -> tensor4.

Variable distance2bbox : list (R * R) -> mat -> option (Z * Z) -> result mat.
Variable multiclass_nms_with_mask :
  mat -> mat -> polygons -> R -> nms_cfg -> Z -> vec ->
  result (mat * list Z * polygons).

Variable loss_cls_fn : mat -> list Z -> R -> R.
Variable loss_bbox_fn : mat -> mat -> vec -> R -> R.
Variable loss_mask_fn : mask_tensor -> mask_tensor -> option (vec * R) -> R.
Variable loss_centerness_fn : vec -> vec -> R.

(** [Scale(1.0)] with its learnt factor. *)
Definition Scale (scale : R) (t : tensor4) : tensor4 :=
  map4 (fun v => v * scale) t.

Definition run_layers (layers : list (feat -> feat)) (x : feat) : feat :=
  fold_left (fun f layer => layer f) layers x.

(** Lines 189-217. *)
Definition forward_single (self : FourierNetHead) (x : feat)
    (scale_bbox scale_mask : R) : tensor4 * tensor4 * tensor4 * tensor4 :=
  let cls_feat := run_layers cls_convs x in
  let cls_score := polar_cls cls_feat in
  let mask_feat := run_layers mask_convs x in
  let mask_pred :=
    if use_fourier self
    then Scale scale_mask (polar_mask mask_feat)
    else map4 exp (Scale scale_mask (polar_mask mask_feat)) in
  let centerness := polar_centerness cls_feat in
  let bbox_pred :=
    if negb (bbox_from_mask self)
    then map4 exp (Scale scale_bbox (polar_reg (run_layers reg_convs x)))
    else slice_channels 4 mask_pred in
  (cls_score, bbox_pred, centerness, mask_pred).

(** ** Inference post-processing (lines 469-560) *)

Record test_cfg : Type := {
  nms_pre : option Z;
  score_thr : R;
  nms : nms_cfg;
  max_per_img : Z
}.

(** [cfg.get('nms_pre', -1)]. *)
Definition cfg_get_nms_pre (cfg : test_cfg) : Z :=
  match nms_pre cfg with
  | Some v => v
  | None => (-1)%Z
  end.

(** The tensors of one level after flattening. *)
Record level_preds : Type := {
  lv_points : list (R * R);
  lv_bbox_pred : mat;
  lv_mask_pred : mat;
  lv_scores : mat;
  lv_centerness : vec
}.

(** Lines 487-495. *)
Definition flatten_level (self : FourierNetHead) (cls_score bbox_pred mask_pred
    centerness : tensor3) (points : list (R * R)) : result level_preds :=
  _ <- assert (Nat.eqb (fst (featmap_size3 cls_score)) (fst (featmap_size3 bbox_pred))
               && Nat.eqb (snd (featmap_size3 cls_score)) (snd (featmap_size3 bbox_pred))) ;;
  scores <- reshape_rows (cls_out_channels self) (permute_flat3 cls_score) ;;
  let scores := map (map sigmoid) scores in
  let centerness := map sigmoid (permute_flat3 centerness) in
  bbox_pred <- reshape_rows 4 (permute_flat3 bbox_pred) ;;
  mask_pred <- reshape_rows (if use_fourier self then num_coe self * 2
                             else contour_points self) (permute_flat3 mask_pred) ;;
  Ok {| lv_points := points; lv_bbox_pred := bbox_pred; lv_mask_pred := mask_pred;
        lv_scores := scores; lv_centerness := centerness |}.

(** Line 498: [(scores * centerness[:, None]).max(dim=1)]. *)
Definition fused_scores (scores : mat) (centerness : vec) : result vec :=
  weighted <- bcast2 Rmult scores (map (fun c => [c]) centerness) ;;
  max_dim weighted.

(** Lines 496-504. *)
Definition prefilter (cfg : test_cfg) (lv : level_preds) : result level_preds :=
  let nms_pre := cfg_get_nms_pre cfg in
  if ((0 <? nms_pre)%Z && (nms_pre <? Z.of_nat (length (lv_scores lv)))%Z)%bool then
    max_scores <- fused_scores (lv_scores lv) (lv_centerness lv) ;;
    '(_, topk_inds) <- topk (Z.to_nat nms_pre) max_scores ;;
    points <- index_rows (lv_points lv) topk_inds ;;
    bbox_pred <- index_rows (lv_bbox_pred lv) topk_inds ;;
    mask_pred <- index_rows (lv_mask_pred lv) topk_inds ;;
    scores <- index_rows (lv_scores lv) topk_inds ;;
    centerness <- index_rows (lv_centerness lv) topk_inds ;;
    Ok {| lv_points := points; lv_bbox_pred := bbox_pred; lv_mask_pred := mask_pred;
          lv_scores := scores; lv_centerness := centerness |}
  else Ok lv.

(** [stack([a[:, 0].min(1)[0], a[:, 1].min(1)[0], a[:, 0].max(1)[0],
    a[:, 1].max(1)[0]], -1)]. *)
Definition mask_extent (a : polygons) : result mat :=
  x1 <- min_dim (map fst a) ;;
  y1 <- min_dim (map snd a) ;;
  x2 <- max_dim (map fst a) ;;
  y2 <- max_dim (map snd a) ;;
  Ok (map (fun p => match p with (a1, b1, a2, b2) => [a1; b1; a2; b2] end)
          (combine (combine (combine x1 y1) x2) y2)).

(** Lines 505-514. *)
Definition decode_level (self : FourierNetHead) (img_shape : Z * Z)
    (lv : level_preds) : result (mat * polygons) :=
  if negb (bbox_from_mask self) then
    bboxes <- distance2bbox (lv_points lv) (lv_bbox_pred lv) (Some img_shape) ;;
    '(masks, _) <- distance2mask self (lv_points lv) (Rays (lv_mask_pred lv))
                     (Some img_shape) false None ;;
    Ok (bboxes, masks)
  else
    '(masks, _) <- distance2mask self (lv_points lv) (Rays (lv_mask_pred lv))
                     (Some img_shape) false None ;;
    bboxes <- mask_extent masks ;;
    Ok (bboxes, masks).

Definition level_inputs : Type :=
  (tensor3 * tensor3 * tensor3 * tensor3 * list (R * R))%type.

(** [zip(cls_scores, bbox_preds, mask_preds, centernesses, mlvl_points)]. *)
Definition zip5 (cls_scores bbox_preds mask_preds centernesses : list tensor3)
    (mlvl_points : list (list (R * R))) : list level_inputs :=
  combine (combine (combine (combine cls_scores bbox_preds) mask_preds) centernesses)
          mlvl_points.

(** One turn of the loop of lines 484-519. *)
Definition level_step (self : FourierNetHead) (img_shape : Z * Z) (cfg : test_cfg)
    (lvl : level_inputs) : result (mat * mat * vec * polygons) :=
  let '(cls_score, bbox_pred, mask_pred, centerness, points) := lvl in
  lv <- flatten_level self cls_score bbox_pred mask_pred centerness points ;;
  lv <- prefilter cfg lv ;;
  '(bboxes, masks) <- decode_level self img_shape lv ;;
  Ok (bboxes, lv_scores lv, lv_centerness lv, masks).

(** Python truth value of the [rescale] argument ([None], [False], [True]). *)
Definition truthy (rescale : option bool) : bool :=
  match rescale with
  | Some true => true
  | _ => false
  end.

Definition as_pair (m : mat) : result (vec * vec) :=
  match m with
  | [x; y] => Ok (x, y)
  | _ => Raise (RuntimeError "the sizes of the tensors must match")
  end.

(** [mlvl_bboxes / mlvl_bboxes.new_tensor(scale_factor)] (line 524). *)
Definition rescale_bboxes (mlvl_bboxes : mat) (scale_factor : scale_factor_t)
  : result mat :=
  match scale_factor with
  | ScaleScalar s => Ok (map (map (fun v => v / s)) mlvl_bboxes)
  | ScaleArray a => bcast2 Rdiv mlvl_bboxes [a]
  end.

(** Lines 525-529.  [torch.Tensor(scale_factor)] raises for a float and the
    handler divides by the float; for an array the first two factors are
    repeated [contour_points] times, and a division that fails fails again in
    the handler, which by then sees the repeated tensor. *)
Definition rescale_masks (self : FourierNetHead) (mlvl_masks : polygons)
    (scale_factor : scale_factor_t) : result polygons :=
  match scale_factor with
  | ScaleScalar s =>
      Ok (map (fun p => (map (fun v => v / s) (fst p), map (fun v => v / s) (snd p)))
              mlvl_masks)
  | ScaleArray a =>
      if (contour_points self <? 0)%Z then Raise (RuntimeError "negative repeat")
      else
        let factors := map (fun s => repeat s (Z.to_nat (contour_points self)))
                           (firstn 2 a) in
        mapM (fun p => m <- bcast2 Rdiv [fst p; snd p] factors ;; as_pair m) mlvl_masks
  end.

(** The locals of [get_bboxes_single] when the NMS step starts.  The two
    rescaled tensors are assigned inside [if rescale:] only; [None] stands for
    a local that was never assigned. *)
Record gathered : Type := {
  mlvl_bboxes : mat;
  mlvl_masks : polygons;
  _mlvl_bboxes : option mat;
  _mlvl_masks : option polygons;
  mlvl_scores : mat;
  mlvl_centerness : vec
}.

(** Lines 479-534. *)
Definition gather_levels (self : FourierNetHead)
    (cls_scores bbox_preds mask_preds centernesses : list tensor3)
    (mlvl_points : list (list (R * R))) (img_shape : Z * Z)
    (scale_factor : scale_factor_t) (cfg : test_cfg) (rescale : option bool)
  : result gathered :=
  _ <- assert (Nat.eqb (length cls_scores) (length bbox_preds)
               && Nat.eqb (length bbox_preds) (length mlvl_points)) ;;
  levels <- mapM (level_step self img_shape cfg)
              (zip5 cls_scores bbox_preds mask_preds centernesses mlvl_points) ;;
  let mlvl_bboxes := map (fun l => fst (fst (fst l))) levels in
  let mlvl_scores := map (fun l => snd (fst (fst l))) levels in
  let mlvl_centerness := map (fun l => snd (fst l)) levels in
  let mlvl_masks := map snd levels in
  mlvl_bboxes <- cat mlvl_bboxes ;;
  mlvl_masks <- cat mlvl_masks ;;
  '(_mlvl_bboxes, _mlvl_masks) <-
    (if truthy rescale then
       b <- rescale_bboxes mlvl_bboxes scale_factor ;;
       m <- rescale_masks self mlvl_masks scale_factor ;;
       Ok (Some b, Some m)
     else Ok (None, None)) ;;
  mlvl_scores <- cat mlvl_scores ;;
  let mlvl_scores := map (fun row => 0 :: row) mlvl_scores in
  mlvl_centerness <- cat mlvl_centerness ;;
  Ok {| mlvl_bboxes := mlvl_bboxes; mlvl_masks := mlvl_masks;
        _mlvl_bboxes := _mlvl_bboxes; _mlvl_masks := _mlvl_masks;
        mlvl_scores := mlvl_scores; mlvl_centerness := mlvl_centerness |}.

(** Lines 536-560. *)
Definition nms_step (self : FourierNetHead) (cfg : test_cfg) (g : gathered)
  : result (mat * list Z * polygons) :=
  if mask_nms self then
    a <- read_local "_mlvl_masks" (_mlvl_masks g) ;;
    boxes <- mask_extent a ;;
    masks <- read_local "_mlvl_masks" (_mlvl_masks g) ;;
    multiclass_nms_with_mask boxes (mlvl_scores g) masks
      (score_thr cfg) (nms cfg) (max_per_img cfg)
      (map (fun c => c + centerness_factor self) (mlvl_centerness g))
  else
    boxes <- read_local "_mlvl_bboxes" (_mlvl_bboxes g) ;;
    masks <- read_local "_mlvl_masks" (_mlvl_masks g) ;;
    multiclass_nms_with_mask boxes (mlvl_scores g) masks
      (score_thr cfg) (nms cfg) (max_per_img cfg)
      (map (fun c => c + centerness_factor self) (mlvl_centerness g)).

(** Lines 469-560. *)
Definition get_bboxes_single (self : FourierNetHead)
    (cls_scores bbox_preds mask_preds centernesses : list tensor3)
    (mlvl_points : list (list (R * R))) (img_shape : Z * Z)
    (scale_factor : scale_factor_t) (cfg : test_cfg) (rescale : option bool)
  : result (mat * list Z * polygons) :=
  g <- gather_levels self cls_scores bbox_preds mask_preds centernesses mlvl_points
         img_shape scale_factor cfg rescale ;;
  nms_step self cfg g.

(** ** Training loss (lines 219-352, 383-423) *)

(** The four values of the [extra_data] dictionary, one tensor per image. *)
Record extra_data_t : Type := {
  ed_labels : list (list Z);
  ed_bbox_targets : list mat;
  ed_mask_targets : list mat;
  ed_centerness_targets : list vec
}.

(** [torch.cat([per_img[i] for per_img in per_imgs])]. *)
Definition concat_level {A : Type} (per_imgs : list (list (list A))) (i : nat)
  : result (list A) :=
  cat (map (fun per_img => nth i per_img []) per_imgs).

(** Lines 383-423. *)
Definition polar_target (self : FourierNetHead) (points : list (list (R * R)))
    (extra_data : extra_data_t)
  : result (list (list Z) * list mat * list mat * list vec) :=
  _ <- assert (Nat.eqb (length points) (length (regress_ranges self))) ;;
  let num_levels := length points in
  let num_points := map (@length (R * R)) points in
  labels_list <- mapM (split num_points) (ed_labels extra_data) ;;
  centerness_targets_list <- mapM (split num_points) (ed_centerness_targets extra_data) ;;
  bbox_targets_list <- mapM (split num_points) (ed_bbox_targets extra_data) ;;
  mask_targets_list <- mapM (split num_points) (ed_mask_targets extra_data) ;;
  lvls <- mapM (fun i =>
            l <- concat_level labels_list i ;;
            c <- concat_level centerness_targets_list i ;;
            b <- concat_level bbox_targets_list i ;;
            m <- concat_level mask_targets_list i ;;
            Ok (l, b, m, c)) (seq 0 num_levels) ;;
  Ok (map (fun t => fst (fst (fst t))) lvls,
      map (fun t => snd (fst (fst t))) lvls,
      map (fun t => snd (fst t)) lvls,
      map snd lvls).

(** The list [flatten_mask_preds]: ray tensors or coefficient tensors. *)
Inductive mask_list : Type :=
| RaysL (ts : list mat)
| CoeffsL (ts : list cmat).

Definition cat_masks (ts : mask_list) : result mask_tensor :=
  match ts with
  | RaysL l => t <- cat l ;; Ok (Rays t)
  | CoeffsL l => t <- cat l ;; Ok (Coeffs t)
  end.

Definition index_mask (t : mask_tensor) (inds : list nat) : result mask_tensor :=
  match t with
  | Rays m => r <- index_rows m inds ;; Ok (Rays r)
  | Coeffs m => r <- index_rows m inds ;; Ok (Coeffs r)
  end.

Definition sum_mask (t : mask_tensor) : R :=
  match t with
  | Rays m => sum2 m
  | Coeffs m => csum2 m
  end.

(** [points.repeat(num_imgs, 1)]. *)
Definition repeat_points (num_imgs : nat) (points : list (R * R)) : list (R * R) :=
  concat (repeat points num_imgs).

(** One turn of the loop of lines 258-272. *)
Definition decode_level_train (self : FourierNetHead) (num_imgs : nat)
    (lvl : tensor4 * list (R * R)) : result (option mat * mat) :=
  let '(mask_pred, points) := lvl in
  mask_pred <- reshape_coe_flat (num_coe self) (permute_flat4 mask_pred) ;;
  if bbox_from_mask self then
    '(xy, m) <- distance2mask self (repeat_points num_imgs points) (Coeffs mask_pred)
                  None true None ;;
    b <- mask_extent xy ;;
    Ok (Some b, m)
  else
    pad <- zeros_c (length mask_pred) (contour_points self - num_coe self) ;;
    padded <- cat_dim1 mask_pred pad ;;
    m <- irfft_exp padded ;;
    Ok (None, m).

Fixpoint somes {A : Type} (l : list (option A)) : list A :=
  match l with
  | [] => []
  | Some a :: l' => a :: somes l'
  | None :: l' => somes l'
  end.

(** Lines 249-283: the locals [flatten_mask_preds] and [flatten_bbox_preds];
    the second one is [None] when no branch assigned it. *)
Definition flatten_preds (self : FourierNetHead) (num_imgs : nat)
    (bbox_preds mask_preds : list tensor4) (all_level_points : list (list (R * R)))
  : result (mask_list * option (list mat)) :=
  '(flatten_mask_preds, flatten_bbox_preds) <-
    (if use_fourier self then
       if loss_on_coe self then
         l <- mapM (fun t => reshape_coe_flat (num_coe self) (permute_flat4 t)) mask_preds ;;
         Ok (CoeffsL l, None)
       else
         l <- mapM (decode_level_train self num_imgs) (combine mask_preds all_level_points) ;;
         Ok (RaysL (map snd l), Some (somes (map fst l)))
     else
       l <- mapM (fun t => reshape_rows (contour_points self) (permute_flat4 t)) mask_preds ;;
       Ok (RaysL l, None)) ;;
  if negb (bbox_from_mask self) then
    l <- mapM (fun t => reshape_rows 4 (permute_flat4 t)) bbox_preds ;;
    Ok (flatten_mask_preds, Some l)
  else Ok (flatten_mask_preds, flatten_bbox_preds).

Record losses : Type := {
  loss_cls : R;
  loss_bbox : R;
  loss_mask : R;
  loss_centerness : R
}.

(** Lines 327-328: the forward transform of the ray-distance targets, cut to
    the first [num_coe] coefficients. *)
Definition target_coefficients (self : FourierNetHead) (pos_mask_targets : mat)
  : result cmat :=
  spectrum <- mapM rfft pos_mask_targets ;;
  Ok (map (slice_to (num_coe self)) spectrum).

(** Lines 306-346. *)
Definition regression_losses (self : FourierNetHead) (pos_inds : list nat)
    (pos_bbox_preds : mat) (pos_centerness : vec) (pos_mask_preds : mask_tensor)
    (flatten_bbox_targets flatten_mask_targets : mat)
    (flatten_centerness_targets : vec) (flatten_points : list (R * R))
  : result (R * R * R) :=
  if Nat.ltb 0 (length pos_inds) then
    pos_bbox_targets <- index_rows flatten_bbox_targets pos_inds ;;
    pos_mask_targets <- index_rows flatten_mask_targets pos_inds ;;
    pos_centerness_targets <- index_rows flatten_centerness_targets pos_inds ;;
    pos_points <- index_rows flatten_points pos_inds ;;
    pos_decoded_bbox_preds <-
      (if bbox_from_mask self then Ok pos_bbox_preds
       else distance2bbox pos_points pos_bbox_preds None) ;;
    pos_decoded_target_preds <- distance2bbox pos_points pos_bbox_targets None ;;
    let loss_bbox := loss_bbox_fn pos_decoded_bbox_preds pos_decoded_target_preds
                       pos_centerness_targets (sumR pos_centerness_targets) in
    loss_mask <-
      (if loss_on_coe self then
         pos_mask_targets <- target_coefficients self pos_mask_targets ;;
         Ok (loss_mask_fn pos_mask_preds (Coeffs pos_mask_targets) None)
       else
         Ok (loss_mask_fn pos_mask_preds (Rays pos_mask_targets)
               (Some (pos_centerness_targets, sumR pos_centerness_targets)))) ;;
    let loss_centerness := loss_centerness_fn pos_centerness pos_centerness_targets in
    Ok (loss_bbox, loss_mask, loss_centerness)
  else
    Ok (sum2 pos_bbox_preds, sum_mask pos_mask_preds, sumR pos_centerness).

(** Lines 219-352. *)
Definition loss (self : FourierNetHead)
    (cls_scores bbox_preds centernesses mask_preds : list tensor4)
    (extra_data : extra_data_t) : result losses :=
  _ <- assert (Nat.eqb (length cls_scores) (length bbox_preds)
               && Nat.eqb (length bbox_preds) (length centernesses)
               && Nat.eqb (length centernesses) (length mask_preds)) ;;
  let featmap_sizes := map featmap_size4 cls_scores in
  _ <- match bbox_preds with [] => Raise IndexError | _ => Ok tt end ;;
  all_level_points <- get_points self featmap_sizes ;;
  '(labels, bbox_targets, mask_targets, centerness_targets) <-
    polar_target self all_level_points extra_data ;;
  num_imgs <- match cls_scores with [] => Raise IndexError | t :: _ => Ok (size0 t) end ;;
  flatten_cls_scores <-
    mapM (fun t => reshape_rows (cls_out_channels self) (permute_flat4 t)) cls_scores ;;
  let flatten_centerness := map permute_flat4 centernesses in
  '(flatten_mask_preds, flatten_bbox_preds) <-
    flatten_preds self num_imgs bbox_preds mask_preds all_level_points ;;
  flatten_cls_scores <- cat flatten_cls_scores ;;
  flatten_bbox_preds <- read_local "flatten_bbox_preds" flatten_bbox_preds ;;
  flatten_bbox_preds <- cat flatten_bbox_preds ;;
  flatten_mask_preds <- cat_masks flatten_mask_preds ;;
  flatten_centerness <- cat flatten_centerness ;;
  flatten_labels <- cat labels ;;
  flatten_centerness_targets <- cat centerness_targets ;;
  flatten_bbox_targets <- cat bbox_targets ;;
  flatten_mask_targets <- cat mask_targets ;;
  flatten_points <- cat (map (repeat_points num_imgs) all_level_points) ;;
  let pos_inds := nonzero flatten_labels in
  let num_pos := length pos_inds in
  let loss_cls := loss_cls_fn flatten_cls_scores flatten_labels
                    (INR num_pos + INR num_imgs) in
  pos_bbox_preds <- index_rows flatten_bbox_preds pos_inds ;;
  pos_centerness <- index_rows flatten_centerness pos_inds ;;
  pos_mask_preds <- index_mask flatten_mask_preds pos_inds ;;
  '(loss_bbox, loss_mask, loss_centerness) <-
    regression_losses self pos_inds pos_bbox_preds pos_centerness pos_mask_preds
      flatten_bbox_targets flatten_mask_targets flatten_centerness_targets
      flatten_points ;;
  Ok {| loss_cls := loss_cls; loss_bbox := loss_bbox; loss_mask := loss_mask;
        loss_centerness := loss_centerness |}.

End Head.

(** ** Inference over a batch (lines 430-467) *)

(** The two entries of [img_metas[i]] that [get_bboxes] reads; of the image
    shape (h, w, channels) the model keeps (h, w). *)
Record img_meta : Type := {
  meta_img_shape : Z * Z;
  meta_scale_factor : scale_factor_t
}.

(** [t[img_id]] for a batch tensor. *)
Definition select_image (t : tensor4) (img_id : nat) : result tensor3 :=
  let '(n, c, h, w) := size4 t in
  if Nat.ltb img_id n then Ok (Tensor3 (c, h, w) (get4 t img_id))
  else Raise IndexError.

(** [[ts[i][img_id].detach() for i in range(num_levels)]]. *)
Definition select_levels (ts : list tensor4) (num_levels img_id : nat)
  : result (list tensor3) :=
  mapM (fun i => match nth_error ts i with
                 | Some t => select_image t img_id
                 | None => Raise IndexError
                 end) (seq 0 num_levels).

Section Batch.

Variable nms_cfg : Type.
Variable distance2bbox : list (R * R) -> mat -> option (Z * Z) -> result mat.
Variable multiclass_nms_with_mask :
  mat -> mat -> polygons -> R -> nms_cfg -> Z -> vec ->
  result (mat * list Z * polygons).

(** One turn of the loop of lines 445-466. *)
Definition get_bboxes_image (self : FourierNetHead)
    (cls_scores bbox_preds centernesses mask_preds : list tensor4)
    (mlvl_points : list (list (R * R))) (cfg : test_cfg nms_cfg)
    (rescale : option bool) (img : nat * img_meta)
  : result (mat * list Z * polygons) :=
  let '(img_id, meta) := img in
  let num_levels := length cls_scores in
  cls_score_list <- select_levels cls_scores num_levels img_id ;;
  bbox_pred_list <- select_levels bbox_preds num_levels img_id ;;
  centerness_pred_list <- select_levels centernesses num_levels img_id ;;
  mask_pred_list <- select_levels mask_preds num_levels img_id ;;
  get_bboxes_single nms_cfg distance2bbox multiclass_nms_with_mask self
    cls_score_list bbox_pred_list mask_pred_list centerness_pred_list mlvl_points
    (meta_img_shape meta) (meta_scale_factor meta) cfg rescale.

(** Lines 430-467. *)
Definition get_bboxes (self : FourierNetHead)
    (cls_scores bbox_preds centernesses mask_preds : list tensor4)
    (img_metas : list img_meta) (cfg : test_cfg nms_cfg) (rescale : option bool)
  : result (list (mat * list Z * polygons)) :=
  _ <- assert (Nat.eqb (length cls_scores) (length bbox_preds)) ;;
  let featmap_sizes := map featmap_size4 cls_scores in
  _ <- match bbox_preds with [] => Raise IndexError | _ => Ok tt end ;;
  mlvl_points <- get_points self featmap_sizes ;;
  mapM (get_bboxes_image self cls_scores bbox_preds centernesses mask_preds
          mlvl_points cfg rescale)
       (combine (seq 0 (length img_metas)) img_metas).

End Batch.

(** ** Layers (lines 73-166)

    [_init_layers] builds modules of [torch.nn], [mmcv] and [mmdet]; the
    model records which module is built with which arguments. *)

Module Layers.

(** A config dict is kept as its ['type'] entry; [None] is Python's [None]. *)
Inductive module : Type :=
| ConvModule (in_ch out_ch kernel_size stride padding : Z)
             (conv_cfg norm_cfg : option string) (bias : bool)
| ModulatedDeformConvPack (in_ch out_ch kernel_size stride padding dilation
                           deformable_groups : Z)
| NormLayer (cfg : string) (num_features : Z)
| ReLU (inplace : bool)
| Conv2d (in_ch out_ch kernel_size padding : Z)
| ScaleModule (scale : R).

(** The constructor arguments that only [_init_layers] reads. *)
Record layer_args : Type := {
  in_channels : Z;
  feat_channels : Z;
  stacked_convs : Z;
  use_dcn : bool;
  conv_cfg : option string;
  norm_cfg : option string
}.

(** The attributes [_init_layers] sets; [reg_convs] is not set on a head
    with [bbox_from_mask]. *)
Record layers : Type := {
  cls_convs : list module;
  reg_convs : option (list module);
  mask_convs : list module;
  polar_cls : module;
  polar_reg : module;
  polar_mask : module;
  polar_centerness : module;
  scales_bbox : list module;
  scales_mask : list module
}.

(** Python's [range(n)]. *)
Definition py_range (n : Z) : list Z := map Z.of_nat (seq 0 (Z.to_nat n)).

Definition is_none {A : Type} (o : option A) : bool :=
  match o with None => true | Some _ => false end.

(** [l.append(m)] on an attribute that may not have been set. *)
Definition append_to (l : option (list module)) (ms : list module)
  : option (list module) :=
  option_map (fun l => l ++ ms) l.

(** One turn of the loop of lines 78-153. *)
Definition tower_step (self : FourierNetHead) (args : layer_args)
    (st : list module * option (list module) * list module) (i : Z)
  : list module * option (list module) * list module :=
  let '(cls_convs, reg_convs, mask_convs) := st in
  let chn := if (i =? 0)%Z then in_channels args else feat_channels args in
  if negb (use_dcn args) then
    let conv := ConvModule chn (feat_channels args) 3 1 1 (conv_cfg args) (norm_cfg args)
                           (is_none (norm_cfg args)) in
    (cls_convs ++ [conv],
     if negb (bbox_from_mask self) then append_to reg_convs [conv] else reg_convs,
     mask_convs ++ [conv])
  else
    let dcn := ModulatedDeformConvPack chn (feat_channels args) 3 1 1 1 1 in
    let norm := match norm_cfg args with
                | Some cfg => [NormLayer cfg (feat_channels args)]
                | None => []
                end in
    (((cls_convs ++ [dcn]) ++ norm) ++ [ReLU true],
     if negb (bbox_from_mask self)
     then append_to (append_to (append_to reg_convs [dcn]) norm) [ReLU true]
     else reg_convs,
     ((mask_convs ++ [dcn]) ++ norm) ++ [ReLU true]).

(** Lines 73-166. *)
Definition _init_layers (self : FourierNetHead) (args : layer_args) : layers :=
  let '(cls_convs, reg_convs, mask_convs) :=
    fold_left (tower_step self args) (py_range (stacked_convs args))
              ([], if negb (bbox_from_mask self) then Some [] else None, []) in
  {| cls_convs := cls_convs;
     reg_convs := reg_convs;
     mask_convs := mask_convs;
     polar_cls := Conv2d (feat_channels args) (cls_out_channels self) 3 1;
     polar_reg := Conv2d (feat_channels args) 4 3 1;
     polar_mask := if use_fourier self
                   then Conv2d (feat_channels args) (num_coe self * 2) 3 1
                   else Conv2d (feat_channels args) (contour_points self) 3 1;
     polar_centerness := Conv2d (feat_channels args) 1 3 1;
     scales_bbox := map (fun _ => ScaleModule 1) (strides self);
     scales_mask := map (fun _ => ScaleModule 1) (strides self) |}.

End Layers.

(** ** Notions used in the statements *)

(** The minimum and the maximum entry of a row. *)
Definition row_min (row : vec) : R := fold_left Rmin (tl row) (hd 0 row).
Definition row_max (row : vec) : R := fold_left Rmax (tl row) (hd 0 row).

Definition all_equal (row : vec) : Prop :=
  forall x y, In x row -> In y row -> x = y.

(** The order [topk] sorts by: decreasing values. *)
Definition desc (p q : R * nat) : Prop := fst q <= fst p.

Arguments prefilter {nms_cfg} cfg lv.
Arguments cfg_get_nms_pre {nms_cfg} cfg.

(** The fused score of point [i]: max(class score) * centerness. *)
Definition fused_score (lv : level_preds) (i : nat) : R :=
  row_max (nth i (lv_scores lv) []) * nth i (lv_centerness lv) 0.

(** The rows of a level at the given indices. *)
Definition select_level (inds : list nat) (lv : level_preds) : level_preds :=
  {| lv_points := map (fun i => nth i (lv_points lv) (0, 0)) inds;
     lv_bbox_pred := map (fun i => nth i (lv_bbox_pred lv) []) inds;
     lv_mask_pred := map (fun i => nth i (lv_mask_pred lv) []) inds;
     lv_scores := map (fun i => nth i (lv_scores lv) []) inds;
     lv_centerness := map (fun i => nth i (lv_centerness lv) 0) inds |}.

(** Strictly positive entries. *)
Definition positive4 (t : tensor4) : Prop := forall n c h w, 0 < get4 t n c h w.
Definition positive2 (t : mat) : Prop := Forall (Forall (fun v => 0 < v)) t.

(** The sum of [f 0], ..., [f (N - 1)]. *)
Definition sumN (f : nat -> R) (N : nat) : R := sumR (map f (seq 0 N)).

(** The head's zero-padded half spectrum of [x]. *)
Definition padded_spectrum (x : vec) : cvec :=
  firstn (length x / 2 + 1) (map (rfft_coef x) (seq 0 (length x)))
  ++ repeat (0, 0) (length x - (length x / 2 + 1)).

(** The truncated spectra of a batch of rows of length [K]. *)
Definition half_spectra (K : nat) (d : mat) : cmat :=
  map (fun x => firstn (K / 2 + 1) (map (rfft_coef x) (seq 0 (length x)))) d.

(** One polygon as lines 595-596 draw it: vertex [j] of the point [p] with the
    distances [row] is ([d_j * sin a_j + p_x], [d_j * cos a_j + p_y]). *)
Definition polygon_of (angles : vec) (p : R * R) (row : vec) : vec * vec :=
  (map (fun q => fst q * sin (snd q) + fst p) (combine row angles),
   map (fun q => fst q * cos (snd q) + snd p) (combine row angles)).

(** The clamp of lines 598-600 on one polygon. *)
Definition clip_polygon (max_shape : option (Z * Z)) (poly : vec * vec) : vec * vec :=
  match max_shape with
  | None => poly
  | Some (h, w) => (map (clamp 0 (IZR (w - 1))) (fst poly),
                    map (clamp 0 (IZR (h - 1))) (snd poly))
  end.

(** The box [x1, y1, x2, y2] is the tight axis-aligned extent of a polygon. *)
Definition extent_of (poly : vec * vec) (box : vec) : Prop :=
  exists x1 y1 x2 y2,
    box = [x1; y1; x2; y2] /\
    In x1 (fst poly) /\ In x2 (fst poly) /\ In y1 (snd poly) /\ In y2 (snd poly) /\
    (forall x, In x (fst poly) -> x1 <= x <= x2) /\
    (forall y, In y (snd poly) -> y1 <= y <= y2).

(** The channel vectors of a [C, H, W] tensor, one per cell, row by row. *)
Definition pixel_rows (t : tensor3) : mat :=
  let '(c, h, w) := size3 t in
  flat_map (fun y => map (fun x => map (fun ch => get3 t ch y x) (seq 0 c)) (seq 0 w))
           (seq 0 h).

(** A value strictly between 0 and 1. *)
Definition probability (p : R) : Prop := 0 < p < 1.

(** The per-level regrouping of per-image tensors: level [i] is the
    concatenation, over the images, of slice [i] of each image's tensor. *)
Definition regroup {A : Type} (sizes : list nat) (ts : list (list A)) : list (list A) :=
  map (fun i => concat (map (fun t => nth i (split_sizes sizes t) []) ts))
      (seq 0 (length sizes)).

(** The rows of [t] whose label is not zero, in their order. *)
Definition positives {A : Type} (labels : list Z) (t : list A) : list A :=
  map snd (filter (fun p => negb (fst p =? 0)%Z) (combine labels t)).

(** The channel vectors of a [N, C, H, W] tensor: image by image, and inside
    an image row by row. *)
Definition batch_rows (t : tensor4) : mat :=
  let '(n, c, h, w) := size4 t in
  flat_map (fun i => pixel_rows (Tensor3 (c, h, w) (get4 t i))) (seq 0 n).

(** The number of channels a module gives back for an input of [c] channels:
    a convolution or a norm layer rejects an input whose channel count is not
    the one it was built for. *)
Definition module_channels (m : Layers.module) (c : Z) : result Z :=
  match m with
  | Layers.ConvModule in_ch out_ch _ _ _ _ _ _
  | Layers.ModulatedDeformConvPack in_ch out_ch _ _ _ _ _
  | Layers.Conv2d in_ch out_ch _ _ =>
      if (c =? in_ch)%Z then Ok out_ch
      else Raise (RuntimeError "input channels do not match")
  | Layers.NormLayer _ num_features =>
      if (c =? num_features)%Z then Ok c
      else Raise (RuntimeError "input channels do not match")
  | Layers.ReLU _ | Layers.ScaleModule _ => Ok c
  end.

(** A tower applied module after module, as the loops of lines 194-211 do. *)
Fixpoint tower_channels (ms : list Layers.module) (c : Z) : result Z :=
  match ms with
  | [] => Ok c
  | m :: ms' => c' <- module_channels m c ;; tower_channels ms' c'
  end.

(** The block of modules that turn [i] of the loop appends to a tower. *)
Definition tower_block (args : Layers.layer_args) (i : Z) : list Layers.module :=
  let chn := if (i =? 0)%Z then Layers.in_channels args else Layers.feat_channels args in
  if negb (Layers.use_dcn args) then
    [Layers.ConvModule chn (Layers.feat_channels args) 3 1 1 (Layers.conv_cfg args)
       (Layers.norm_cfg args) (Layers.is_none (Layers.norm_cfg args))]
  else
    Layers.ModulatedDeformConvPack chn (Layers.feat_channels args) 3 1 1 1 1
    :: match Layers.norm_cfg args with
       | Some cfg => [Layers.NormLayer cfg (Layers.feat_channels args)]
       | None => []
       end ++ [Layers.ReLU true].

(** The distances drawn from one row of coefficients: the exponential of
    each entry of its inverse transform. *)
Definition exp_signal (X : cvec) : vec :=
  map (fun n => exp (irfft_entry X n)) (seq 0 (length X)).

(** A row of coefficients followed by [k] zero coefficients. *)
Definition zero_padded (k : Z) (row : cvec) : cvec := row ++ repeat (0, 0) (Z.to_nat k).

(** The [n, 2C] view of a mask prediction. *)
Definition flat_view (distances : mask_tensor) : mat :=
  match distances with
  | Rays t => t
  | Coeffs t => map (flat_map (fun z => [fst z; snd z])) t
  end.

(** ** A small head and a one-level batch, for the concrete checks *)

Definition example_head (uf bfm loc mnms : bool) : FourierNetHead :=
  {| use_fourier := uf;
     contour_points := 4;
     num_coe := 3;
     visulize_coe := 3;
     interval := 90;
     num_classes := 2;
     cls_out_channels := 1;
     strides := [8%Z];
     regress_ranges := [(-1, 100000000)];
     loss_on_coe := loc;
     mask_nms := mnms;
     bbox_from_mask := bfm;
     angles := map (fun a => IZR a / 180 * PI) [0; 90; 180; 270]%Z;
     centerness_factor := 1 / 2 |}.

Definition const3 (c h w : nat) (v : R) : tensor3 := Tensor3 (c, h, w) (fun _ _ _ => v).
Definition const4 (n c h w : nat) (v : R) : tensor4 :=
  Tensor4 (n, c, h, w) (fun _ _ _ _ => v).

(** A feature map of one row and three columns whose class logit grows with
    the column. *)
Definition ramp3 : tensor3 := Tensor3 (1, 1, 3)%nat (fun _ _ x => INR x).

Definition example_cfg (pre : option Z) : test_cfg unit :=
  {| nms_pre := pre; score_thr := 1 / 20; nms := tt; max_per_img := 100 |}.

Definition example_points : list (R * R) := [(4, 4); (12, 4); (20, 4)].

Definition example_extra_data : extra_data_t :=
  {| ed_labels := [[0; 0; 0]%Z];
     ed_bbox_targets := [[[0; 0; 0; 0]; [0; 0; 0; 0]; [0; 0; 0; 0]]];
     ed_mask_targets := [[[1; 1; 1; 1]; [1; 1; 1; 1]; [1; 1; 1; 1]]];
     ed_centerness_targets := [[0; 0; 0]] |}.

Definition example_level : level_preds :=
  {| lv_points := example_points;
     lv_bbox_pred := [[0; 0; 0; 0]; [0; 0; 0; 0]; [0; 0; 0; 0]];
     lv_mask_pred := [[0; 0; 0; 0]; [0; 0; 0; 0]; [0; 0; 0; 0]];
     lv_scores := [[sigmoid (INR 0)]; [sigmoid (INR 1)]; [sigmoid (INR 2)]];
     lv_centerness := [sigmoid 0; sigmoid 0; sigmoid 0] |}.

Definition example_distance2bbox (points : list (R * R)) (distance : mat)
    (max_shape : option (Z * Z)) : result mat := Ok distance.

Definition example_nms (boxes scores : mat) (masks : polygons) (thr : R) (cfg : unit)
    (max_num : Z) (score_factors : vec) : result (mat * list Z * polygons) :=
  Ok (boxes, [], masks).

Definition example_loss_cls (pred : mat) (target : list Z) (avg_factor : R) : R :=
  sum2 pred / avg_factor.
Definition example_loss_bbox (pred target : mat) (weight : vec) (avg_factor : R) : R :=
  sum2 pred - sum2 target.
Definition example_loss_mask (pred target : mask_tensor) (weight : option (vec * R)) : R :=
  sum_mask pred - sum_mask target.
Definition example_loss_centerness (pred target : vec) : R := sumR pred - sumR target.

(** A Fourier head that keeps three coefficients and draws from two. *)
Definition example_head_vis : FourierNetHead :=
  {| use_fourier := true;
     contour_points := 4;
     num_coe := 3;
     visulize_coe := 2;
     interval := 90;
     num_classes := 2;
     cls_out_channels := 1;
     strides := [8%Z];
     regress_ranges := [(-1, 100000000)];
     loss_on_coe := false;
     mask_nms := false;
     bbox_from_mask := false;
     angles := map (fun a => IZR a / 180 * PI) [0; 90; 180; 270]%Z;
     centerness_factor := 1 / 2 |}.

(** A head with two levels, and the targets of two images over a first level
    of two points and a second level of one point. *)
Definition example_head_two_levels : FourierNetHead :=
  {| use_fourier := true;
     contour_points := 4;
     num_coe := 3;
     visulize_coe := 3;
     interval := 90;
     num_classes := 2;
     cls_out_channels := 1;
     strides := [8%Z; 16%Z];
     regress_ranges := [(-1, 64); (64, 100000000)];
     loss_on_coe := false;
     mask_nms := false;
     bbox_from_mask := false;
     angles := map (fun a => IZR a / 180 * PI) [0; 90; 180; 270]%Z;
     centerness_factor := 1 / 2 |}.

Definition example_points_two_levels : list (list (R * R)) :=
  [[(4, 4); (12, 4)]; [(8, 8)]].

Definition example_extra_data_two_images : extra_data_t :=
  {| ed_labels := [[1; 0; 0]%Z; [0; 0; 1]%Z];
     ed_bbox_targets := [[[1; 1; 1; 1]; [0; 0; 0; 0]; [0; 0; 0; 0]];
                         [[0; 0; 0; 0]; [0; 0; 0; 0]; [2; 2; 2; 2]]];
     ed_mask_targets := [[[1; 2; 1; 2]; [1; 1; 1; 1]; [1; 1; 1; 1]];
                         [[1; 1; 1; 1]; [1; 1; 1; 1]; [3; 4; 3; 4]]];
     ed_centerness_targets := [[1; 0; 0]; [0; 0; 1]] |}.

(** * Properties *)

(** ** Generic facts about the error monad *)

Lemma mapM_total {A B : Type} (f : A -> result B) (g : A -> B) (l : list A) :
  Forall (fun a => f a = Ok (g a)) l -> mapM f l = Ok (map g l).
Proof.
  induction 1 as [|a l Ha _ IH]; simpl; [reflexivity|].
  rewrite Ha; simpl. rewrite IH; reflexivity.
Qed.

Lemma mapM_length {A B : Type} (f : A -> result B) (l : list A) (bs : list B) :
  mapM f l = Ok bs -> length bs = length l.
Proof.
  revert bs; induction l as [|a l IH]; simpl; intros bs H.
  - inversion H; reflexivity.
  - destruct (f a); simpl in H; [|discriminate].
    destruct (mapM f l); simpl in H; [|discriminate].
    inversion H; simpl; f_equal; apply IH; reflexivity.
Qed.

(** ** Centerness target *)

Lemma fold_min_spec (xs : vec) (x : R) :
  In (fold_left Rmin xs x) (x :: xs) /\
  forall d, In d (x :: xs) -> fold_left Rmin xs x <= d.
Proof.
  revert x; induction xs as [|y xs IH]; intros x; simpl.
  - split; [left; reflexivity|]. intros d [<-|[]]; lra.
  - destruct (IH (Rmin x y)) as [Hin Hle]. split.
    + destruct Hin as [Hin|Hin]; [|right; right; exact Hin].
      rewrite <- Hin. unfold Rmin. destruct (Rle_dec x y); [left|right; left]; reflexivity.
    + intros d [<-|[<-|Hd]].
      * eapply Rle_trans; [apply Hle; left; reflexivity|apply Rmin_l].
      * eapply Rle_trans; [apply Hle; left; reflexivity|apply Rmin_r].
      * apply Hle; right; exact Hd.
Qed.

Lemma fold_max_spec (xs : vec) (x : R) :
  In (fold_left Rmax xs x) (x :: xs) /\
  forall d, In d (x :: xs) -> d <= fold_left Rmax xs x.
Proof.
  revert x; induction xs as [|y xs IH]; intros x; simpl.
  - split; [left; reflexivity|]. intros d [<-|[]]; lra.
  - destruct (IH (Rmax x y)) as [Hin Hle]. split.
    + destruct Hin as [Hin|Hin]; [|right; right; exact Hin].
      rewrite <- Hin. unfold Rmax. destruct (Rle_dec x y); [right; left|left]; reflexivity.
    + intros d [<-|[<-|Hd]].
      * eapply Rle_trans; [apply Rmax_l|apply Hle; left; reflexivity].
      * eapply Rle_trans; [apply Rmax_r|apply Hle; left; reflexivity].
      * apply Hle; right; exact Hd.
Qed.

Lemma row_min_spec (row : vec) :
  row <> [] -> In (row_min row) row /\ forall d, In d row -> row_min row <= d.
Proof. destruct row as [|x xs]; [congruence|]. intros _. apply fold_min_spec. Qed.

Lemma row_max_spec (row : vec) :
  row <> [] -> In (row_max row) row /\ forall d, In d row -> d <= row_max row.
Proof. destruct row as [|x xs]; [congruence|]. intros _. apply fold_max_spec. Qed.

Lemma min_dim_total (t : mat) :
  Forall (fun row => row <> []) t -> min_dim t = Ok (map row_min t).
Proof.
  intros H. apply mapM_total. eapply Forall_impl; [|exact H].
  intros [|x xs] Hne; [congruence|reflexivity].
Qed.

Lemma max_dim_total (t : mat) :
  Forall (fun row => row <> []) t -> max_dim t = Ok (map row_max t).
Proof.
  intros H. apply mapM_total. eapply Forall_impl; [|exact H].
  intros [|x xs] Hne; [congruence|reflexivity].
Qed.

Lemma combine_map_same {A B C : Type} (f : A -> B) (g : A -> C) (l : list A) :
  combine (map f l) (map g l) = map (fun a => (f a, g a)) l.
Proof. induction l; simpl; [reflexivity|f_equal; assumption]. Qed.

Lemma polar_centerness_target_total (t : mat) :
  Forall (fun row => row <> []) t ->
  polar_centerness_target t = Ok (map (fun row => sqrt (row_min row / row_max row)) t).
Proof.
  intros H. unfold polar_centerness_target.
  rewrite (min_dim_total t H), (max_dim_total t H); simpl.
  rewrite combine_map_same, !map_map. reflexivity.
Qed.

Lemma sqrt_ratio_bounds (m M : R) :
  0 < m -> m <= M -> 0 <= sqrt (m / M) <= 1 /\ (sqrt (m / M) = 1 <-> m = M).
Proof.
  intros Hm HmM.
  assert (HM : 0 < M) by lra.
  assert (Hq0 : 0 < m / M) by (apply Rdiv_lt_0_compat; assumption).
  assert (Hq1 : m / M <= 1).
  { apply (Rmult_le_reg_r M); [exact HM|]. field_simplify; lra. }
  split; [split|split].
  - apply sqrt_pos.
  - rewrite <- sqrt_1. apply sqrt_le_1; lra.
  - intros Hs.
    assert (Hq : m / M = 1).
    { rewrite <- (sqrt_def (m / M)) by lra. rewrite Hs. lra. }
    apply (Rmult_eq_compat_r M) in Hq. field_simplify in Hq; lra.
  - intros ->. replace (M / M) with 1 by (field; lra). apply sqrt_1.
Qed.

(** C1.  For every tensor of ray-distance target vectors with K >= 1 strictly
    positive entries each, [polar_centerness_target] returns, for each vector,
    the square root of its minimum entry divided by its maximum entry; the
    value lies in [0, 1] and equals 1 exactly when all entries of the vector
    are equal. *)
Theorem polar_centerness_target_spec (pos_mask_targets : mat) :
  Forall (fun row => row <> [] /\ Forall (fun d => 0 < d) row) pos_mask_targets ->
  exists cs,
    polar_centerness_target pos_mask_targets = Ok cs /\
    Forall2 (fun row c =>
      exists m M,
        In m row /\ In M row /\ (forall d, In d row -> m <= d <= M) /\
        c = sqrt (m / M) /\ 0 <= c <= 1 /\ (c = 1 <-> all_equal row))
      pos_mask_targets cs.
Proof.
  intros H.
  exists (map (fun row => sqrt (row_min row / row_max row)) pos_mask_targets).
  split.
  - apply polar_centerness_target_total. eapply Forall_impl; [|exact H].
    intros row [Hne _]; exact Hne.
  - induction H as [|row t [Hne Hpos] _ IH]; simpl; constructor; [|exact IH].
    destruct (row_min_spec row Hne) as [Hmin_in Hmin_le].
    destruct (row_max_spec row Hne) as [Hmax_in Hmax_le].
    exists (row_min row), (row_max row).
    assert (Hm : 0 < row_min row)
      by (rewrite Forall_forall in Hpos; apply Hpos; exact Hmin_in).
    assert (HmM : row_min row <= row_max row) by (apply Hmin_le; exact Hmax_in).
    destruct (sqrt_ratio_bounds _ _ Hm HmM) as [Hb Heq].
    split; [exact Hmin_in|]. split; [exact Hmax_in|].
    split; [intros d Hd; split; [apply Hmin_le|apply Hmax_le]; exact Hd|].
    split; [reflexivity|]. split; [exact Hb|]. split.
    + intros Hc x y Hx Hy. apply Heq in Hc.
      pose proof (Hmin_le x Hx). pose proof (Hmax_le x Hx).
      pose proof (Hmin_le y Hy). pose proof (Hmax_le y Hy). lra.
    + intros Hall. apply Heq. apply Hall; assumption.
Qed.

Lemma polar_centerness_target_spec_witness :
  exists cs,
    polar_centerness_target [[4; 1; 2]; [3; 3]] = Ok cs /\
    Forall2 (fun row c =>
      exists m M,
        In m row /\ In M row /\ (forall d, In d row -> m <= d <= M) /\
        c = sqrt (m / M) /\ 0 <= c <= 1 /\ (c = 1 <-> all_equal row))
      [[4; 1; 2]; [3; 3]] cs.
Proof.
  apply (polar_centerness_target_spec [[4; 1; 2]; [3; 3]]).
  repeat constructor; try discriminate; lra.
Defined.

(** ** Point grid *)

Lemma arange_stride (n : nat) (s : Z) :
  s <> 0%Z ->
  arange 0 (Z.of_nat n * s) s = Ok (map (fun i => (Z.of_nat i * s)%Z) (seq 0 n)).
Proof.
  intros Hs. unfold arange.
  destruct (Z.eqb_spec s 0) as [E|_]; [contradiction|].
  assert (Hbad : bad_step 0 (Z.of_nat n * s) s = false).
  { unfold bad_step. apply orb_false_iff; split; apply andb_false_iff.
    - destruct (Z.ltb_spec 0 s); [right|left; reflexivity].
      apply Z.ltb_ge. nia.
    - destruct (Z.ltb_spec s 0); [right|left; reflexivity].
      apply Z.ltb_ge. nia. }
  rewrite Hbad. unfold steps, ceil_div. f_equal.
  replace (- (Z.of_nat n * s - 0))%Z with ((- Z.of_nat n) * s)%Z by ring.
  rewrite Z.div_mul by exact Hs.
  rewrite Z.opp_involutive, Nat2Z.id. reflexivity.
Qed.

Lemma meshgrid_points {A : Type} (ys xs : list A) :
  combine (flatten (snd (meshgrid ys xs))) (flatten (fst (meshgrid ys xs)))
  = flat_map (fun y => map (fun x => (x, y)) xs) ys.
Proof.
  unfold meshgrid, flatten; simpl. induction ys as [|y ys IH]; simpl; [reflexivity|].
  rewrite <- IH. clear IH.
  generalize (concat (map (fun _ : A => xs) ys))
             (concat (map (fun y0 : A => repeat y0 (length xs)) ys)).
  induction xs as [|x xs IHx]; intros l1 l2; simpl; [reflexivity|].
  f_equal. apply IHx.
Qed.

Lemma nth_error_blocks {A B : Type} (f : A -> list B) (w : nat) (l : list A)
    (i j : nat) (a : A) :
  (forall a, length (f a) = w) -> (j < w)%nat -> nth_error l i = Some a ->
  nth_error (flat_map f l) (i * w + j) = nth_error (f a) j.
Proof.
  intros Hlen Hj. revert i. induction l as [|a0 l IH]; intros i Hi.
  - destruct i; discriminate.
  - destruct i as [|i]; simpl in *.
    + inversion Hi; subst. rewrite nth_error_app1 by (rewrite Hlen; exact Hj).
      reflexivity.
    + rewrite nth_error_app2 by (rewrite Hlen; lia).
      rewrite Hlen. replace (w + i * w + j - w)%nat with (i * w + j)%nat by lia.
      apply IH; exact Hi.
Qed.

Lemma length_blocks {A B : Type} (f : A -> list B) (w : nat) (l : list A) :
  (forall a, length (f a) = w) -> length (flat_map f l) = (length l * w)%nat.
Proof.
  intros Hlen. induction l as [|a l IH]; simpl; [reflexivity|].
  rewrite length_app, Hlen, IH. reflexivity.
Qed.

Lemma nth_error_map_seq {A : Type} (f : nat -> A) (n i : nat) :
  (i < n)%nat -> nth_error (map f (seq 0 n)) i = Some (f i).
Proof.
  intros Hi. rewrite nth_error_map, nth_error_seq.
  destruct (Nat.ltb_spec i n); [reflexivity|lia].
Qed.

Lemma get_points_single_grid (h w : nat) (s : Z) :
  s <> 0%Z ->
  get_points_single (h, w) s
  = Ok (flat_map (fun row => map (fun col =>
          (IZR (Z.of_nat col * s) + IZR (s / 2), IZR (Z.of_nat row * s) + IZR (s / 2)))
          (seq 0 w)) (seq 0 h)).
Proof.
  intros Hs. unfold get_points_single.
  rewrite !arange_stride by exact Hs. cbv [bind].
  pose proof (meshgrid_points (map (fun i => (Z.of_nat i * s)%Z) (seq 0 h))
                              (map (fun i => (Z.of_nat i * s)%Z) (seq 0 w))) as Hm.
  destruct (meshgrid _ _) as [y x]. cbv [fst snd] in Hm. rewrite Hm. f_equal.
  rewrite !flat_map_concat_map, concat_map, !map_map.
  f_equal. apply map_ext. intros row. rewrite !map_map. reflexivity.
Qed.

(** C5 (amended).  For every feature map of height h and width w and every
    stride s other than zero, [get_points_single] returns exactly h * w points
    without an error, also when h = 0 or w = 0 (no points then); the point of
    (row, col) sits at index row * w + col and has the coordinates
    (s * col + s // 2, s * row + s // 2), with the floor division of the code. *)
Theorem get_points_single_spec (h w : nat) (s : Z) :
  s <> 0%Z ->
  exists points,
    get_points_single (h, w) s = Ok points /\
    length points = (h * w)%nat /\
    forall row col, (row < h)%nat -> (col < w)%nat ->
      nth_error points (row * w + col)
      = Some (IZR (s * Z.of_nat col + s / 2), IZR (s * Z.of_nat row + s / 2)).
Proof.
  intros Hs. eexists. split; [apply get_points_single_grid; exact Hs|]. split.
  - rewrite (length_blocks _ w) by (intros; rewrite length_map, length_seq; reflexivity).
    rewrite length_seq. reflexivity.
  - intros row col Hrow Hcol.
    rewrite (nth_error_blocks _ w _ row col row).
    + rewrite nth_error_map_seq by exact Hcol. rewrite <- !plus_IZR.
      do 2 f_equal; f_equal; ring.
    + intros; rewrite length_map, length_seq; reflexivity.
    + exact Hcol.
    + rewrite nth_error_seq. destruct (Nat.ltb_spec row h); [reflexivity|lia].
Qed.

Lemma get_points_single_spec_witness :
  exists points,
    get_points_single (2%nat, 3%nat) 8 = Ok points /\
    length points = (2 * 3)%nat /\
    forall row col, (row < 2)%nat -> (col < 3)%nat ->
      nth_error points (row * 3 + col)
      = Some (IZR (8 * Z.of_nat col + 8 / 2), IZR (8 * Z.of_nat row + 8 / 2)).
Proof. apply (get_points_single_spec 2 3 8). lia. Defined.

(** The only error of [get_points_single] is a stride of zero. *)
Lemma get_points_single_raises (h w : nat) (s : Z) :
  raised (get_points_single (h, w) s) <-> s = 0%Z.
Proof.
  split.
  - intros [e He]. destruct (Z.eq_dec s 0) as [|Hs]; [assumption|].
    rewrite get_points_single_grid in He by exact Hs. discriminate.
  - intros ->. eexists. reflexivity.
Qed.

(** C5, as stated, fails: a level of height 0 and width 5 at stride 4 yields
    the empty point set and no error. *)
Lemma get_points_single_degenerate_no_error :
  get_points_single (0%nat, 5%nat) 4 = Ok [] /\
  ~ (raised (get_points_single (0%nat, 5%nat) 4) <-> (0 = 0 \/ 5 = 0)%nat).
Proof.
  assert (E : get_points_single (0%nat, 5%nat) 4 = Ok []) by reflexivity.
  split; [exact E|]. intros [_ H].
  destruct (H (or_introl eq_refl)) as [e He]. rewrite E in He. discriminate.
Qed.

(** ** Angle table *)

Lemma range_table (K : Z) :
  (0 < K)%Z -> (360 mod K = 0)%Z ->
  range 0 359 (360 / K)
  = Ok (map (fun i => (Z.of_nat i * (360 / K))%Z) (seq 0 (Z.to_nat K))).
Proof.
  intros HK Hmod.
  assert (E : (360 = K * (360 / K))%Z) by (apply Z.div_exact; lia).
  assert (Hi : (0 < 360 / K)%Z) by nia.
  unfold range.
  destruct (Z.eqb_spec (360 / K) 0) as [E0|_]; [lia|].
  assert (Hbad : bad_step 0 359 (360 / K) = false).
  { unfold bad_step. apply orb_false_iff; split; apply andb_false_iff.
    - right; reflexivity.
    - left. apply Z.ltb_ge. lia. }
  rewrite Hbad. unfold steps. f_equal.
  replace ((359 - 0) / (360 / K) + 1)%Z with K; [reflexivity|].
  assert (Hq : ((359 - 0) / (360 / K) = K - 1)%Z).
  { symmetry. apply (Z.div_unique _ _ _ (360 / K - 1)); [left|]; nia. }
  lia.
Qed.

Lemma init_table (num_classes : Z) (strides : list Z) (regress_ranges : list (R * R))
    (mask_nms bbox_from_mask loss_on_coe : bool) (K : Z) (use_fourier : bool)
    (num_coe visulize_coe : Z) (centerness_factor : R) :
  (0 < K)%Z -> (360 mod K = 0)%Z ->
  exists self,
    __init__ num_classes strides regress_ranges mask_nms bbox_from_mask loss_on_coe
             K use_fourier num_coe visulize_coe centerness_factor = Ok self /\
    contour_points self = K /\
    angles self = map (fun i => IZR (Z.of_nat i * (360 / K)) / 180 * PI)
                      (seq 0 (Z.to_nat K)).
Proof.
  intros HK Hmod. unfold __init__, floordiv.
  destruct (Z.eqb_spec K 0) as [E|_]; [lia|]. cbv [bind].
  rewrite range_table by assumption.
  eexists. split; [reflexivity|]. split; [reflexivity|]. simpl.
  rewrite map_map. reflexivity.
Qed.

Lemma decode_trig_calls (self : FourierNetHead) (points : list (R * R))
    (distances : mask_tensor) (max_shape : option (Z * Z)) (train : bool)
    (bbox : option mat) (d : mat) :
  decode_distances self train distances = Ok d ->
  fst (distance2mask_traced self points distances max_shape train bbox)
  = [CallSin (angles self); CallCos (angles self)].
Proof. intros H. unfold distance2mask_traced. rewrite H. reflexivity. Qed.

(** C6 (amended).  For every contour_points value K that divides 360, the
    constructor succeeds and fixes a table of exactly K angles, the i-th being
    i * (360 / K) degrees (stored in radians).  The head stores the angles and
    not their sines and cosines: every call of the decode operation that gets
    as far as the polygon evaluates the sine and the cosine of that same
    table once more. *)
Theorem angle_table_spec (num_classes : Z) (strides : list Z)
    (regress_ranges : list (R * R)) (mask_nms bbox_from_mask loss_on_coe : bool)
    (K : Z) (use_fourier : bool) (num_coe visulize_coe : Z) (centerness_factor : R) :
  (0 < K)%Z -> (360 mod K = 0)%Z ->
  exists self,
    __init__ num_classes strides regress_ranges mask_nms bbox_from_mask loss_on_coe
             K use_fourier num_coe visulize_coe centerness_factor = Ok self /\
    length (angles self) = Z.to_nat K /\
    (forall i, (i < Z.to_nat K)%nat ->
       nth_error (angles self) i = Some (IZR (Z.of_nat i * (360 / K)) / 180 * PI)) /\
    (forall points distances max_shape train bbox d,
       decode_distances self train distances = Ok d ->
       fst (distance2mask_traced self points distances max_shape train bbox)
       = [CallSin (angles self); CallCos (angles self)]).
Proof.
  intros HK Hmod.
  destruct (init_table num_classes strides regress_ranges mask_nms bbox_from_mask
              loss_on_coe K use_fourier num_coe visulize_coe centerness_factor HK Hmod)
    as (self & Hinit & _ & Hang).
  exists self. split; [exact Hinit|]. rewrite Hang. split; [|split].
  - rewrite length_map, length_seq. reflexivity.
  - intros i Hi. apply (nth_error_map_seq (fun i => IZR (Z.of_nat i * (360 / K)) / 180 * PI)).
    exact Hi.
  - intros points distances max_shape train bbox d Hd.
    rewrite <- Hang. eapply decode_trig_calls; exact Hd.
Qed.

Lemma angle_table_spec_witness :
  exists self,
    __init__ 81 [8; 16; 32; 64; 128]%Z [] false false false 36 false 36 36 (1 / 2)
      = Ok self /\
    length (angles self) = Z.to_nat 36 /\
    (forall i, (i < Z.to_nat 36)%nat ->
       nth_error (angles self) i = Some (IZR (Z.of_nat i * (360 / 36)) / 180 * PI)) /\
    (forall points distances max_shape train bbox d,
       decode_distances self train distances = Ok d ->
       fst (distance2mask_traced self points distances max_shape train bbox)
       = [CallSin (angles self); CallCos (angles self)]).
Proof.
  apply (angle_table_spec 81 [8; 16; 32; 64; 128]%Z [] false false false 36 false
           36 36 (1 / 2)); [lia|reflexivity].
Defined.

(** C6, as stated, fails twice over.  With contour_points = 7 the table has 8
    angles, 51 degrees apart; and a head built with contour_points = 4
    evaluates the sine and the cosine of its table during a decode call. *)
Lemma angle_table_counterexample :
  (exists self,
     __init__ 81 [8]%Z [] false false false 7 false 36 36 (1 / 2) = Ok self /\
     length (angles self) = 8%nat /\
     nth_error (angles self) 1 = Some (51 / 180 * PI)) /\
  (exists self,
     __init__ 81 [8]%Z [] false false false 4 false 36 36 (1 / 2) = Ok self /\
     fst (distance2mask_traced self [(0, 0)] (Rays [[1; 1; 1; 1]]) None false None)
     = [CallSin (angles self); CallCos (angles self)] /\
     fst (distance2mask_traced self [(0, 0)] (Rays [[1; 1; 1; 1]]) None false None)
     <> []).
Proof.
  split.
  - eexists. split; [reflexivity|]. split; reflexivity.
  - eexists. split; [reflexivity|]. split; [reflexivity|]. discriminate.
Qed.

(** ** Top-k pre-filtering *)

Lemma Rleb_true (x y : R) : Rleb x y = true <-> x <= y.
Proof. unfold Rleb. destruct (Rle_dec x y); split; intros; congruence || assumption. Qed.

Lemma insert_desc_perm (p : R * nat) (l : list (R * nat)) :
  Permutation (p :: l) (insert_desc p l).
Proof.
  induction l as [|q l IH]; simpl; [reflexivity|].
  destruct (Rleb (fst q) (fst p)); [reflexivity|].
  rewrite perm_swap. constructor. exact IH.
Qed.

Lemma insert_desc_sorted (p : R * nat) (l : list (R * nat)) :
  StronglySorted desc l -> StronglySorted desc (insert_desc p l).
Proof.
  induction 1 as [|q l Hs IH Hq]; simpl.
  - constructor; constructor.
  - destruct (Rleb (fst q) (fst p)) eqn:E.
    + apply Rleb_true in E. constructor; [constructor; assumption|].
      constructor; [exact E|].
      eapply Forall_impl; [|exact Hq]. unfold desc; intros r Hr; lra.
    + assert (Hlt : fst p < fst q).
      { destruct (Rle_dec (fst q) (fst p)) as [H|H]; [|lra].
        apply Rleb_true in H. congruence. }
      constructor; [exact IH|].
      eapply Permutation_Forall; [apply insert_desc_perm|].
      constructor; [unfold desc; lra|exact Hq].
Qed.

Lemma sort_desc_perm (l : list (R * nat)) : Permutation l (sort_desc l).
Proof.
  induction l as [|p l IH]; simpl; [reflexivity|].
  etransitivity; [|apply insert_desc_perm]. constructor. exact IH.
Qed.

Lemma sort_desc_sorted (l : list (R * nat)) : StronglySorted desc (sort_desc l).
Proof.
  induction l as [|p l IH]; simpl; [constructor|].
  apply insert_desc_sorted. exact IH.
Qed.

Lemma sorted_firstn_skipn {A : Type} (rel : A -> A -> Prop) (l : list A) (k : nat) :
  StronglySorted rel l ->
  forall a b, In a (firstn k l) -> In b (skipn k l) -> rel a b.
Proof.
  intros Hs. revert k. induction Hs as [|x l Hs IH Hx]; intros k a b Ha Hb.
  - rewrite firstn_nil in Ha. contradiction.
  - destruct k as [|k]; simpl in *; [contradiction|].
    destruct Ha as [<-|Ha].
    + rewrite Forall_forall in Hx. apply Hx.
      rewrite <- (firstn_skipn k l). apply in_or_app. right. exact Hb.
    + eapply IH; eassumption.
Qed.

Lemma in_combine_seq (v : vec) (x : R) (i : nat) :
  In (x, i) (combine v (seq 0 (length v))) <-> (i < length v)%nat /\ nth i v 0 = x.
Proof.
  assert (G : forall (v : vec) s x i,
             In (x, i) (combine v (seq s (length v)))
             <-> (s <= i < s + length v)%nat /\ nth (i - s) v 0 = x).
  { clear. induction v as [|y v IH]; intros s x i; simpl.
    - split; [contradiction|lia].
    - rewrite IH. split.
      + intros [H|[H1 H2]].
        * inversion H; subst. rewrite Nat.sub_diag. split; [lia|reflexivity].
        * split; [lia|]. destruct (i - s)%nat as [|m] eqn:E; [lia|].
          replace (i - S s)%nat with m in H2 by lia. exact H2.
      + intros [H1 H2]. destruct (i - s)%nat as [|m] eqn:E.
        * left. f_equal; [exact H2|lia].
        * right. split; [lia|]. replace (i - S s)%nat with m by lia. exact H2. }
  rewrite G. rewrite Nat.sub_0_r. split; intros [H1 H2]; (split; [lia|exact H2]).
Qed.

Lemma map_snd_combine_seq (v : vec) :
  map snd (combine v (seq 0 (length v))) = seq 0 (length v).
Proof.
  generalize 0%nat. induction v as [|x v IH]; intros s; simpl; [reflexivity|].
  f_equal. apply IH.
Qed.

(** What [topk] returns: [k] distinct valid indices whose entries are at least
    as large as every entry left out. *)
Lemma topk_spec (k : nat) (v : vec) :
  (k <= length v)%nat ->
  exists vals inds,
    topk k v = Ok (vals, inds) /\
    length inds = k /\ NoDup inds /\
    (forall i, In i inds -> (i < length v)%nat) /\
    (forall i j, In i inds -> (j < length v)%nat -> ~ In j inds ->
       nth j v 0 <= nth i v 0).
Proof.
  intros Hk. unfold topk.
  destruct (Nat.leb_spec k (length v)) as [_|H]; [|lia].
  set (sorted := sort_desc (combine v (seq 0 (length v)))).
  assert (Hperm : Permutation (combine v (seq 0 (length v))) sorted)
    by apply sort_desc_perm.
  assert (Hsorted : StronglySorted desc sorted) by apply sort_desc_sorted.
  assert (Hlen : length sorted = length v).
  { rewrite <- (Permutation_length Hperm), length_combine, length_seq. lia. }
  assert (Hnd : NoDup (map snd sorted)).
  { eapply Permutation_NoDup; [apply Permutation_map; exact Hperm|].
    rewrite map_snd_combine_seq. apply seq_NoDup. }
  assert (Hin : forall x i, In (x, i) sorted <-> (i < length v)%nat /\ nth i v 0 = x).
  { intros x i. rewrite <- in_combine_seq. split; apply Permutation_in;
      [symmetry|]; exact Hperm. }
  eexists _, _. split; [reflexivity|]. split; [|split; [|split]].
  - rewrite length_map, length_firstn. lia.
  - rewrite <- (firstn_skipn k sorted), map_app in Hnd.
    apply NoDup_app_remove_r in Hnd. exact Hnd.
  - intros i Hi. apply in_map_iff in Hi. destruct Hi as ([x i'] & <- & Hi).
    apply (Hin x i'). rewrite <- (firstn_skipn k sorted). apply in_or_app. left. exact Hi.
  - intros i j Hi Hj Hnj.
    apply in_map_iff in Hi. destruct Hi as ([x i'] & Hi' & Hi). simpl in Hi'; subst i'.
    assert (Hx : nth i v 0 = x).
    { apply (Hin x i). rewrite <- (firstn_skipn k sorted). apply in_or_app. left. exact Hi. }
    assert (Hjs : In (nth j v 0, j) (skipn k sorted)).
    { assert (Hj' : In (nth j v 0, j) sorted) by (apply Hin; split; [exact Hj|reflexivity]).
      rewrite <- (firstn_skipn k sorted) in Hj'. apply in_app_or in Hj'.
      destruct Hj' as [Hj'|Hj']; [|exact Hj'].
      exfalso. apply Hnj. apply in_map_iff. exists (nth j v 0, j). split; [reflexivity|exact Hj']. }
    pose proof (sorted_firstn_skipn desc sorted k Hsorted _ _ Hi Hjs) as Hd.
    unfold desc in Hd; simpl in Hd. rewrite Hx. exact Hd.
Qed.

Lemma sigmoid_pos (x : R) : 0 < sigmoid x.
Proof.
  unfold sigmoid. pose proof (exp_pos (- x)).
  apply Rdiv_lt_0_compat; lra.
Qed.

Lemma mapM_pure {A B : Type} (g : A -> B) (l : list A) :
  mapM (fun a => Ok (g a)) l = Ok (map g l).
Proof. apply mapM_total. apply Forall_forall. reflexivity. Qed.

Lemma bcast1_scale (row : vec) (c : R) :
  bcast1 Rmult row [c] = Ok (map (fun x => x * c) row).
Proof.
  unfold bcast1, bcastM. destruct row as [|x [|y row]]; try reflexivity.
  simpl length. cbv [Nat.eqb]. apply (mapM_pure (fun x => x * c)).
Qed.

Lemma zipM_scale (scores : mat) (centerness : vec) :
  length scores = length centerness ->
  zipM (bcast1 Rmult) scores (map (fun c => [c]) centerness)
  = Ok (map (fun p => map (fun x => x * snd p) (fst p)) (combine scores centerness)).
Proof.
  revert centerness. induction scores as [|row scores IH]; intros [|c cs] H;
    simpl in *; try reflexivity; try discriminate.
  rewrite bcast1_scale; simpl. rewrite IH by lia. reflexivity.
Qed.

Lemma fold_max_scale (c : R) (xs : vec) (x : R) :
  0 <= c ->
  fold_left Rmax (map (fun v => v * c) xs) (x * c) = fold_left Rmax xs x * c.
Proof.
  intros Hc. revert x. induction xs as [|y xs IH]; intros x; simpl; [reflexivity|].
  rewrite <- IH. f_equal.
  rewrite (Rmult_comm x), (Rmult_comm y), (Rmult_comm (Rmax x y)).
  apply RmaxRmult. exact Hc.
Qed.

Lemma fused_scores_total (scores : mat) (centerness : vec) :
  length scores = length centerness ->
  Forall (fun row => row <> []) scores ->
  Forall (fun c => 0 <= c) centerness ->
  fused_scores scores centerness
  = Ok (map (fun p => row_max (fst p) * snd p) (combine scores centerness)).
Proof.
  intros Hlen Hne Hpos. unfold fused_scores, bcast2, bcastM.
  rewrite length_map, Hlen, Nat.eqb_refl, zipM_scale by exact Hlen. cbv [bind].
  unfold max_dim. rewrite (mapM_total _ row_max).
  - rewrite map_map. f_equal.
    clear Hlen. revert centerness Hpos.
    induction Hne as [|row scores Hrow _ IH]; intros [|c cs] Hpos; simpl; try reflexivity.
    inversion Hpos; subst. f_equal; [|apply IH; assumption].
    destruct row as [|x xs]; [congruence|]. unfold row_max; simpl.
    apply fold_max_scale; assumption.
  - apply Forall_forall. intros r Hr. apply in_map_iff in Hr.
    destruct Hr as ([row c] & <- & Hin). simpl.
    apply in_combine_l in Hin. rewrite Forall_forall in Hne.
    specialize (Hne row Hin). destruct row; [congruence|reflexivity].
Qed.

Lemma nth_combine_map {A B C : Type} (f : A * B -> C) (l1 : list A) (l2 : list B)
    (i : nat) (a : A) (b : B) (c : C) :
  (i < length l1)%nat -> length l1 = length l2 ->
  nth i (map f (combine l1 l2)) c = f (nth i l1 a, nth i l2 b).
Proof.
  revert l2 i. induction l1 as [|x l1 IH]; intros [|y l2] i Hi Hlen; simpl in *;
    try lia.
  destruct i as [|i]; [reflexivity|]. apply IH; lia.
Qed.

Lemma index_rows_total {A : Type} (t : list A) (inds : list nat) (d : A) :
  (forall i, In i inds -> (i < length t)%nat) ->
  index_rows t inds = Ok (map (fun i => nth i t d) inds).
Proof.
  intros H. unfold index_rows. apply mapM_total. apply Forall_forall.
  intros i Hi. specialize (H i Hi).
  destruct (nth_error t i) as [a|] eqn:E.
  - f_equal. symmetry. apply nth_error_nth. exact E.
  - apply nth_error_None in E. lia.
Qed.

Lemma chunks_fuel_nonempty {A : Type} (fuel k : nat) (l : list A) :
  (0 < k)%nat -> Forall (fun row => row <> []) (chunks_fuel fuel k l).
Proof.
  intros Hk. revert l. induction fuel as [|fuel IH]; intros l; simpl; [constructor|].
  destruct l as [|a l]; [constructor|]. constructor; [|apply IH].
  destruct k; [lia|]. simpl. discriminate.
Qed.

Lemma reshape_rows_nonempty {A : Type} (k : Z) (flat : list A) (rows : list (list A)) :
  reshape_rows k flat = Ok rows -> Forall (fun row => row <> []) rows.
Proof.
  unfold reshape_rows. destruct (Z.leb_spec k 0); [discriminate|].
  destruct (Nat.eqb _ 0); [|discriminate]. intros Hr; inversion Hr.
  apply chunks_fuel_nonempty. lia.
Qed.

Lemma flatten_level_scores (self : FourierNetHead) (cls_score bbox_pred mask_pred
    centerness : tensor3) (points : list (R * R)) (lv : level_preds) :
  flatten_level self cls_score bbox_pred mask_pred centerness points = Ok lv ->
  Forall (fun row => row <> []) (lv_scores lv) /\
  Forall (fun c => 0 <= c) (lv_centerness lv).
Proof.
  unfold flatten_level. destruct (assert _); [|discriminate]. cbv [bind].
  destruct (reshape_rows (cls_out_channels self) _) as [rows|] eqn:E; [|discriminate].
  destruct (reshape_rows 4 _); [|discriminate].
  destruct (reshape_rows _ (permute_flat3 mask_pred)); [|discriminate].
  intros H; inversion H; subst; simpl. split.
  - apply reshape_rows_nonempty in E. apply Forall_map.
    eapply Forall_impl; [|exact E]. intros [|x row] Hr; [congruence|discriminate].
  - apply Forall_map. apply Forall_forall. intros x _. left. apply sigmoid_pos.
Qed.

(** C4.  For a level flattened by [get_bboxes_single] (one row per point in
    every tensor): when 0 < nms_pre < number of points, the pre-filter keeps
    exactly nms_pre distinct points, and every kept point has a fused score
    max(class score) * centerness at least as high as every dropped point;
    otherwise the level passes through unchanged. *)
Theorem prefilter_topk {nms_cfg : Type} (self : FourierNetHead) (cfg : test_cfg nms_cfg)
    (cls_score bbox_pred mask_pred centerness : tensor3) (points : list (R * R))
    (lv : level_preds) :
  flatten_level self cls_score bbox_pred mask_pred centerness points = Ok lv ->
  length (lv_points lv) = length (lv_scores lv) ->
  length (lv_bbox_pred lv) = length (lv_scores lv) ->
  length (lv_mask_pred lv) = length (lv_scores lv) ->
  length (lv_centerness lv) = length (lv_scores lv) ->
  ((0 < cfg_get_nms_pre cfg < Z.of_nat (length (lv_scores lv)))%Z ->
   exists inds,
     prefilter cfg lv = Ok (select_level inds lv) /\
     length (lv_points (select_level inds lv)) = Z.to_nat (cfg_get_nms_pre cfg) /\
     length inds = Z.to_nat (cfg_get_nms_pre cfg) /\
     NoDup inds /\
     (forall i, In i inds -> (i < length (lv_scores lv))%nat) /\
     (forall i j, In i inds -> (j < length (lv_scores lv))%nat -> ~ In j inds ->
        fused_score lv j <= fused_score lv i)) /\
  (~ (0 < cfg_get_nms_pre cfg < Z.of_nat (length (lv_scores lv)))%Z ->
   prefilter cfg lv = Ok lv).
Proof.
  intros Hflat Hp Hb Hm Hc.
  destruct (flatten_level_scores _ _ _ _ _ _ _ Hflat) as [Hne Hpos].
  unfold prefilter. split.
  - intros [H0 Hn].
    assert (Hcond : ((0 <? cfg_get_nms_pre cfg)%Z
                     && (cfg_get_nms_pre cfg <? Z.of_nat (length (lv_scores lv)))%Z)%bool
                    = true).
    { apply andb_true_iff; split; apply Z.ltb_lt; assumption. }
    rewrite Hcond. rewrite fused_scores_total by (auto; lia).
    set (v := map (fun p => row_max (fst p) * snd p)
                  (combine (lv_scores lv) (lv_centerness lv))).
    assert (Hv : length v = length (lv_scores lv)).
    { unfold v. rewrite length_map, length_combine. lia. }
    destruct (topk_spec (Z.to_nat (cfg_get_nms_pre cfg)) v) as
      (vals & inds & Htop & Hlen & Hnd & Hlt & Hord); [lia|].
    rewrite Hv in Hlt, Hord.
    exists inds. cbv [bind]. rewrite Htop.
    rewrite (index_rows_total _ _ (0, 0)) by (intros i Hi; rewrite Hp; auto).
    rewrite (index_rows_total (lv_bbox_pred lv) _ []) by (intros i Hi; rewrite Hb; auto).
    rewrite (index_rows_total (lv_mask_pred lv) _ []) by (intros i Hi; rewrite Hm; auto).
    rewrite (index_rows_total (lv_scores lv) _ []) by auto.
    rewrite (index_rows_total (lv_centerness lv) _ 0) by (intros i Hi; rewrite Hc; auto).
    split; [reflexivity|]. split; [simpl; rewrite length_map; exact Hlen|].
    split; [exact Hlen|]. split; [exact Hnd|]. split; [exact Hlt|].
    intros i j Hi Hj Hnj. specialize (Hord i j Hi Hj Hnj).
    unfold v in Hord.
    rewrite (nth_combine_map (fun p : vec * R => row_max (fst p) * snd p)
               (lv_scores lv) (lv_centerness lv) j [] 0 0) in Hord by (auto; lia).
    rewrite (nth_combine_map (fun p : vec * R => row_max (fst p) * snd p)
               (lv_scores lv) (lv_centerness lv) i [] 0 0) in Hord by (auto; lia).
    exact Hord.
  - intros Hnot.
    destruct (andb _ _) eqn:E; [|reflexivity].
    apply andb_true_iff in E. destruct E as [E1 E2].
    apply Z.ltb_lt in E1, E2. exfalso. apply Hnot. split; assumption.
Qed.

(** ** Unassigned locals *)

(** Splitting a chain of binds that ended in [Ok]. *)
Ltac bind_inv H :=
  cbv beta delta [bind] in H;
  repeat match goal with
         | H' : match ?m with Ok _ => _ | Raise _ => _ end = Ok _ |- _ =>
             destruct m eqn:?; [|discriminate H']
         | H' : match ?x with pair _ _ => _ end = Ok _ |- _ => destruct x
         | H' : Ok _ = Ok _ |- _ => inversion H'; subst; clear H'
         end.

Lemma raised_bind {A B : Type} (m : result A) (k : A -> result B) :
  (forall a, m = Ok a -> raised (k a)) -> raised (bind m k).
Proof.
  intros H. destruct m as [a|e]; simpl; [apply H; reflexivity|].
  exists e; reflexivity.
Qed.

Section Inference.

Context {nms_cfg : Type}.
Variable distance2bbox : list (R * R) -> mat -> option (Z * Z) -> result mat.
Variable multiclass_nms_with_mask :
  mat -> mat -> polygons -> R -> nms_cfg -> Z -> vec ->
  result (mat * list Z * polygons).

Lemma gather_levels_not_rescaled (self : FourierNetHead)
    (cls_scores bbox_preds mask_preds centernesses : list tensor3)
    (mlvl_points : list (list (R * R))) (img_shape : Z * Z)
    (scale_factor : scale_factor_t) (cfg : test_cfg nms_cfg) (rescale : option bool)
    (g : gathered) :
  truthy rescale = false ->
  gather_levels nms_cfg distance2bbox self cls_scores bbox_preds mask_preds
    centernesses mlvl_points img_shape scale_factor cfg rescale = Ok g ->
  _mlvl_bboxes g = None /\ _mlvl_masks g = None.
Proof.
  intros Hr H. unfold gather_levels in H. rewrite Hr in H.
  bind_inv H. simpl. split; reflexivity.
Qed.

Lemma nms_step_unassigned (self : FourierNetHead) (cfg : test_cfg nms_cfg) (g : gathered) :
  _mlvl_bboxes g = None -> _mlvl_masks g = None ->
  nms_step nms_cfg multiclass_nms_with_mask self cfg g
  = Raise (UnboundLocalError (if mask_nms self then "_mlvl_masks" else "_mlvl_bboxes")).
Proof.
  intros Hb Hm. unfold nms_step. rewrite Hb, Hm. destruct (mask_nms self); reflexivity.
Qed.

(** C8.  Calling [get_bboxes_single] with a false or unset [rescale] raises
    for every input: no detections are returned.  Whenever the per-level work
    itself goes through, the error is the read of a rescaled local
    ([_mlvl_masks] under mask_nms, [_mlvl_bboxes] otherwise), which only the
    rescale branch assigns. *)
Theorem get_bboxes_single_requires_rescale (self : FourierNetHead)
    (cls_scores bbox_preds mask_preds centernesses : list tensor3)
    (mlvl_points : list (list (R * R))) (img_shape : Z * Z)
    (scale_factor : scale_factor_t) (cfg : test_cfg nms_cfg) (rescale : option bool) :
  truthy rescale = false ->
  raised (get_bboxes_single nms_cfg distance2bbox multiclass_nms_with_mask self
            cls_scores bbox_preds mask_preds centernesses mlvl_points img_shape
            scale_factor cfg rescale) /\
  forall g,
    gather_levels nms_cfg distance2bbox self cls_scores bbox_preds mask_preds
      centernesses mlvl_points img_shape scale_factor cfg rescale = Ok g ->
    get_bboxes_single nms_cfg distance2bbox multiclass_nms_with_mask self
      cls_scores bbox_preds mask_preds centernesses mlvl_points img_shape
      scale_factor cfg rescale
    = Raise (UnboundLocalError (if mask_nms self then "_mlvl_masks" else "_mlvl_bboxes")).
Proof.
  intros Hr.
  assert (Hg : forall g,
    gather_levels nms_cfg distance2bbox self cls_scores bbox_preds mask_preds
      centernesses mlvl_points img_shape scale_factor cfg rescale = Ok g ->
    get_bboxes_single nms_cfg distance2bbox multiclass_nms_with_mask self
      cls_scores bbox_preds mask_preds centernesses mlvl_points img_shape
      scale_factor cfg rescale
    = Raise (UnboundLocalError (if mask_nms self then "_mlvl_masks" else "_mlvl_bboxes"))).
  { intros g Hgather. unfold get_bboxes_single. rewrite Hgather. cbv [bind].
    destruct (gather_levels_not_rescaled _ _ _ _ _ _ _ _ _ _ _ Hr Hgather) as [Hb Hm].
    apply nms_step_unassigned; assumption. }
  split; [|exact Hg].
  destruct (gather_levels nms_cfg distance2bbox self cls_scores bbox_preds mask_preds
              centernesses mlvl_points img_shape scale_factor cfg rescale) as [g|e] eqn:E.
  - eexists. apply (Hg g). reflexivity.
  - exists e. unfold get_bboxes_single. rewrite E. reflexivity.
Qed.

End Inference.

Section Training.

Variable distance2bbox : list (R * R) -> mat -> option (Z * Z) -> result mat.
Variable loss_cls_fn : mat -> list Z -> R -> R.
Variable loss_bbox_fn : mat -> mat -> vec -> R -> R.
Variable loss_mask_fn : mask_tensor -> mask_tensor -> option (vec * R) -> R.
Variable loss_centerness_fn : vec -> vec -> R.

Lemma flatten_preds_unassigned (self : FourierNetHead) (num_imgs : nat)
    (bbox_preds mask_preds : list tensor4) (all_level_points : list (list (R * R)))
    (r : mask_list * option (list mat)) :
  bbox_from_mask self = true ->
  (use_fourier self && negb (loss_on_coe self))%bool = false ->
  flatten_preds self num_imgs bbox_preds mask_preds all_level_points = Ok r ->
  snd r = None.
Proof.
  intros Hb Hc H. unfold flatten_preds in H. rewrite Hb in H.
  destruct (use_fourier self), (loss_on_coe self); simpl in Hc; try discriminate;
    simpl in H; bind_inv H; reflexivity.
Qed.

Lemma flatten_preds_assigned (self : FourierNetHead) (num_imgs : nat)
    (bbox_preds mask_preds : list tensor4) (all_level_points : list (list (R * R)))
    (r : mask_list * option (list mat)) :
  (negb (bbox_from_mask self) || (use_fourier self && negb (loss_on_coe self)))%bool = true ->
  flatten_preds self num_imgs bbox_preds mask_preds all_level_points = Ok r ->
  snd r <> None.
Proof.
  intros Hc H. unfold flatten_preds in H.
  destruct (bbox_from_mask self), (use_fourier self), (loss_on_coe self);
    simpl in Hc; try discriminate; simpl in H; bind_inv H; discriminate.
Qed.

(** C9.  With bbox_from_mask set, [loss] raises for every input batch unless
    use_fourier is set and loss_on_coe is not: in those configurations lines
    249-283 leave the local [flatten_bbox_preds] unassigned, and line 286
    reads it.  With use_fourier set and loss_on_coe not set, the local is
    assigned whenever those lines complete. *)
Theorem loss_bbox_from_mask_unassigned (self : FourierNetHead)
    (cls_scores bbox_preds centernesses mask_preds : list tensor4)
    (extra_data : extra_data_t) :
  bbox_from_mask self = true ->
  ((use_fourier self && negb (loss_on_coe self))%bool = false ->
   raised (loss distance2bbox loss_cls_fn loss_bbox_fn loss_mask_fn loss_centerness_fn
             self cls_scores bbox_preds centernesses mask_preds extra_data) /\
   forall num_imgs points r,
     flatten_preds self num_imgs bbox_preds mask_preds points = Ok r -> snd r = None) /\
  ((use_fourier self && negb (loss_on_coe self))%bool = true ->
   forall num_imgs points r,
     flatten_preds self num_imgs bbox_preds mask_preds points = Ok r -> snd r <> None).
Proof.
  intros Hb. split.
  - intros Hc. split.
    + unfold loss.
      repeat (apply raised_bind; intros ? ?).
      repeat match goal with
             | |- raised (match ?x with pair _ _ => _ end) => destruct x
             | |- raised (bind _ _) => apply raised_bind; intros ? ?
             end.
      match goal with
      | Hf : flatten_preds _ _ _ _ _ = Ok _ |- _ =>
          apply (flatten_preds_unassigned _ _ _ _ _ _ Hb Hc) in Hf; simpl in Hf; subst
      end.
      match goal with
      | Hr : read_local _ None = Ok _ |- _ => discriminate Hr
      end.
    + intros num_imgs points r Hf.
      exact (flatten_preds_unassigned _ _ _ _ _ _ Hb Hc Hf).
  - intros Hc num_imgs points r Hf.
    apply (flatten_preds_assigned _ _ _ _ _ _) in Hf; [exact Hf|].
    rewrite Hc. apply orb_true_r.
Qed.

Lemma mapM_Forall {A B : Type} (f : A -> result B) (P : A -> Prop) (Q : B -> Prop)
    (l : list A) (bs : list B) :
  (forall a b, P a -> f a = Ok b -> Q b) ->
  Forall P l -> mapM f l = Ok bs -> Forall Q bs.
Proof.
  intros Hf Hl. revert bs. induction Hl as [|a l Ha _ IH]; simpl; intros bs H.
  - inversion H. constructor.
  - bind_inv H. constructor; [eapply Hf; eassumption|apply IH; reflexivity].
Qed.

Lemma split_sizes_Forall {A : Type} (P : A -> Prop) (sizes : list nat) (t : list A) :
  Forall P t -> Forall (Forall P) (split_sizes sizes t).
Proof.
  revert t. induction sizes as [|n sizes IH]; intros t Ht; simpl; constructor;
    rewrite <- (firstn_skipn n t) in Ht; apply Forall_app in Ht; destruct Ht as [H1 H2].
  - exact H1.
  - apply IH. exact H2.
Qed.

Lemma cat_Forall {A : Type} (P : A -> Prop) (ts : list (list A)) (t : list A) :
  cat ts = Ok t -> Forall (Forall P) ts -> Forall P t.
Proof.
  unfold cat. destruct ts as [|x xs]; [discriminate|]. intros H Hts.
  inversion H. change (Forall P (concat (x :: xs))). apply Forall_concat. exact Hts.
Qed.

Lemma concat_level_Forall {A : Type} (P : A -> Prop) (per_imgs : list (list (list A)))
    (i : nat) (l : list A) :
  Forall (Forall (Forall P)) per_imgs -> concat_level per_imgs i = Ok l -> Forall P l.
Proof.
  intros Hall H. unfold concat_level, cat in H.
  destruct (map _ per_imgs) as [|x xs] eqn:E; [discriminate|]. inversion H; subst l.
  change (Forall P (concat (x :: xs))). rewrite <- E.
  apply Forall_concat. apply Forall_map. eapply Forall_impl; [|exact Hall].
  intros per_img Himg. destruct (nth_in_or_default i per_img []) as [Hin|Hd].
  - rewrite Forall_forall in Himg. apply Himg. exact Hin.
  - rewrite Hd. constructor.
Qed.

Lemma polar_target_labels (self : FourierNetHead) (points : list (list (R * R)))
    (extra_data : extra_data_t) (labels : list (list Z)) (b m : list mat) (c : list vec) :
  Forall (Forall (fun lab => lab = 0%Z)) (ed_labels extra_data) ->
  polar_target self points extra_data = Ok (labels, b, m, c) ->
  Forall (Forall (fun lab => lab = 0%Z)) labels.
Proof.
  intros Hzero H. unfold polar_target in H. bind_inv H.
  match goal with
  | Hs : mapM (split _) (ed_labels extra_data) = Ok ?ll |- _ =>
      assert (Hll : Forall (Forall (Forall (fun lab => lab = 0%Z))) ll)
  end.
  { eapply mapM_Forall; [|exact Hzero|eassumption].
    intros t chunks Ht Hsplit. unfold split in Hsplit. revert Hsplit.
    destruct (Nat.eqb (list_sum _) _); intros Hsplit; [|discriminate]. inversion Hsplit.
    apply split_sizes_Forall. exact Ht. }
  apply Forall_map.
  match goal with
  | Hl : mapM _ (seq 0 _) = Ok ?lvls |- Forall _ ?lvls =>
      eapply (mapM_Forall _ (fun _ => True)); [|apply Forall_forall; intros; exact I|exact Hl]
  end.
  intros i [[[l' b'] m'] c'] _ Hi. bind_inv Hi. simpl.
  eapply concat_level_Forall; eassumption.
Qed.

Lemma nonzero_zeros (labels : list Z) :
  Forall (fun lab => lab = 0%Z) labels -> nonzero labels = [].
Proof.
  intros H. unfold nonzero. generalize 0%nat.
  induction H as [|lab labels Hlab _ IH]; intros s; simpl; [reflexivity|].
  rewrite Hlab. simpl. apply IH.
Qed.

(** Outside the configurations of C9: whenever [loss] returns on a batch
    without positive labels, its three regression losses are zero. *)
Lemma loss_no_positive_zero (self : FourierNetHead)
    (cls_scores bbox_preds centernesses mask_preds : list tensor4)
    (extra_data : extra_data_t) (l : losses) :
  Forall (Forall (fun lab => lab = 0%Z)) (ed_labels extra_data) ->
  loss distance2bbox loss_cls_fn loss_bbox_fn loss_mask_fn loss_centerness_fn
    self cls_scores bbox_preds centernesses mask_preds extra_data = Ok l ->
  loss_bbox l = 0 /\ loss_mask l = 0 /\ loss_centerness l = 0.
Proof.
  intros Hzero H. unfold loss in H. cbv beta delta [bind] in H.
  repeat match type of H with
         | match ?m with Ok _ => _ | Raise _ => _ end = Ok _ =>
             destruct m eqn:?; [|discriminate H]
         | match ?x with pair _ _ => _ end = Ok _ => destruct x
         end.
  match goal with
  | Hp : polar_target _ _ _ = Ok _ |- _ =>
      pose proof (polar_target_labels _ _ _ _ _ _ _ Hzero Hp) as Hlabels
  end.
  match goal with
  | Hc : cat ?labels = Ok ?fl, Hl : Forall _ ?labels |- _ =>
      assert (Hnz : nonzero fl = [])
  end.
  { apply nonzero_zeros. eapply cat_Forall; eassumption. }
  rewrite Hnz in *. unfold index_rows, regression_losses in *. simpl in *.
  repeat match goal with
         | Hx : Ok _ = Ok _ |- _ => inversion Hx; subst; clear Hx
         | Hx : index_mask ?t [] = Ok _ |- _ => destruct t; simpl in Hx
         end.
  all: simpl; repeat split; reflexivity.
Qed.

End Training.

(** ** Concrete checks *)

Lemma example_head_init (uf bfm loc mnms : bool) :
  __init__ 2 [8%Z] [(-1, 100000000)] mnms bfm loc 4 uf 3 3 (1 / 2)
  = Ok (example_head uf bfm loc mnms).
Proof. reflexivity. Qed.

Lemma prefilter_topk_witness :
  flatten_level (example_head false false false false) ramp3 (const3 4 1 3 0)
    (const3 4 1 3 0) (const3 1 1 3 0) example_points = Ok example_level /\
  exists inds,
    prefilter (example_cfg (Some 2%Z)) example_level
    = Ok (select_level inds example_level) /\
    length (lv_points (select_level inds example_level))
    = Z.to_nat (cfg_get_nms_pre (example_cfg (Some 2%Z))) /\
    length inds = Z.to_nat (cfg_get_nms_pre (example_cfg (Some 2%Z))) /\
    NoDup inds /\
    (forall i, In i inds -> (i < length (lv_scores example_level))%nat) /\
    (forall i j, In i inds -> (j < length (lv_scores example_level))%nat ->
       ~ In j inds -> fused_score example_level j <= fused_score example_level i).
Proof.
  split; [reflexivity|].
  apply (proj1 (prefilter_topk (example_head false false false false)
                  (example_cfg (Some 2%Z)) ramp3 (const3 4 1 3 0) (const3 4 1 3 0)
                  (const3 1 1 3 0) example_points example_level
                  eq_refl eq_refl eq_refl eq_refl eq_refl)).
  unfold cfg_get_nms_pre. simpl. lia.
Defined.

Lemma get_bboxes_single_requires_rescale_witness :
  raised (get_bboxes_single unit example_distance2bbox example_nms
            (example_head false false false false)
            [ramp3] [const3 4 1 3 0] [const3 4 1 3 1] [const3 1 1 3 0]
            [example_points] (32, 32)%Z (ScaleScalar 1) (example_cfg None) None) /\
  forall g,
    gather_levels unit example_distance2bbox (example_head false false false false)
      [ramp3] [const3 4 1 3 0] [const3 4 1 3 1] [const3 1 1 3 0]
      [example_points] (32, 32)%Z (ScaleScalar 1) (example_cfg None) None = Ok g ->
    get_bboxes_single unit example_distance2bbox example_nms
      (example_head false false false false)
      [ramp3] [const3 4 1 3 0] [const3 4 1 3 1] [const3 1 1 3 0]
      [example_points] (32, 32)%Z (ScaleScalar 1) (example_cfg None) None
    = Raise (UnboundLocalError
               (if mask_nms (example_head false false false false)
                then "_mlvl_masks" else "_mlvl_bboxes")).
Proof.
  apply (get_bboxes_single_requires_rescale example_distance2bbox example_nms
           (example_head false false false false)
           [ramp3] [const3 4 1 3 0] [const3 4 1 3 1] [const3 1 1 3 0]
           [example_points] (32, 32)%Z (ScaleScalar 1) (example_cfg None) None).
  reflexivity.
Defined.

(** On that input the per-level work goes through, and with rescale set the
    detections are returned. *)
Lemma get_bboxes_single_example :
  (exists g,
     gather_levels unit example_distance2bbox (example_head false false false false)
       [ramp3] [const3 4 1 3 0] [const3 4 1 3 1] [const3 1 1 3 0]
       [example_points] (32, 32)%Z (ScaleScalar 1) (example_cfg None) None = Ok g) /\
  (exists dets,
     get_bboxes_single unit example_distance2bbox example_nms
       (example_head false false false false)
       [ramp3] [const3 4 1 3 0] [const3 4 1 3 1] [const3 1 1 3 0]
       [example_points] (32, 32)%Z (ScaleScalar 1) (example_cfg None) (Some true)
     = Ok dets).
Proof. split; eexists; reflexivity. Qed.

Lemma loss_bbox_from_mask_unassigned_witness :
  (raised (loss example_distance2bbox example_loss_cls example_loss_bbox example_loss_mask
             example_loss_centerness
             (example_head false true false false)
             [const4 1 1 1 3 0] [const4 1 4 1 3 0] [const4 1 1 1 3 0] [const4 1 4 1 3 0]
             example_extra_data) /\
   forall num_imgs points r,
     flatten_preds (example_head false true false false) num_imgs
       [const4 1 4 1 3 0] [const4 1 4 1 3 0] points = Ok r -> snd r = None) /\
  (forall num_imgs points r,
     flatten_preds (example_head true true false false) num_imgs
       [const4 1 4 1 3 0] [const4 1 6 1 3 0] points = Ok r -> snd r <> None).
Proof.
  split.
  - apply (proj1 (loss_bbox_from_mask_unassigned example_distance2bbox example_loss_cls
                    example_loss_bbox example_loss_mask example_loss_centerness (example_head false true false false)
                    [const4 1 1 1 3 0] [const4 1 4 1 3 0] [const4 1 1 1 3 0]
                    [const4 1 4 1 3 0] example_extra_data eq_refl)).
    reflexivity.
  - apply (proj2 (loss_bbox_from_mask_unassigned example_distance2bbox example_loss_cls
                    example_loss_bbox example_loss_mask example_loss_centerness (example_head true true false false)
                    [const4 1 1 1 3 0] [const4 1 4 1 3 0] [const4 1 1 1 3 0]
                    [const4 1 6 1 3 0] example_extra_data eq_refl)).
    reflexivity.
Defined.

Section TrainingChecks.

Variable distance2bbox : list (R * R) -> mat -> option (Z * Z) -> result mat.
Variable loss_cls_fn : mat -> list Z -> R -> R.
Variable loss_bbox_fn : mat -> mat -> vec -> R -> R.
Variable loss_mask_fn : mask_tensor -> mask_tensor -> option (vec * R) -> R.
Variable loss_centerness_fn : vec -> vec -> R.

(** C3, at the failing input.  The head is configured with bbox_from_mask and
    without use_fourier; the batch is one image, one level of three points, all
    labelled background.  [loss] raises on the read of [flatten_bbox_preds]
    instead of returning zero losses, whatever the loss functions are. *)
Theorem loss_no_positive_raises :
  nonzero (concat (ed_labels example_extra_data)) = [] /\
  loss distance2bbox loss_cls_fn loss_bbox_fn loss_mask_fn loss_centerness_fn
    (example_head false true false false)
    [const4 1 1 1 3 0] [const4 1 4 1 3 0] [const4 1 1 1 3 0] [const4 1 4 1 3 0]
    example_extra_data
  = Raise (UnboundLocalError "flatten_bbox_preds").
Proof. split; reflexivity. Qed.

(** The same batch under the default configuration (separate box regression):
    the three regression losses are sums over the empty positive set. *)
Lemma loss_no_positive_default :
  exists l,
    loss distance2bbox loss_cls_fn loss_bbox_fn loss_mask_fn loss_centerness_fn
      (example_head false false false false)
      [const4 1 1 1 3 0] [const4 1 4 1 3 0] [const4 1 1 1 3 0] [const4 1 4 1 3 0]
      example_extra_data = Ok l /\
    loss_bbox l = 0 /\ loss_mask l = 0 /\ loss_centerness l = 0.
Proof. eexists. split; [reflexivity|]. repeat split; reflexivity. Qed.

(** With bbox_from_mask, use_fourier and no loss_on_coe the loss of that
    batch is returned: the boxes are the extents of the decoded polygons. *)
Lemma loss_bbox_from_mask_fourier :
  exists l,
    loss distance2bbox loss_cls_fn loss_bbox_fn loss_mask_fn loss_centerness_fn
      (example_head true true false false)
      [const4 1 1 1 3 0] [const4 1 4 1 3 0] [const4 1 1 1 3 0] [const4 1 6 1 3 0]
      example_extra_data = Ok l /\
    loss_bbox l = 0 /\ loss_mask l = 0 /\ loss_centerness l = 0.
Proof. eexists. split; [reflexivity|]. repeat split; reflexivity. Qed.

End TrainingChecks.

(** ** Positivity of the decoded distances *)

Lemma map4_exp_positive (t : tensor4) : positive4 (map4 exp t).
Proof. intros n c h w. simpl. apply exp_pos. Qed.

Lemma exp_signal_positive (X : cvec) : Forall (fun v => 0 < v) (exp_signal X).
Proof.
  unfold exp_signal. apply Forall_map. apply Forall_forall. intros n _. apply exp_pos.
Qed.

Lemma exp_signals_positive {A : Type} (f : A -> cvec) (rows : list A) :
  positive2 (map (fun row => exp_signal (f row)) rows).
Proof.
  unfold positive2. apply Forall_map. apply Forall_forall. intros row _.
  apply exp_signal_positive.
Qed.

Lemma mapM_irfft_value (padded : cmat) (signal : mat) :
  mapM irfft padded = Ok signal ->
  Forall (fun X => X <> []) padded /\
  signal = map (fun X => map (irfft_entry X) (seq 0 (length X))) padded.
Proof.
  revert signal. induction padded as [|X padded IH]; intros signal H; simpl in H.
  - inversion H. split; [constructor|reflexivity].
  - destruct X as [|z X]; [discriminate|].
    cbn [irfft bind] in H.
    destruct (mapM irfft padded) as [rest|e]; [|discriminate].
    cbn [bind] in H. inversion H. destruct (IH rest eq_refl) as [Hne ->].
    split; [constructor; [discriminate|exact Hne]|reflexivity].
Qed.

Lemma irfft_exp_value (padded : cmat) (d : mat) :
  irfft_exp padded = Ok d ->
  Forall (fun X => X <> []) padded /\ d = map exp_signal padded.
Proof.
  unfold irfft_exp. intros H.
  destruct (mapM irfft padded) as [signal|e] eqn:Hs; [|discriminate].
  cbn [bind] in H. inversion H.
  destruct (mapM_irfft_value padded signal Hs) as [Hne ->].
  split; [exact Hne|]. rewrite map_map. apply map_ext. intros X.
  unfold exp_signal. rewrite map_map. reflexivity.
Qed.

Lemma irfft_exp_total (padded : cmat) :
  Forall (fun X => X <> []) padded -> irfft_exp padded = Ok (map exp_signal padded).
Proof.
  intros Hne. unfold irfft_exp.
  rewrite (mapM_total irfft (fun X => map (irfft_entry X) (seq 0 (length X)))).
  - cbn [bind]. f_equal. rewrite map_map. apply map_ext. intros X.
    unfold exp_signal. rewrite map_map. reflexivity.
  - eapply Forall_impl; [|exact Hne]. intros [|z X] HX; [contradiction|reflexivity].
Qed.

Lemma cat_dim1_zeros (rows : cmat) (n : nat) (k : Z) :
  n = length rows ->
  cat_dim1 rows (repeat (repeat (0, 0) (Z.to_nat k)) n) = Ok (map (zero_padded k) rows).
Proof.
  intros ->. unfold cat_dim1. rewrite repeat_length, Nat.eqb_refl. f_equal.
  induction rows as [|row rows IH]; [reflexivity|]. cbn [length repeat combine map fst snd].
  rewrite IH. reflexivity.
Qed.

(** The three steps shared by the two branches of lines 575-584: build the
    zeros, append them, invert and exponentiate. *)
Lemma pad_invert_value (rows : cmat) (n : nat) (k : Z) (d : mat) :
  n = length rows ->
  (pad <- zeros_c n k ;; padded <- cat_dim1 rows pad ;; irfft_exp padded) = Ok d ->
  d = map (fun row => exp_signal (zero_padded k row)) rows.
Proof.
  intros Hn H. unfold zeros_c in H.
  destruct (Z.ltb k 0); [discriminate|]. cbn [bind] in H.
  rewrite (cat_dim1_zeros rows n k Hn) in H. cbn [bind] in H.
  apply irfft_exp_value in H. destruct H as [_ ->]. apply map_map.
Qed.

Lemma pad_invert_total (rows : cmat) (n : nat) (k : Z) :
  n = length rows -> (0 <= k)%Z ->
  Forall (fun row => zero_padded k row <> []) rows ->
  (pad <- zeros_c n k ;; padded <- cat_dim1 rows pad ;; irfft_exp padded)
  = Ok (map (fun row => exp_signal (zero_padded k row)) rows).
Proof.
  intros Hn Hk Hne. unfold zeros_c.
  destruct (Z.ltb_spec k 0); [lia|]. cbn [bind].
  rewrite (cat_dim1_zeros rows n k Hn). cbn [bind].
  rewrite irfft_exp_total by (apply Forall_map; exact Hne).
  rewrite map_map. reflexivity.
Qed.

Section Forward.

Variable feat : Type.
Variables cls_convs reg_convs mask_convs : list (feat -> feat).
Variables polar_cls polar_reg polar_mask polar_centerness : feat -> tensor4.

(** C7, amended.  For every input feature map and scale factors:

    - bounding boxes: a head that regresses its boxes (bbox_from_mask off)
      returns the exponential of the scaled raw output, which is strictly
      positive; with bbox_from_mask on the box output is the slice of the
      first four channels of the mask output, strictly positive for a ray
      head (use_fourier off) and raw otherwise;
    - rays of the ray head (use_fourier off): the mask output is the
      exponential of the scaled raw output, and the decode operation hands
      the distances on as they are;
    - rays of the Fourier head (use_fourier on): the mask output is the raw
      scaled output, and whatever the decode operation returns is, row by
      row, the exponential of the inverse transform of the coefficients it
      was given followed by zero coefficients: all of them in training
      mode, the first visulize_coe of each reshaped row at inference.  It
      has one row per coefficient row, every entry is strictly positive,
      and the operation does return on every input with a non-negative
      number of zero coefficients and non-empty padded rows.

    No value is obtained by a clamp: each one is an exponential of the raw
    value, for negative raw values too. *)
Theorem decoded_distances_positive (self : FourierNetHead) (x : feat)
    (scale_bbox scale_mask : R) :
  let '(_, bbox_pred, _, mask_pred) :=
    forward_single feat cls_convs reg_convs mask_convs polar_cls polar_reg polar_mask
      polar_centerness self x scale_bbox scale_mask in
  (bbox_from_mask self = false ->
   bbox_pred = map4 exp (Scale scale_bbox (polar_reg (run_layers feat reg_convs x))) /\
   positive4 bbox_pred) /\
  (bbox_from_mask self = true ->
   bbox_pred = slice_channels 4 mask_pred /\
   (use_fourier self = false -> positive4 bbox_pred)) /\
  (use_fourier self = false ->
   mask_pred = map4 exp (Scale scale_mask (polar_mask (run_layers feat mask_convs x))) /\
   positive4 mask_pred /\
   forall train t, decode_distances self train (Rays t) = Ok t) /\
  (use_fourier self = true ->
   mask_pred = Scale scale_mask (polar_mask (run_layers feat mask_convs x)) /\
   (forall distances d,
      decode_distances self true distances = Ok d ->
      exists coe,
        distances = Coeffs coe /\
        d = map (fun row =>
                   exp_signal (zero_padded (contour_points self - num_coe self) row)) coe /\
        positive2 d) /\
   (forall distances d,
      decode_distances self false distances = Ok d ->
      exists coe,
        reshape_coe (num_coe self) (flat_view distances) = Ok coe /\
        d = map (fun row =>
                   exp_signal (zero_padded (contour_points self - visulize_coe self)
                                 (slice_to (visulize_coe self) row))) coe /\
        positive2 d) /\
   (forall coe,
      (0 <= contour_points self - num_coe self)%Z ->
      Forall (fun row => zero_padded (contour_points self - num_coe self) row <> []) coe ->
      decode_distances self true (Coeffs coe)
      = Ok (map (fun row =>
                   exp_signal (zero_padded (contour_points self - num_coe self) row)) coe)) /\
   (forall distances coe,
      reshape_coe (num_coe self) (flat_view distances) = Ok coe ->
      (0 <= contour_points self - visulize_coe self)%Z ->
      Forall (fun row => zero_padded (contour_points self - visulize_coe self)
                           (slice_to (visulize_coe self) row) <> []) coe ->
      decode_distances self false distances
      = Ok (map (fun row =>
                   exp_signal (zero_padded (contour_points self - visulize_coe self)
                                 (slice_to (visulize_coe self) row))) coe))).
Proof.
  unfold forward_single. split; [|split; [|split]].
  - intros Hb. rewrite Hb. simpl. split; [reflexivity|apply map4_exp_positive].
  - intros Hb. rewrite Hb. cbn [negb]. split; [reflexivity|].
    intros Hf. rewrite Hf. intros n c h w. unfold slice_channels.
    destruct (size4 _) as [[[n0 c0] h0] w0]. cbn [get4].
    apply map4_exp_positive.
  - intros Hf. rewrite Hf. split; [reflexivity|]. split; [apply map4_exp_positive|].
    intros train t. unfold decode_distances. rewrite Hf. reflexivity.
  - intros Hf. rewrite Hf. split; [reflexivity|]. split; [|split; [|split]].
    + intros distances d Hd. unfold decode_distances in Hd. rewrite Hf in Hd.
      destruct distances as [t|coe]; [discriminate|].
      exists coe. split; [reflexivity|].
      apply pad_invert_value in Hd; [|reflexivity]. subst d.
      split; [reflexivity|apply exp_signals_positive].
    + intros distances d Hd. unfold decode_distances in Hd. rewrite Hf in Hd.
      fold (flat_view distances) in Hd.
      destruct (reshape_coe (num_coe self) (flat_view distances)) as [coe|e];
        [|discriminate].
      cbn [bind] in Hd. exists coe. split; [reflexivity|].
      apply pad_invert_value in Hd; [|rewrite length_map; reflexivity]. subst d.
      rewrite map_map. split; [reflexivity|apply exp_signals_positive].
    + intros coe Hk Hne. unfold decode_distances. rewrite Hf.
      apply pad_invert_total; [reflexivity|exact Hk|exact Hne].
    + intros distances coe Hr Hk Hne. unfold decode_distances. rewrite Hf.
      fold (flat_view distances). rewrite Hr. cbn [bind].
      rewrite pad_invert_total;
        [rewrite map_map; reflexivity|rewrite length_map; reflexivity|exact Hk|].
      apply Forall_map. exact Hne.
Qed.

End Forward.

Lemma decoded_distances_positive_witness :
  (let '(_, bbox_pred, _, mask_pred) :=
     forward_single unit [] [] [] (fun _ => const4 1 1 1 3 0)
       (fun _ => const4 1 4 1 3 (-5)) (fun _ => const4 1 4 1 3 (-5))
       (fun _ => const4 1 1 1 3 0) (example_head false false false false) tt 1 1 in
   positive4 bbox_pred /\ positive4 mask_pred) /\
  (exists d,
     decode_distances (example_head true false false false) false
       (Rays [[1; 0; 0; 0; 0; 0]]) = Ok d /\
     d = [exp_signal [(1, 0); (0, 0); (0, 0); (0, 0)]] /\
     positive2 d).
Proof.
  split.
  - pose proof (decoded_distances_positive unit [] [] [] (fun _ => const4 1 1 1 3 0)
                  (fun _ => const4 1 4 1 3 (-5)) (fun _ => const4 1 4 1 3 (-5))
                  (fun _ => const4 1 1 1 3 0) (example_head false false false false)
                  tt 1 1) as H.
    destruct (forward_single _ _ _ _ _ _ _ _ _ _ _ _) as [[[cls bbox] ctr] mask].
    destruct H as (H1 & _ & H2 & _).
    split; [apply H1; reflexivity|apply H2; reflexivity].
  - pose proof (decoded_distances_positive unit [] [] [] (fun _ => const4 1 1 1 3 0)
                  (fun _ => const4 1 4 1 3 (-5)) (fun _ => const4 1 4 1 3 (-5))
                  (fun _ => const4 1 1 1 3 0) (example_head true false false false)
                  tt 1 1) as H.
    destruct (forward_single _ _ _ _ _ _ _ _ _ _ _ _) as [[[cls bbox] ctr] mask].
    destruct H as (_ & _ & _ & H3).
    destruct (H3 eq_refl) as (_ & _ & Hinf & _ & Htot).
    eexists. split; [|split].
    + apply (Htot (Rays [[1; 0; 0; 0; 0; 0]]) [[(1, 0); (0, 0); (0, 0)]]).
      * reflexivity.
      * simpl. lia.
      * repeat constructor. discriminate.
    + reflexivity.
    + apply exp_signals_positive.
Defined.

(** C7, as stated for every prediction, fails for the box output: with
    bbox_from_mask and use_fourier both set, [forward_single] hands back as
    bbox_pred the first four channels of the raw coefficient output, so a raw
    output of -5 comes back as -5, neither exponentiated nor positive. *)
Lemma bbox_pred_raw_slice_negative :
  let '(_, bbox_pred, _, mask_pred) :=
    forward_single unit [] [] [] (fun _ => const4 1 1 1 3 0)
      (fun _ => const4 1 4 1 3 (-5)) (fun _ => const4 1 6 1 3 (-5))
      (fun _ => const4 1 1 1 3 0) (example_head true true false false) tt 1 1 in
  size4 bbox_pred = (1, 4, 1, 3)%nat /\
  get4 bbox_pred 0 0 0 0 = -5 /\
  ~ positive4 bbox_pred.
Proof.
  cbv [forward_single example_head use_fourier bbox_from_mask negb].
  split; [reflexivity|].
  assert (E : get4 (slice_channels 4 (Scale 1 (const4 1 6 1 3 (-5)))) 0 0 0 0 = -5)
    by (simpl; lra).
  split; [exact E|].
  intros Hpos. specialize (Hpos 0%nat 0%nat 0%nat 0%nat). rewrite E in Hpos. lra.
Qed.

(** ** Dependence of the decoded polygon on the coefficients *)

(** C10.  At inference (train false) with use_fourier set, two mask
    predictions for the same points whose coefficient rows agree on the slice
    [:visulize_coe] -- the first visulize_coe coefficients -- decode to the
    same result: identical polygons (and identical distances). *)
Theorem distance2mask_reads_visulize_coe (self : FourierNetHead)
    (points : list (R * R)) (mask_pred1 mask_pred2 : mat) (coe1 coe2 : cmat)
    (max_shape : option (Z * Z)) (bbox : option mat) :
  use_fourier self = true ->
  reshape_coe (num_coe self) mask_pred1 = Ok coe1 ->
  reshape_coe (num_coe self) mask_pred2 = Ok coe2 ->
  map (slice_to (visulize_coe self)) coe1 = map (slice_to (visulize_coe self)) coe2 ->
  distance2mask self points (Rays mask_pred1) max_shape false bbox
  = distance2mask self points (Rays mask_pred2) max_shape false bbox.
Proof.
  intros Hf H1 H2 Hagree.
  assert (Hlen : length coe1 = length coe2).
  { apply (f_equal (@length _)) in Hagree. rewrite !length_map in Hagree. exact Hagree. }
  unfold distance2mask, distance2mask_traced, decode_distances.
  rewrite Hf, H1, H2. cbv beta delta [bind]. cbv iota.
  rewrite Hlen, Hagree. reflexivity.
Qed.

Lemma distance2mask_reads_visulize_coe_witness :
  distance2mask example_head_vis [(4, 4)] (Rays [[1; 0; 2; 0; 3; 0]])
    (Some (32, 32)%Z) false None
  = distance2mask example_head_vis [(4, 4)] (Rays [[1; 0; 2; 0; 9; 9]])
      (Some (32, 32)%Z) false None.
Proof.
  apply (distance2mask_reads_visulize_coe example_head_vis [(4, 4)]
           [[1; 0; 2; 0; 3; 0]] [[1; 0; 2; 0; 9; 9]]
           [[(1, 0); (2, 0); (3, 0)]] [[(1, 0); (2, 0); (9, 9)]]
           (Some (32, 32)%Z) None); reflexivity.
Defined.

(** The decode of that prediction does return a polygon. *)
Lemma distance2mask_vis_example :
  exists res, distance2mask example_head_vis [(4, 4)] (Rays [[1; 0; 2; 0; 3; 0]])
                (Some (32, 32)%Z) false None = Ok res.
Proof. eexists. reflexivity. Qed.

(** ** Round trip through the frequency domain *)

Lemma sumN_S (f : nat -> R) (N : nat) : sumN f (S N) = sumN f N + f N.
Proof.
  unfold sumN. rewrite seq_S, map_app. simpl.
  generalize (map f (seq 0 N)). induction l as [|x l IH]; simpl; [lra|].
  rewrite IH. lra.
Qed.

Lemma sumN_ext (f g : nat -> R) (N : nat) :
  (forall i, (i < N)%nat -> f i = g i) -> sumN f N = sumN g N.
Proof.
  induction N as [|N IH]; intros H; [reflexivity|].
  rewrite !sumN_S, IH, H by (intros; auto with arith). reflexivity.
Qed.

Lemma sumN_plus (f g : nat -> R) (N : nat) :
  sumN (fun i => f i + g i) N = sumN f N + sumN g N.
Proof.
  induction N as [|N IH]; [unfold sumN; simpl; lra|]. rewrite !sumN_S, IH. lra.
Qed.

Lemma sumN_scal (c : R) (f : nat -> R) (N : nat) :
  sumN (fun i => c * f i) N = c * sumN f N.
Proof.
  induction N as [|N IH]; [unfold sumN; simpl; lra|]. rewrite !sumN_S, IH. lra.
Qed.

Lemma sumN_zero (f : nat -> R) (N : nat) :
  (forall i, (i < N)%nat -> f i = 0) -> sumN f N = 0.
Proof.
  induction N as [|N IH]; intros H; [reflexivity|].
  rewrite sumN_S, IH, H by (intros; auto with arith). lra.
Qed.

Lemma sumN_swap (f : nat -> nat -> R) (N M : nat) :
  sumN (fun i => sumN (fun j => f i j) M) N = sumN (fun j => sumN (fun i => f i j) N) M.
Proof.
  induction N as [|N IH].
  - symmetry. apply sumN_zero. reflexivity.
  - rewrite sumN_S, IH, <- sumN_plus. apply sumN_ext. intros j _.
    rewrite sumN_S. reflexivity.
Qed.

Lemma sumN_single (f : nat -> R) (N n : nat) :
  (n < N)%nat -> (forall i, (i < N)%nat -> i <> n -> f i = 0) -> sumN f N = f n.
Proof.
  induction N as [|N IH]; intros Hn H; [lia|]. rewrite sumN_S.
  destruct (Nat.eq_dec n N) as [->|Hne].
  - rewrite sumN_zero; [lra|]. intros i Hi. apply H; lia.
  - rewrite IH by (try lia; intros; apply H; lia). rewrite (H N) by lia. lra.
Qed.

(** Sum of the cosines of the multiples of an angle, times 2 sin (a / 2). *)
Lemma cos_sum_telescope (a : R) (n : nat) :
  2 * sin (a / 2) * sumN (fun k => cos (INR k * a)) n
  = sin (INR n * a - a / 2) + sin (a / 2).
Proof.
  induction n as [|n IH].
  - unfold sumN; simpl. rewrite Rmult_0_l, Rminus_0_l, sin_neg. lra.
  - rewrite sumN_S, Rmult_plus_distr_l, IH, S_INR.
    replace ((INR n + 1) * a - a / 2) with (INR n * a + a / 2) by lra.
    rewrite sin_plus, sin_minus. lra.
Qed.

Lemma cos_sum_roots (N j : nat) :
  (0 < j < N)%nat -> sumN (fun k => cos (dft_angle N k j)) N = 0.
Proof.
  intros [Hj HjN].
  assert (HN : 0 < INR N) by (apply lt_0_INR; lia).
  assert (HJ : 0 < INR j) by (apply lt_0_INR; lia).
  assert (HJN : INR j < INR N) by (apply lt_INR; lia).
  set (a := 2 * PI * INR j / INR N).
  assert (Hext : sumN (fun k => cos (dft_angle N k j)) N
                 = sumN (fun k => cos (INR k * a)) N).
  { apply sumN_ext. intros k _. f_equal. unfold dft_angle, a. field. lra. }
  rewrite Hext.
  pose proof (cos_sum_telescope a N) as Ht.
  assert (Hfull : INR N * a - a / 2 = - (a / 2) + 2 * INR j * PI).
  { unfold a. field. lra. }
  rewrite Hfull, sin_period, sin_neg in Ht.
  assert (Hs : 0 < sin (a / 2)).
  { apply sin_gt_0.
    - unfold a. pose proof PI_RGT_0.
      apply Rdiv_lt_0_compat; [|lra]. apply Rdiv_lt_0_compat; [|lra].
      apply Rmult_lt_0_compat; lra.
    - unfold a. pose proof PI_RGT_0.
      replace (2 * PI * INR j / INR N / 2) with (PI * (INR j / INR N)) by (field; lra).
      rewrite <- (Rmult_1_r PI) at 2. apply Rmult_lt_compat_l; [lra|].
      apply (Rmult_lt_reg_r (INR N)); [lra|]. field_simplify; lra. }
  assert (Hz : 2 * sin (a / 2) * sumN (fun k => cos (INR k * a)) N = 0) by lra.
  apply Rmult_integral in Hz. destruct Hz as [Hz|Hz]; [lra|exact Hz].
Qed.

Lemma cos_sum_zero_shift (N : nat) :
  sumN (fun k => cos (dft_angle N k 0)) N = INR N.
Proof.
  transitivity (sumN (fun _ => 1) N).
  - apply sumN_ext. intros k _. unfold dft_angle. simpl.
    replace (2 * PI * INR k * 0 / INR N) with 0 by (unfold Rdiv; ring).
    apply cos_0.
  - induction N as [|N IH]; [reflexivity|]. rewrite sumN_S, IH, S_INR. reflexivity.
Qed.

Lemma dft_angle_mirror (N k m : nat) :
  (0 < N)%nat -> (k <= N)%nat ->
  dft_angle N (N - k) m = - dft_angle N k m + 2 * INR m * PI.
Proof.
  intros HN Hk. unfold dft_angle. rewrite minus_INR by exact Hk.
  assert (0 < INR N) by (apply lt_0_INR; exact HN). field. lra.
Qed.

Lemma rfft_coef_mirror (x : vec) (k : nat) :
  x <> [] -> (k <= length x)%nat ->
  rfft_coef x (length x - k) = conj (rfft_coef x k).
Proof.
  intros Hx Hk.
  assert (HN : (0 < length x)%nat) by (destruct x; [congruence|simpl; lia]).
  unfold rfft_coef, conj; simpl. f_equal.
  - f_equal. apply sumN_ext. intros m _.
    rewrite dft_angle_mirror, cos_period, cos_neg by assumption. reflexivity.
  - assert (Hs : sumN (fun m => - (nth m x 0 * sin (dft_angle (length x) (length x - k) m)))
                      (length x)
                 = -1 * sumN (fun m => - (nth m x 0 * sin (dft_angle (length x) k m)))
                             (length x)).
    { rewrite <- sumN_scal. apply sumN_ext. intros m _.
      rewrite dft_angle_mirror, sin_period, sin_neg by assumption. ring. }
    unfold sumN in Hs. rewrite Hs. unfold Rdiv. ring.
Qed.

Lemma cos_diff_sum (N m n : nat) :
  (m < N)%nat -> (n < N)%nat ->
  sumN (fun k => cos (dft_angle N k m - dft_angle N k n)) N
  = if Nat.eqb m n then INR N else 0.
Proof.
  intros Hm Hn.
  assert (HN : 0 < INR N) by (apply lt_0_INR; lia).
  destruct (Nat.eqb_spec m n) as [->|Hne].
  - rewrite <- cos_sum_zero_shift. apply sumN_ext. intros k _.
    unfold dft_angle. f_equal. simpl. field. lra.
  - destruct (Nat.lt_ge_cases n m) as [Hlt|Hge].
    + rewrite <- (cos_sum_roots N (m - n)) by lia. apply sumN_ext. intros k _.
      f_equal. unfold dft_angle. rewrite minus_INR by lia. field. lra.
    + rewrite <- (cos_sum_roots N (n - m)) by lia. apply sumN_ext. intros k _.
      rewrite <- cos_neg. f_equal. unfold dft_angle. rewrite minus_INR by lia.
      field. lra.
Qed.

(** The inverse transform of a spectrum whose mirrored completion is the
    spectrum of [x] gives [x] back. *)
Lemma irfft_entry_inverts (x : vec) (X : cvec) (n : nat) :
  length X = length x -> (n < length x)%nat ->
  (forall k, (k < length x)%nat -> hermitian X k = rfft_coef x k) ->
  irfft_entry X n = nth n x 0.
Proof.
  intros Hlen Hn Hherm. set (N := length x) in *.
  assert (HN : 0 < INR N) by (apply lt_0_INR; lia).
  assert (Hsq : sqrt (INR N) * sqrt (INR N) = INR N) by (apply sqrt_sqrt; lra).
  assert (Hsq0 : 0 < sqrt (INR N)) by (apply sqrt_lt_R0; exact HN).
  unfold irfft_entry. rewrite Hlen. fold N.
  change (sumN (fun k => fst (hermitian X k) * cos (dft_angle N k n)
                         - snd (hermitian X k) * sin (dft_angle N k n)) N
          / sqrt (INR N) = nth n x 0).
  rewrite (sumN_ext _ (fun k => / sqrt (INR N)
             * sumN (fun m => nth m x 0
                              * cos (dft_angle N k m - dft_angle N k n)) N)).
  - rewrite sumN_scal, sumN_swap.
    rewrite (sumN_ext _ (fun m => nth m x 0 * (if Nat.eqb m n then INR N else 0))).
    + rewrite (sumN_single _ N n Hn).
      * rewrite Nat.eqb_refl. field_simplify; [|lra].
        rewrite <- Hsq at 1. field. lra.
      * intros i _ Hi. destruct (Nat.eqb_spec i n); [contradiction|ring].
    + intros m Hm. rewrite <- (cos_diff_sum N m n Hm Hn), <- sumN_scal. reflexivity.
  - intros k Hk. rewrite (Hherm k Hk). unfold rfft_coef; simpl. fold N.
    change (sumN (fun m => nth m x 0 * cos (dft_angle N k m)) N / sqrt (INR N)
            * cos (dft_angle N k n)
            - sumN (fun m => - (nth m x 0 * sin (dft_angle N k m))) N / sqrt (INR N)
              * sin (dft_angle N k n)
            = / sqrt (INR N)
              * sumN (fun m => nth m x 0 * cos (dft_angle N k m - dft_angle N k n)) N).
    rewrite (sumN_ext (fun m => nth m x 0 * cos (dft_angle N k m - dft_angle N k n))
               (fun m => cos (dft_angle N k n) * (nth m x 0 * cos (dft_angle N k m))
                         + - sin (dft_angle N k n)
                           * (- (nth m x 0 * sin (dft_angle N k m)))))
      by (intros m _; rewrite cos_minus; ring).
    rewrite sumN_plus, !sumN_scal. field. lra.
Qed.

Lemma nth_map_seq {A : Type} (f : nat -> A) (N k : nat) (d : A) :
  (k < N)%nat -> nth k (map f (seq 0 N)) d = f k.
Proof.
  intros Hk. rewrite (nth_indep _ d (f 0%nat)) by (rewrite length_map, length_seq; exact Hk).
  rewrite map_nth, seq_nth by exact Hk. reflexivity.
Qed.

Lemma map_seq_nth (x : vec) (f : nat -> R) :
  (forall n, (n < length x)%nat -> f n = nth n x 0) -> map f (seq 0 (length x)) = x.
Proof.
  intros H. apply (nth_ext _ _ 0 0).
  - rewrite length_map, length_seq. reflexivity.
  - intros n Hn. rewrite length_map, length_seq in Hn.
    rewrite nth_map_seq by exact Hn. apply H. exact Hn.
Qed.

Lemma conj_involutive (z : complex) : conj (conj z) = z.
Proof. destruct z as [re im]. unfold conj; simpl. rewrite Ropp_involutive. reflexivity. Qed.

Lemma half_spectrum_le (N : nat) : (1 <= N)%nat -> (N / 2 + 1 <= N)%nat.
Proof.
  intros HN. pose proof (Nat.div_lt N 2). lia.
Qed.

Lemma padded_spectrum_length (x : vec) :
  x <> [] -> length (padded_spectrum x) = length x.
Proof.
  intros Hx. assert (HN : (1 <= length x)%nat) by (destruct x; [congruence|simpl; lia]).
  pose proof (half_spectrum_le _ HN).
  unfold padded_spectrum.
  rewrite length_app, length_firstn, length_map, length_seq, repeat_length. lia.
Qed.

Lemma padded_spectrum_low (x : vec) (k : nat) :
  x <> [] -> (k <= length x / 2)%nat ->
  nth k (padded_spectrum x) (0, 0) = rfft_coef x k.
Proof.
  intros Hx Hk. assert (HN : (1 <= length x)%nat) by (destruct x; [congruence|simpl; lia]).
  pose proof (half_spectrum_le _ HN).
  unfold padded_spectrum.
  rewrite app_nth1 by (rewrite length_firstn, length_map, length_seq; lia).
  rewrite nth_firstn.
  destruct (Nat.ltb_spec k (length x / 2 + 1)); [|lia].
  apply nth_map_seq. lia.
Qed.

Lemma padded_spectrum_hermitian (x : vec) (k : nat) :
  x <> [] -> (k < length x)%nat -> hermitian (padded_spectrum x) k = rfft_coef x k.
Proof.
  intros Hx Hk. unfold hermitian. rewrite padded_spectrum_length by exact Hx.
  destruct (Nat.leb_spec k (length x / 2)) as [Hlow|Hhigh].
  - apply padded_spectrum_low; assumption.
  - assert (Hmir : (length x - k <= length x / 2)%nat).
    { pose proof (Nat.div_mod_eq (length x) 2).
      pose proof (Nat.mod_upper_bound (length x) 2). lia. }
    rewrite padded_spectrum_low by assumption.
    rewrite rfft_coef_mirror by (try assumption; lia).
    apply conj_involutive.
Qed.

Lemma irfft_nonempty (X : cvec) :
  X <> [] -> irfft X = Ok (map (irfft_entry X) (seq 0 (length X))).
Proof. destruct X; [congruence|reflexivity]. Qed.

Lemma irfft_padded_spectrum (x : vec) :
  x <> [] -> irfft (padded_spectrum x) = Ok x.
Proof.
  intros Hx. pose proof (padded_spectrum_length x Hx) as Hlen.
  rewrite irfft_nonempty.
  - rewrite Hlen. f_equal. apply map_seq_nth. intros n Hn.
    apply irfft_entry_inverts; [exact Hlen|exact Hn|].
    intros k Hk. apply padded_spectrum_hermitian; assumption.
  - intros E. rewrite E in Hlen. destruct x; [congruence|discriminate].
Qed.

Lemma chunks_fuel_concat {A : Type} (k : nat) (rows : list (list A)) (fuel : nat) :
  (0 < k)%nat -> Forall (fun row => length row = k) rows ->
  (length rows <= fuel)%nat -> chunks_fuel fuel k (concat rows) = rows.
Proof.
  intros Hk Hrows. revert fuel.
  induction Hrows as [|row rows Hrow _ IH]; intros fuel Hfuel.
  - destruct fuel; reflexivity.
  - destruct fuel as [|fuel]; [simpl in Hfuel; lia|]. simpl.
    destruct (row ++ concat rows) as [|a l] eqn:E.
    + destruct row; [simpl in Hrow; lia|discriminate].
    + rewrite <- E, firstn_app, skipn_app, Hrow, Nat.sub_diag.
      rewrite firstn_all2, skipn_all2 by lia. simpl.
      rewrite app_nil_r. f_equal. apply IH. simpl in Hfuel. lia.
Qed.

Lemma length_concat_rows {A : Type} (k : nat) (rows : list (list A)) :
  Forall (fun row => length row = k) rows -> length (concat rows) = (length rows * k)%nat.
Proof.
  induction 1 as [|row rows Hrow _ IH]; simpl; [reflexivity|].
  rewrite length_app, IH, Hrow. reflexivity.
Qed.

Lemma reshape_rows_concat {A : Type} (k : nat) (rows : list (list A)) :
  (0 < k)%nat -> Forall (fun row => length row = k) rows ->
  reshape_rows (Z.of_nat k) (concat rows) = Ok rows.
Proof.
  intros Hk Hrows. unfold reshape_rows.
  destruct (Z.leb_spec (Z.of_nat k) 0); [lia|].
  rewrite Nat2Z.id, (length_concat_rows k) by exact Hrows.
  rewrite Nat.Div0.mod_mul, Nat.eqb_refl. f_equal.
  unfold chunks. apply chunks_fuel_concat; try assumption.
  rewrite (length_concat_rows k) by exact Hrows. nia.
Qed.

Lemma pairs_unpair (row : cvec) : pairs (flat_map (fun z => [fst z; snd z]) row) = row.
Proof.
  induction row as [|[re im] row IH]; simpl; [reflexivity|]. rewrite IH. reflexivity.
Qed.

Lemma reshape_coe_unpair (c : nat) (coe : cmat) :
  (0 < c)%nat -> Forall (fun row => length row = c) coe ->
  reshape_coe (Z.of_nat c) (map (flat_map (fun z => [fst z; snd z])) coe) = Ok coe.
Proof.
  intros Hc Hrows. unfold reshape_coe, reshape_coe_flat, flatten.
  replace (Z.of_nat c * 2)%Z with (Z.of_nat (c * 2)) by lia.
  rewrite reshape_rows_concat.
  - cbv [bind]. rewrite map_map. f_equal.
    rewrite <- (map_id coe) at 2. apply map_ext. intros row. apply pairs_unpair.
  - lia.
  - apply Forall_map. eapply Forall_impl; [|exact Hrows].
    intros row Hrow. rewrite <- Hrow. clear.
    induction row as [|z row IH]; simpl; [reflexivity|]. rewrite IH. lia.
Qed.

Lemma mapM_map_inverse {A B : Type} (f : B -> result A) (h : A -> B) (l : list A) :
  Forall (fun a => f (h a) = Ok a) l -> mapM f (map h l) = Ok l.
Proof.
  induction 1 as [|a l Ha _ IH]; simpl; [reflexivity|].
  rewrite Ha; simpl. rewrite IH. reflexivity.
Qed.

Lemma combine_pad {A B : Type} (f : A -> list B) (z : list B) (d : list A) :
  map (fun p => fst p ++ snd p) (combine (map f d) (repeat z (length d)))
  = map (fun x => f x ++ z) d.
Proof. induction d as [|x d IH]; simpl; [reflexivity|]. rewrite IH. reflexivity. Qed.

Lemma slice_to_nat {A : Type} (c : nat) (l : list A) :
  slice_to (Z.of_nat c) l = firstn c l.
Proof.
  unfold slice_to. destruct (Z.leb_spec 0 (Z.of_nat c)); [|lia].
  rewrite Nat2Z.id. reflexivity.
Qed.

Lemma target_coefficients_half (self : FourierNetHead) (K : nat) (d : mat) :
  (1 <= K)%nat -> num_coe self = Z.of_nat (K / 2 + 1) ->
  Forall (fun row => length row = K) d ->
  target_coefficients self d = Ok (half_spectra K d).
Proof.
  intros HK Hc Hd. unfold target_coefficients.
  rewrite (mapM_total _ (fun x => map (rfft_coef x) (seq 0 (length x)))).
  - cbv [bind]. rewrite map_map, Hc. unfold half_spectra. f_equal.
    apply map_ext. intros x. apply slice_to_nat.
  - eapply Forall_impl; [|exact Hd]. intros [|v x] Hx; [simpl in Hx; lia|reflexivity].
Qed.

Lemma pad_and_invert (K : nat) (d : mat) (pad : Z) :
  (1 <= K)%nat -> pad = (Z.of_nat K - Z.of_nat (K / 2 + 1))%Z ->
  Forall (fun row => length row = K) d ->
  (pad <- zeros_c (length (half_spectra K d)) pad ;;
   padded <- cat_dim1 (half_spectra K d) pad ;;
   irfft_exp padded) = Ok (map (map exp) d).
Proof.
  intros HK -> Hd. pose proof (half_spectrum_le K HK) as Hle.
  unfold zeros_c. destruct (Z.ltb_spec (Z.of_nat K - Z.of_nat (K / 2 + 1)) 0); [lia|].
  cbv [bind]. unfold cat_dim1.
  assert (Hn : length (half_spectra K d) = length d) by apply length_map.
  rewrite repeat_length, Nat.eqb_refl, Hn.
  unfold half_spectra.
  rewrite (combine_pad (fun x => firstn (K / 2 + 1) (map (rfft_coef x) (seq 0 (length x))))).
  replace (Z.to_nat (Z.of_nat K - Z.of_nat (K / 2 + 1))) with (K - (K / 2 + 1))%nat by lia.
  unfold irfft_exp.
  rewrite mapM_map_inverse.
  - reflexivity.
  - eapply Forall_impl; [|exact Hd]. intros x Hx.
    simpl in Hx. pose proof (irfft_padded_spectrum x) as Hinv.
    unfold padded_spectrum in Hinv. rewrite <- Hx. apply Hinv.
    intros ->. simpl in Hx. lia.
Qed.

Lemma half_spectra_rows (K : nat) (d : mat) :
  (1 <= K)%nat -> Forall (fun row => length row = K) d ->
  Forall (fun row => length row = (K / 2 + 1)%nat) (half_spectra K d).
Proof.
  intros HK Hd. pose proof (half_spectrum_le K HK). apply Forall_map.
  eapply Forall_impl; [|exact Hd]. intros x Hx. simpl in Hx.
  rewrite length_firstn, length_map, length_seq. lia.
Qed.

(** What the round trip really returns: the exponential of each distance. *)
Lemma round_trip_exp (self : FourierNetHead) (K : nat) (d : mat) :
  (1 <= K)%nat ->
  use_fourier self = true ->
  contour_points self = Z.of_nat K ->
  num_coe self = Z.of_nat (K / 2 + 1) ->
  Forall (fun row => length row = K) d ->
  exists coe,
    target_coefficients self d = Ok coe /\
    decode_distances self true (Coeffs coe) = Ok (map (map exp) d) /\
    (visulize_coe self = num_coe self ->
     decode_distances self false (Coeffs coe) = Ok (map (map exp) d)).
Proof.
  intros HK Hf Hk Hc Hd. exists (half_spectra K d).
  split; [apply target_coefficients_half; assumption|]. split.
  - unfold decode_distances. rewrite Hf, Hk, Hc.
    apply pad_and_invert; [exact HK|reflexivity|exact Hd].
  - intros Hv. unfold decode_distances. rewrite Hf, Hv, Hk, Hc.
    rewrite reshape_coe_unpair by (try lia; apply half_spectra_rows; assumption).
    cbv beta delta [bind]. cbv iota.
    assert (Hs : map (slice_to (Z.of_nat (K / 2 + 1))) (half_spectra K d)
                 = half_spectra K d).
    { rewrite <- (map_id (half_spectra K d)) at 2. apply map_ext_in. intros row Hrow.
      pose proof (half_spectra_rows K d HK Hd) as Hrows.
      rewrite Forall_forall in Hrows. specialize (Hrows row Hrow).
      rewrite slice_to_nat. apply firstn_all2. lia. }
    rewrite Hs.
    apply (pad_and_invert K d _ HK eq_refl Hd).
Qed.

Lemma exp_above (d : mat) :
  Forall2 (Forall2 (fun o v => v + 1 <= o)) (map (map exp) d) d.
Proof.
  induction d as [|row d IH]; simpl; constructor; [|exact IH].
  induction row as [|v row IHr]; simpl; constructor; [|exact IHr].
  pose proof (exp_ineq1_le v). lra.
Qed.

(** C2 (amended).  For every batch of ray-distance vectors of length K >= 1,
    on a Fourier head with contour_points = K and num_coe = K/2 + 1: the
    forward transform of the loss (rfft, cut to num_coe coefficients) followed
    by the head's inverse transform (zero-pad to K coefficients, irfft, then
    exp) returns exp(d) entry by entry, in training mode and, when
    visulize_coe = num_coe, in inference mode.  Every returned entry exceeds
    the distance it came from by at least 1, so the distance itself is never
    reconstructed; it is the value before the final exponential. *)
Theorem round_trip_returns_exp (self : FourierNetHead) (K : nat) (d : mat) :
  (1 <= K)%nat ->
  use_fourier self = true ->
  contour_points self = Z.of_nat K ->
  num_coe self = Z.of_nat (K / 2 + 1) ->
  Forall (fun row => length row = K) d ->
  exists coe out,
    target_coefficients self d = Ok coe /\
    decode_distances self true (Coeffs coe) = Ok out /\
    (visulize_coe self = num_coe self ->
     decode_distances self false (Coeffs coe) = Ok out) /\
    out = map (map exp) d /\
    Forall2 (Forall2 (fun o v => v + 1 <= o)) out d.
Proof.
  intros HK Hf Hk Hc Hd.
  destruct (round_trip_exp self K d HK Hf Hk Hc Hd) as (coe & Ht & Htrain & Hinf).
  exists coe, (map (map exp) d).
  split; [exact Ht|]. split; [exact Htrain|]. split; [exact Hinf|].
  split; [reflexivity|apply exp_above].
Qed.

Lemma round_trip_returns_exp_witness :
  exists coe out,
    target_coefficients (example_head true false false false) [[10; 14; 10; 14]] = Ok coe /\
    decode_distances (example_head true false false false) true (Coeffs coe) = Ok out /\
    (visulize_coe (example_head true false false false)
     = num_coe (example_head true false false false) ->
     decode_distances (example_head true false false false) false (Coeffs coe) = Ok out) /\
    out = map (map exp) [[10; 14; 10; 14]] /\
    Forall2 (Forall2 (fun o v => v + 1 <= o)) out [[10; 14; 10; 14]].
Proof.
  apply (round_trip_returns_exp (example_head true false false false) 4
           [[10; 14; 10; 14]]); try reflexivity; [lia|].
  repeat constructor.
Defined.

(** C2, as stated, fails: for the vector (1, 1, 1, 1) with K = 4 and
    C = K/2 + 1 = 3 the round trip returns (e, e, e, e), every entry of which
    is more than 1 away from the entry it should reconstruct. *)
Lemma round_trip_not_identity :
  exists coe out,
    target_coefficients (example_head true false false false) [[1; 1; 1; 1]] = Ok coe /\
    decode_distances (example_head true false false false) true (Coeffs coe) = Ok out /\
    out = [[exp 1; exp 1; exp 1; exp 1]] /\
    out <> [[1; 1; 1; 1]] /\
    Forall2 (Forall2 (fun o v => 1 < Rabs (o - v))) out [[1; 1; 1; 1]].
Proof.
  destruct (round_trip_exp (example_head true false false false) 4 [[1; 1; 1; 1]])
    as (coe & Ht & Htrain & _); try reflexivity; [lia|repeat constructor|].
  assert (He : 2 < exp 1) by (pose proof (exp_ineq1 1); lra).
  exists coe, [[exp 1; exp 1; exp 1; exp 1]].
  split; [exact Ht|]. split; [exact Htrain|]. split; [reflexivity|]. split.
  - intros H. inversion H. lra.
  - repeat constructor; rewrite Rabs_right; lra.
Qed.

(** * Further properties of the code *)

(** ** Construction *)

Lemma floordiv_negative (K : Z) : (K < 0)%Z -> (360 / K < 0)%Z.
Proof.
  intros HK. pose proof (Z.div_mod 360 K ltac:(lia)) as E.
  pose proof (Z.mod_neg_bound 360 K HK). nia.
Qed.

Lemma floordiv_small (K : Z) : (1 <= K <= 360)%Z -> (1 <= 360 / K)%Z.
Proof. intros HK. apply Z.div_le_lower_bound; lia. Qed.

Lemma range_table_length (K : Z) :
  (1 <= K <= 360)%Z ->
  exists degrees,
    range 0 359 (360 / K) = Ok degrees /\
    (Z.to_nat K <= length degrees)%nat /\
    (length degrees = Z.to_nat K <-> (360 mod K = 0)%Z).
Proof.
  intros HK. pose proof (floordiv_small K HK) as Hi.
  pose proof (Z.div_mod 360 K ltac:(lia)) as E.
  pose proof (Z.mod_pos_bound 360 K ltac:(lia)) as Hm.
  unfold range.
  destruct (Z.eqb_spec (360 / K) 0) as [E0|_]; [lia|].
  assert (Hbad : bad_step 0 359 (360 / K) = false).
  { unfold bad_step. apply orb_false_iff; split; apply andb_false_iff.
    - right; reflexivity.
    - left. apply Z.ltb_ge. lia. }
  rewrite Hbad. eexists. split; [reflexivity|].
  unfold steps. rewrite length_map, length_seq.
  replace (359 - 0)%Z with 359%Z by lia.
  pose proof (Z.div_mod 359 (360 / K) ltac:(lia)) as E'.
  pose proof (Z.mod_pos_bound 359 (360 / K) ltac:(lia)) as Hm'.
  assert (Hq : (0 <= 359 / (360 / K))%Z) by (apply Z.div_pos; lia).
  split; [|split; intros H].
  - assert ((K - 1 <= 359 / (360 / K))%Z) by (apply Z.div_le_lower_bound; nia). lia.
  - assert ((359 / (360 / K) = K - 1)%Z) by lia. nia.
  - assert ((359 / (360 / K) = K - 1)%Z); [|lia].
    symmetry. apply (Z.div_unique _ _ _ (360 / K - 1)); [left; lia|nia].
Qed.

Lemma init_accepts (num_classes : Z) (strides : list Z)
    (regress_ranges : list (R * R)) (mask_nms bbox_from_mask loss_on_coe : bool)
    (K : Z) (use_fourier : bool) (num_coe visulize_coe : Z) (centerness_factor : R) :
  (1 <= K <= 360)%Z ->
  exists self,
    __init__ num_classes strides regress_ranges mask_nms bbox_from_mask loss_on_coe
             K use_fourier num_coe visulize_coe centerness_factor = Ok self /\
    contour_points self = K /\
    (Z.to_nat K <= length (angles self))%nat /\
    (length (angles self) = Z.to_nat K <-> (360 mod K = 0)%Z).
Proof.
  intros HK. destruct (range_table_length K HK) as (degrees & Hr & Hle & Hiff).
  unfold __init__, floordiv. destruct (Z.eqb_spec K 0) as [E|_]; [lia|].
  cbv [bind]. rewrite Hr. eexists. split; [reflexivity|]. simpl.
  rewrite length_map. auto.
Qed.

Lemma init_rejects (num_classes : Z) (strides : list Z)
    (regress_ranges : list (R * R)) (mask_nms bbox_from_mask loss_on_coe : bool)
    (K : Z) (use_fourier : bool) (num_coe visulize_coe : Z) (centerness_factor : R) :
  (K <= 0 \/ 360 < K)%Z ->
  raised (__init__ num_classes strides regress_ranges mask_nms bbox_from_mask
            loss_on_coe K use_fourier num_coe visulize_coe centerness_factor).
Proof.
  intros HK. unfold __init__, floordiv.
  destruct (Z.eqb_spec K 0) as [E|Hne]; [eexists; reflexivity|]. cbv [bind].
  unfold range. destruct (Z.eqb_spec (360 / K) 0) as [E0|Hi]; [eexists; reflexivity|].
  assert (Hbad : bad_step 0 359 (360 / K) = true).
  { destruct HK as [HK|HK].
    - pose proof (floordiv_negative K ltac:(lia)). unfold bad_step.
      apply orb_true_iff. right. apply andb_true_iff. split; apply Z.ltb_lt; lia.
    - exfalso. apply Hi. apply Z.div_small. lia. }
  rewrite Hbad. eexists; reflexivity.
Qed.

(** X1.  The constructor accepts exactly the contour_points values 1..360: 0
    is a ZeroDivisionError, a negative value or one above 360 makes
    [torch.range] fail.  For an accepted value K the angle table never has
    fewer than K entries, and it has exactly K if and only if K divides 360. *)
Theorem init_contour_points_domain (num_classes : Z) (strides : list Z)
    (regress_ranges : list (R * R)) (mask_nms bbox_from_mask loss_on_coe : bool)
    (K : Z) (use_fourier : bool) (num_coe visulize_coe : Z) (centerness_factor : R) :
  (K = 0%Z ->
   __init__ num_classes strides regress_ranges mask_nms bbox_from_mask loss_on_coe
            K use_fourier num_coe visulize_coe centerness_factor
   = Raise ZeroDivisionError) /\
  (raised (__init__ num_classes strides regress_ranges mask_nms bbox_from_mask
             loss_on_coe K use_fourier num_coe visulize_coe centerness_factor)
   <-> (K <= 0 \/ 360 < K)%Z) /\
  ((1 <= K <= 360)%Z ->
   exists self,
     __init__ num_classes strides regress_ranges mask_nms bbox_from_mask loss_on_coe
              K use_fourier num_coe visulize_coe centerness_factor = Ok self /\
     contour_points self = K /\
     (Z.to_nat K <= length (angles self))%nat /\
     (length (angles self) = Z.to_nat K <-> (360 mod K = 0)%Z)).
Proof.
  split; [|split; [split|]].
  - intros ->. reflexivity.
  - intros [e He]. destruct (Z.le_gt_cases K 0) as [H0|H0]; [left; exact H0|].
    destruct (Z.le_gt_cases K 360) as [H1|H1]; [|right; lia].
    destruct (init_accepts num_classes strides regress_ranges mask_nms bbox_from_mask
                loss_on_coe K use_fourier num_coe visulize_coe centerness_factor)
      as (self & Hs & _); [lia|]. rewrite Hs in He. discriminate.
  - apply init_rejects.
  - apply init_accepts.
Qed.

Lemma init_contour_points_domain_witness :
  exists self,
    __init__ 81 [8]%Z [] false false false 100 false 36 36 (1 / 2) = Ok self /\
    contour_points self = 100%Z /\
    (Z.to_nat 100 <= length (angles self))%nat /\
    (length (angles self) = Z.to_nat 100 <-> (360 mod 100 = 0)%Z).
Proof.
  apply (proj2 (proj2 (init_contour_points_domain 81 [8]%Z [] false false false 100
                         false 36 36 (1 / 2)))).
  lia.
Defined.

(** ** Polygon decoding *)

Lemma zipM_pure {A B C : Type} (f : A -> B -> C) (a : list A) (b : list B) :
  zipM (fun x y => Ok (f x y)) a b = Ok (map (fun p => f (fst p) (snd p)) (combine a b)).
Proof.
  revert b. induction a as [|x a IH]; intros [|y b]; simpl; try reflexivity.
  rewrite IH. reflexivity.
Qed.

Lemma bcast1_same (f : R -> R -> R) (a b : vec) :
  length a = length b ->
  bcast1 f a b = Ok (map (fun p => f (fst p) (snd p)) (combine a b)).
Proof.
  intros H. unfold bcast1, bcastM. rewrite H, Nat.eqb_refl. apply zipM_pure.
Qed.

Lemma zipM_rows (f : R -> R -> R) (a b : mat) :
  Forall2 (fun r1 r2 => length r1 = length r2) a b ->
  zipM (bcast1 f) a b
  = Ok (map (fun p => map (fun q => f (fst q) (snd q)) (combine (fst p) (snd p)))
            (combine a b)).
Proof.
  induction 1 as [|r1 r2 a b Hr _ IH]; simpl; [reflexivity|].
  rewrite bcast1_same by exact Hr. simpl. rewrite IH. reflexivity.
Qed.

Lemma bcast2_same (f : R -> R -> R) (a b : mat) :
  Forall2 (fun r1 r2 => length r1 = length r2) a b ->
  bcast2 f a b
  = Ok (map (fun p => map (fun q => f (fst q) (snd q)) (combine (fst p) (snd p)))
            (combine a b)).
Proof.
  intros H. unfold bcast2, bcastM.
  replace (Nat.eqb (length a) (length b)) with true
    by (symmetry; apply Nat.eqb_eq; exact (Forall2_length H)).
  apply zipM_rows. exact H.
Qed.

Lemma Forall2_repeat_r {A B : Type} (P : A -> B -> Prop) (a : list A) (b : B) :
  Forall (fun x => P x b) a -> Forall2 P a (repeat b (length a)).
Proof. induction 1; simpl; constructor; assumption. Qed.

Lemma Forall2_map_r {A B C : Type} (P : A -> C -> Prop) (g : B -> C) (a : list A)
    (b : list B) :
  Forall2 (fun x y => P x (g y)) a b -> Forall2 P a (map g b).
Proof. induction 1; simpl; constructor; assumption. Qed.

Lemma Forall2_same_length {A B : Type} (P : A -> B -> Prop) (a : list A) (b : list B) :
  length a = length b -> Forall (fun x => forall y, P x y) a -> Forall2 P a b.
Proof.
  revert b. induction a as [|x a IH]; intros [|y b] Hlen Ha; simpl in *;
    try discriminate; constructor.
  - inversion Ha; auto.
  - apply IH; [lia|]. inversion Ha; assumption.
Qed.

Lemma combine_repeat_r {A B C : Type} (f : A * B -> C) (a : list A) (b : B) :
  map f (combine a (repeat b (length a))) = map (fun x => f (x, b)) a.
Proof. induction a as [|x a IH]; simpl; [reflexivity|]. rewrite IH. reflexivity. Qed.

Lemma row_coordinates (trig : R -> R) (c : R) (angles row : vec) :
  length row = length angles ->
  map (fun q => fst q + snd q)
      (combine (map (fun q => fst q * snd q) (combine row (map trig angles)))
               (repeat c (length angles)))
  = map (fun q => fst q * trig (snd q) + c) (combine row angles).
Proof.
  revert angles. induction row as [|v row IH]; intros [|a angles] H; simpl in *;
    try reflexivity; try discriminate.
  f_equal. apply IH. lia.
Qed.

(** The raw coordinates [distances * table + centre] of lines 595-596. *)
Lemma coordinates_same (trig : R -> R) (sel : R * R -> R) (angles : vec)
    (points : list (R * R)) (d : mat) :
  length d = length points ->
  Forall (fun row => length row = length angles) d ->
  (xs <- bcast2 Rmult d (repeat (map trig angles) (length points)) ;;
   bcast2 Rplus xs (map (fun p => repeat (sel p) (length angles)) points))
  = Ok (map (fun pr => map (fun q => fst q * trig (snd q) + sel (fst pr))
                           (combine (snd pr) angles))
            (combine points d)).
Proof.
  intros Hlen Hrows. rewrite <- Hlen.
  rewrite bcast2_same.
  2:{ apply Forall2_repeat_r. eapply Forall_impl; [|exact Hrows].
      intros row Hr. rewrite length_map. exact Hr. }
  cbv [bind]. rewrite combine_repeat_r. simpl.
  rewrite bcast2_same.
  2:{ apply Forall2_map_r. apply Forall2_same_length.
      - rewrite length_map. exact Hlen.
      - apply Forall_map. eapply Forall_impl; [|exact Hrows].
        intros row Hr p. simpl. rewrite length_map, length_combine, length_map, repeat_length.
        simpl in Hr. lia. }
  f_equal. clear Hlen.
  revert points. induction Hrows as [|row d Hr _ IH]; intros [|p points]; simpl;
    try reflexivity.
  f_equal; [|apply IH]. apply row_coordinates. exact Hr.
Qed.

Lemma coordinates_steps (trig : R -> R) (sel : R * R -> R) (angles : vec)
    (points : list (R * R)) (d : mat) :
  length d = length points ->
  Forall (fun row => length row = length angles) d ->
  exists xs,
    bcast2 Rmult d (repeat (map trig angles) (length points)) = Ok xs /\
    bcast2 Rplus xs (map (fun p => repeat (sel p) (length angles)) points)
    = Ok (map (fun pr => map (fun q => fst q * trig (snd q) + sel (fst pr))
                             (combine (snd pr) angles))
              (combine points d)).
Proof.
  intros Hlen Hrows. pose proof (coordinates_same trig sel angles points d Hlen Hrows) as H.
  destruct (bcast2 Rmult d _) as [xs|e]; [|discriminate].
  exists xs. split; [reflexivity|exact H].
Qed.

(** X2.  Once the distances are decoded into one row per point with one entry
    per table angle, [distance2mask] (without a clip box) returns one polygon
    per point: vertex j of point p is (d_j * sin a_j + p_x, d_j * cos a_j + p_y),
    clamped into the image when max_shape is given; the distances come back
    unchanged. *)
Theorem distance2mask_polygons (self : FourierNetHead) (points : list (R * R))
    (distances : mask_tensor) (max_shape : option (Z * Z)) (train : bool) (d : mat) :
  decode_distances self train distances = Ok d ->
  length d = length points ->
  Forall (fun row => length row = length (angles self)) d ->
  distance2mask self points distances max_shape train None
  = Ok (map (fun pr => clip_polygon max_shape (polygon_of (angles self) (fst pr) (snd pr)))
            (combine points d), d).
Proof.
  intros Hd Hlen Hrows. unfold distance2mask, distance2mask_traced. rewrite Hd.
  cbn [snd].
  destruct (coordinates_steps sin fst (angles self) points d Hlen Hrows)
    as (xs & Hxs & Hx).
  destruct (coordinates_steps cos snd (angles self) points d Hlen Hrows)
    as (ys & Hys & Hy).
  rewrite Hxs. cbv beta iota delta [bind]. rewrite Hx. cbv beta iota.
  rewrite Hys. cbv beta iota. rewrite Hy. cbv beta iota.
  unfold clip_to_bbox.
  assert (Hsame : forall (bx byy : option Z) (X Y : mat),
             length X = length Y ->
             Nat.eqb (length (clip_to_shape bx X)) (length (clip_to_shape byy Y)) = true).
  { intros bx byy X Y HXY. apply Nat.eqb_eq.
    destruct bx, byy; simpl; rewrite ?length_map; exact HXY. }
  rewrite Hsame by (rewrite !length_map; reflexivity).
  f_equal. f_equal. unfold polygon_of, clip_polygon.
  destruct max_shape as [[h w]|]; simpl.
  - rewrite !map_map, combine_map_same. reflexivity.
  - rewrite combine_map_same. reflexivity.
Qed.

Lemma distance2mask_polygons_witness :
  distance2mask (example_head false false false false) [(4, 4); (12, 4)]
    (Rays [[1; 2; 3; 4]; [5; 6; 7; 8]]) (Some (32, 32)%Z) false None
  = Ok (map (fun pr => clip_polygon (Some (32, 32)%Z)
                         (polygon_of (angles (example_head false false false false))
                            (fst pr) (snd pr)))
            (combine [(4, 4); (12, 4)] [[1; 2; 3; 4]; [5; 6; 7; 8]]),
        [[1; 2; 3; 4]; [5; 6; 7; 8]]).
Proof.
  apply (distance2mask_polygons (example_head false false false false)
           [(4, 4); (12, 4)] (Rays [[1; 2; 3; 4]; [5; 6; 7; 8]]) (Some (32, 32)%Z)
           false [[1; 2; 3; 4]; [5; 6; 7; 8]]); try reflexivity.
  repeat constructor.
Defined.

Lemma clamp_bounds (hi v : R) : 0 <= hi -> 0 <= clamp 0 hi v <= hi.
Proof.
  intros Hhi. unfold clamp. split.
  - apply Rmin_glb; [apply Rmax_r|exact Hhi].
  - apply Rmin_r.
Qed.

Lemma mapM_entries {A B : Type} (f : A -> result B) (l : list A) (bs : list B) :
  mapM f l = Ok bs -> Forall (fun z => exists x, In x l /\ f x = Ok z) bs.
Proof.
  revert bs. induction l as [|a l IH]; intros bs H; simpl in H.
  - inversion H. constructor.
  - destruct (f a) as [b|e] eqn:Ha; [|discriminate]. cbn [bind] in H.
    destruct (mapM f l) as [rest|e]; [|discriminate]. cbn [bind] in H.
    inversion H. constructor.
    + exists a. split; [left; reflexivity|exact Ha].
    + eapply Forall_impl; [|apply IH; reflexivity].
      intros z (x & Hx & Hz). exists x. split; [right; exact Hx|exact Hz].
Qed.

Lemma zipM_entries {A B C : Type} (f : A -> B -> result C) (a : list A) (b : list B)
    (c : list C) :
  zipM f a b = Ok c ->
  Forall (fun z => exists x y, In x a /\ In y b /\ f x y = Ok z) c.
Proof.
  revert b c. induction a as [|x a IH]; intros b c H; simpl in H.
  - inversion H. constructor.
  - destruct b as [|y b]; [inversion H; constructor|].
    destruct (f x y) as [z|e] eqn:Hz; [|discriminate]. cbn [bind] in H.
    destruct (zipM f a b) as [zs|e] eqn:Hzs; [|discriminate]. cbn [bind] in H.
    inversion H. constructor.
    + exists x, y. split; [left; reflexivity|]. split; [left; reflexivity|exact Hz].
    + eapply Forall_impl; [|apply (IH b zs Hzs)].
      intros z' (x' & y' & Hx & Hy & Hf). exists x', y'.
      split; [right; exact Hx|]. split; [right; exact Hy|exact Hf].
Qed.

Lemma bcastM_entries {A B C : Type} (f : A -> B -> result C) (a : list A) (b : list B)
    (c : list C) :
  bcastM f a b = Ok c ->
  Forall (fun z => exists x y, In x a /\ In y b /\ f x y = Ok z) c.
Proof.
  unfold bcastM. destruct (Nat.eqb (length a) (length b)); [apply zipM_entries|].
  intros H.
  assert (Hleft : forall x, a = [x] -> mapM (f x) b = Ok c ->
                    Forall (fun z => exists x y, In x a /\ In y b /\ f x y = Ok z) c).
  { intros x -> Hm. eapply Forall_impl; [|apply (mapM_entries _ _ _ Hm)].
    intros z (y & Hy & Hz). exists x, y. split; [left; reflexivity|]. split; assumption. }
  assert (Hright : forall y, b = [y] -> mapM (fun x => f x y) a = Ok c ->
                     Forall (fun z => exists x y, In x a /\ In y b /\ f x y = Ok z) c).
  { intros y -> Hm. eapply Forall_impl; [|apply (mapM_entries _ _ _ Hm)].
    intros z (x & Hx & Hz). exists x, y. split; [exact Hx|].
    split; [left; reflexivity|exact Hz]. }
  destruct a as [|x [|x' a]]; destruct b as [|y [|y' b]]; try discriminate;
    first [apply (Hleft x eq_refl H) | apply (Hright y eq_refl H)].
Qed.

Lemma bcast2_entries (f : R -> R -> R) (a b c : mat) :
  bcast2 f a b = Ok c ->
  Forall (Forall (fun z => exists ra rb x y,
                    In ra a /\ In x ra /\ In rb b /\ In y rb /\ z = f x y)) c.
Proof.
  intros H. unfold bcast2 in H. apply bcastM_entries in H.
  eapply Forall_impl; [|exact H]. intros row (ra & rb & Hra & Hrb & Hrow).
  unfold bcast1 in Hrow. apply bcastM_entries in Hrow.
  eapply Forall_impl; [|exact Hrow]. intros z (x & y & Hx & Hy & Hz).
  exists ra, rb, x, y. inversion Hz. repeat split; assumption.
Qed.

Lemma column_entries (j : nat) (t col : mat) :
  column j t = Ok col ->
  Forall (Forall (fun v => exists row, In row t /\ nth_error row j = Some v)) col.
Proof.
  intros H. unfold column in H. apply mapM_entries in H.
  eapply Forall_impl; [|exact H]. intros r (row & Hrow & Hr).
  destruct (nth_error row j) as [v|] eqn:Hv; [|discriminate].
  inversion Hr. constructor; [|constructor]. exists row. split; assumption.
Qed.

(** The clip of lines 601-603 takes the lower edge of the box last, so a
    coordinate stays in [0, m] when that edge lies there. *)
Lemma clip_to_bbox_bounds (lo hi : nat) (bbox : option mat) (t t' : mat) (m : R) :
  clip_to_bbox lo hi bbox t = Ok t' ->
  Forall (Forall (fun v => 0 <= v <= m)) t ->
  (forall b, bbox = Some b ->
     Forall (fun box => forall v, nth_error box lo = Some v -> 0 <= v <= m) b) ->
  Forall (Forall (fun v => 0 <= v <= m)) t'.
Proof.
  intros H Ht Hb. destruct bbox as [b|]; simpl in H.
  - specialize (Hb b eq_refl).
    destruct (column hi b) as [upper|e]; [|discriminate]. cbn [bind] in H.
    destruct (column lo b) as [lower|e] eqn:Hl; [|discriminate]. cbn [bind] in H.
    destruct (bcast2 Rmin t upper) as [capped|e] eqn:Hc; [|discriminate].
    cbn [bind] in H.
    apply bcast2_entries in H. apply bcast2_entries in Hc. apply column_entries in Hl.
    eapply Forall_impl; [|exact H]. intros row Hrow.
    eapply Forall_impl; [|exact Hrow].
    intros z (rc & rl & c & l & Hrc & Hcin & Hrl & Hlin & ->).
    assert (Hlb : 0 <= l <= m).
    { pose proof (proj1 (Forall_forall _ _) Hl rl Hrl) as Hrl'.
      destruct (proj1 (Forall_forall _ _) Hrl' l Hlin) as (box & Hbox & Hnth).
      exact (proj1 (Forall_forall _ _) Hb box Hbox l Hnth). }
    assert (Hcb : c <= m).
    { pose proof (proj1 (Forall_forall _ _) Hc rc Hrc) as Hrc'.
      destruct (proj1 (Forall_forall _ _) Hrc' c Hcin)
        as (ra & ru & x & u & Hra & Hx & _ & _ & ->).
      pose proof (proj1 (Forall_forall _ _) Ht ra Hra) as Hra'.
      pose proof (proj1 (Forall_forall _ _) Hra' x Hx) as [_ Hxm].
      eapply Rle_trans; [apply Rmin_l|exact Hxm]. }
    split.
    + eapply Rle_trans; [exact (proj1 Hlb)|apply Rmax_r].
    + apply Rmax_lub; [exact Hcb|exact (proj2 Hlb)].
  - inversion H. subst t'. exact Ht.
Qed.

Lemma clip_to_shape_bounds (m : Z) (t : mat) :
  (1 <= m)%Z -> Forall (Forall (fun v => 0 <= v <= IZR (m - 1))) (clip_to_shape (Some m) t).
Proof.
  intros Hm. simpl. apply Forall_map. apply Forall_forall. intros row _.
  apply Forall_map. apply Forall_forall. intros v _.
  apply clamp_bounds. apply IZR_le. lia.
Qed.

(** X3.  Whenever [distance2mask] returns with max_shape = (h, w), h and w at
    least 1, and is called without a clip box or with clip boxes whose corner
    (x1, y1) lies in the image, every vertex of every polygon lies in the
    image: x in [0, w - 1] and y in [0, h - 1].  The clip box is applied
    after the image clamp and its lower edge last, which is why the corner
    matters. *)
Theorem distance2mask_inside_image (self : FourierNetHead) (points : list (R * R))
    (distances : mask_tensor) (h w : Z) (train : bool) (bbox : option mat)
    (polys : polygons) (d : mat) :
  (1 <= h)%Z -> (1 <= w)%Z ->
  (forall b, bbox = Some b ->
     Forall (fun box =>
               (forall x1, nth_error box 0 = Some x1 -> 0 <= x1 <= IZR (w - 1)) /\
               (forall y1, nth_error box 1 = Some y1 -> 0 <= y1 <= IZR (h - 1))) b) ->
  distance2mask self points distances (Some (h, w)) train bbox = Ok (polys, d) ->
  Forall (fun poly =>
            Forall (fun x => 0 <= x <= IZR (w - 1)) (fst poly) /\
            Forall (fun y => 0 <= y <= IZR (h - 1)) (snd poly)) polys.
Proof.
  intros Hh Hw Hbox H. unfold distance2mask, distance2mask_traced in H.
  destruct (decode_distances self train distances) as [d0|e]; [|discriminate].
  cbn [snd] in H.
  destruct (bcast2 Rmult d0 _) as [xs|e]; [|discriminate]. cbn [bind] in H.
  destruct (bcast2 Rplus xs _) as [x|e]; [|discriminate]. cbn [bind] in H.
  destruct (bcast2 Rmult d0 _) as [ys|e]; [|discriminate]. cbn [bind] in H.
  destruct (bcast2 Rplus ys _) as [y|e]; [|discriminate]. cbn [bind option_map snd fst] in H.
  destruct (clip_to_bbox 0 2 bbox (clip_to_shape (Some w) x)) as [x'|e] eqn:Hx;
    [|discriminate]. cbn [bind] in H.
  destruct (clip_to_bbox 1 3 bbox (clip_to_shape (Some h) y)) as [y'|e] eqn:Hy;
    [|discriminate]. cbn [bind] in H.
  destruct (Nat.eqb (length x') (length y')); [|discriminate]. cbn [bind] in H.
  inversion H. subst polys d.
  apply clip_to_bbox_bounds with (m := IZR (w - 1)) in Hx;
    [|apply clip_to_shape_bounds; exact Hw|].
  2:{ intros b Hb. eapply Forall_impl; [|exact (Hbox b Hb)]. intros box [H1 _]. exact H1. }
  apply clip_to_bbox_bounds with (m := IZR (h - 1)) in Hy;
    [|apply clip_to_shape_bounds; exact Hh|].
  2:{ intros b Hb. eapply Forall_impl; [|exact (Hbox b Hb)]. intros box [_ H1]. exact H1. }
  apply Forall_forall. intros [xr yr] Hin. cbn [fst snd]. split.
  - apply in_combine_l in Hin. exact (proj1 (Forall_forall _ _) Hx xr Hin).
  - apply in_combine_r in Hin. exact (proj1 (Forall_forall _ _) Hy yr Hin).
Qed.

Lemma distance2mask_inside_image_witness :
  exists polys d,
    distance2mask (example_head false false false false) [(4, 4); (12, 4)]
      (Rays [[1; 2; 3; 4]; [5; 6; 7; 8]]) (Some (32, 32)%Z) false
      (Some [[2; 2; 10; 10]; [3; 3; 9; 9]]) = Ok (polys, d) /\
    Forall (fun poly =>
              Forall (fun x => 0 <= x <= IZR (32 - 1)) (fst poly) /\
              Forall (fun y => 0 <= y <= IZR (32 - 1)) (snd poly)) polys.
Proof.
  eexists _, _. split; [reflexivity|].
  eapply (distance2mask_inside_image (example_head false false false false)
            [(4, 4); (12, 4)] (Rays [[1; 2; 3; 4]; [5; 6; 7; 8]]) 32 32 false
            (Some [[2; 2; 10; 10]; [3; 3; 9; 9]]));
    [lia|lia| |reflexivity].
  intros b Hb. inversion Hb. subst b.
  repeat apply Forall_cons; try apply Forall_nil;
    split; intros v Hv; inversion Hv; subst v; simpl; lra.
Defined.

(** Without the condition on the corner the vertices can leave the image: a
    clip box to the upper left of the image pulls every x to its right edge
    -1. *)
Lemma clip_box_outside_image :
  exists polys d,
    distance2mask (example_head false false false false) [(4, 4)]
      (Rays [[1; 2; 3; 4]]) (Some (32, 32)%Z) false (Some [[-5; -5; -1; -1]])
    = Ok (polys, d) /\
    Forall (fun poly => Forall (fun x => x = -1) (fst poly)) polys.
Proof.
  eexists _, _. split; [reflexivity|].
  assert (Hclip : forall v, Rmax (Rmin (clamp 0 (IZR (32 - 1)) v) (-1)) (-5) = -1).
  { intros v. pose proof (clamp_bounds (IZR (32 - 1)) v) as Hb.
    assert (0 <= IZR (32 - 1)) by (apply IZR_le; lia). specialize (Hb H).
    rewrite Rmin_right by lra. apply Rmax_left. lra. }
  repeat constructor; apply Hclip.
Qed.

Lemma bcast1_mismatch (f : R -> R -> R) (a b : vec) :
  (2 <= length a)%nat -> (2 <= length b)%nat -> length a <> length b ->
  raised (bcast1 f a b).
Proof.
  intros Ha Hb Hne. unfold bcast1, bcastM.
  destruct (Nat.eqb_spec (length a) (length b)) as [E|_]; [contradiction|].
  destruct a as [|x [|x' a]]; simpl in Ha; try lia.
  destruct b as [|y [|y' b]]; simpl in Hb; try lia.
  eexists. reflexivity.
Qed.

Lemma table_mismatch (self : FourierNetHead) (points : list (R * R))
    (distances : mask_tensor) (max_shape : option (Z * Z)) (train : bool)
    (bbox : option mat) (d : mat) (K : nat) :
  decode_distances self train distances = Ok d ->
  d <> [] -> length d = length points ->
  Forall (fun row => length row = K) d ->
  (2 <= K)%nat -> (2 <= length (angles self))%nat -> K <> length (angles self) ->
  raised (distance2mask self points distances max_shape train bbox).
Proof.
  intros Hd Hne Hlen Hrows HK HL Hdiff.
  unfold distance2mask, distance2mask_traced. rewrite Hd. cbn [snd].
  apply raised_bind. intros xs Hxs. exfalso.
  destruct d as [|row d']; [congruence|]. destruct points as [|p ps]; [discriminate|].
  unfold bcast2, bcastM in Hxs. simpl in Hlen.
  simpl length in Hxs. rewrite repeat_length in Hxs.
  replace (Nat.eqb (S (length d')) (S (length ps))) with true in Hxs
    by (symmetry; apply Nat.eqb_eq; lia).
  simpl in Hxs. inversion Hrows as [|? ? Hrow _]; subst.
  destruct (bcast1_mismatch Rmult row (map sin (angles self))) as [e He];
    rewrite ?length_map; try assumption.
  rewrite He in Hxs. discriminate.
Qed.

(** X4.  A head built with a contour_points value K that does not divide 360
    cannot decode: its angle table has more than K entries, so for every
    non-empty batch whose decoded distances have K entries per point
    [distance2mask] raises on the product with the table. *)
Theorem contour_points_must_divide_360 (num_classes : Z) (strides : list Z)
    (regress_ranges : list (R * R)) (mask_nms bbox_from_mask loss_on_coe : bool)
    (K : Z) (use_fourier : bool) (num_coe visulize_coe : Z) (centerness_factor : R)
    (self : FourierNetHead) (points : list (R * R)) (distances : mask_tensor)
    (max_shape : option (Z * Z)) (train : bool) (bbox : option mat) (d : mat) :
  __init__ num_classes strides regress_ranges mask_nms bbox_from_mask loss_on_coe
           K use_fourier num_coe visulize_coe centerness_factor = Ok self ->
  (360 mod K <> 0)%Z ->
  decode_distances self train distances = Ok d ->
  d <> [] -> length d = length points ->
  Forall (fun row => length row = Z.to_nat K) d ->
  raised (distance2mask self points distances max_shape train bbox).
Proof.
  intros Hinit Hmod Hd Hne Hlen Hrows.
  assert (HK : (1 <= K <= 360)%Z).
  { destruct (Z.le_gt_cases K 0) as [H0|H0].
    - destruct (init_rejects num_classes strides regress_ranges mask_nms bbox_from_mask
                  loss_on_coe K use_fourier num_coe visulize_coe centerness_factor)
        as [e He]; [left; exact H0|]. rewrite He in Hinit. discriminate.
    - destruct (Z.le_gt_cases K 360) as [H1|H1]; [lia|].
      destruct (init_rejects num_classes strides regress_ranges mask_nms bbox_from_mask
                  loss_on_coe K use_fourier num_coe visulize_coe centerness_factor)
        as [e He]; [right; lia|]. rewrite He in Hinit. discriminate. }
  destruct (init_accepts num_classes strides regress_ranges mask_nms bbox_from_mask
              loss_on_coe K use_fourier num_coe visulize_coe centerness_factor HK)
    as (self' & Hs & _ & Hle & Hiff).
  rewrite Hs in Hinit. inversion Hinit; subst self'.
  assert (K <> 1)%Z by (intros ->; apply Hmod; reflexivity).
  apply (table_mismatch self points distances max_shape train bbox d (Z.to_nat K));
    try assumption; lia.
Qed.

Lemma contour_points_must_divide_360_witness :
  exists self,
    __init__ 81 [8]%Z [] false false false 7 false 36 36 (1 / 2) = Ok self /\
    raised (distance2mask self [(4, 4)] (Rays [[1; 1; 1; 1; 1; 1; 1]])
              (Some (32, 32)%Z) false None).
Proof.
  eexists. split; [reflexivity|].
  eapply (contour_points_must_divide_360 81 [8]%Z [] false false false 7 false 36 36
            (1 / 2) _ [(4, 4)] (Rays [[1; 1; 1; 1; 1; 1; 1]]) (Some (32, 32)%Z) false
            None [[1; 1; 1; 1; 1; 1; 1]]);
    try reflexivity; [discriminate|discriminate|repeat constructor].
Defined.

(** ** Boxes from polygons *)

Lemma mapM_ok_each {A B : Type} (f : A -> result B) (l : list A) (bs : list B) :
  mapM f l = Ok bs -> Forall (fun a => exists b, f a = Ok b) l.
Proof.
  revert bs. induction l as [|a l IH]; simpl; intros bs H; [constructor|].
  destruct (f a) as [b|e] eqn:E; [|discriminate]. simpl in H.
  destruct (mapM f l) as [bs'|e]; [|discriminate].
  constructor; [exists b; exact E|]. eapply IH. reflexivity.
Qed.

Lemma min_dim_nonempty (t : mat) (v : vec) :
  min_dim t = Ok v -> Forall (fun row => row <> []) t.
Proof.
  intros H. apply mapM_ok_each in H. eapply Forall_impl; [|exact H].
  intros [|x row] [b Hb]; [discriminate|discriminate].
Qed.

Lemma mask_extent_rows (a : polygons) :
  Forall (fun poly => fst poly <> [] /\ snd poly <> []) a ->
  mask_extent a
  = Ok (map (fun poly => [row_min (fst poly); row_min (snd poly);
                          row_max (fst poly); row_max (snd poly)]) a).
Proof.
  intros H. unfold mask_extent.
  assert (Hx : Forall (fun row => row <> []) (map fst a))
    by (apply Forall_map; eapply Forall_impl; [|exact H]; intros p [Hp _]; exact Hp).
  assert (Hy : Forall (fun row => row <> []) (map snd a))
    by (apply Forall_map; eapply Forall_impl; [|exact H]; intros p [_ Hp]; exact Hp).
  rewrite (min_dim_total _ Hx), (min_dim_total _ Hy), (max_dim_total _ Hx),
    (max_dim_total _ Hy). cbv [bind]. rewrite !map_map.
  rewrite (combine_map_same (fun p => row_min (fst p)) (fun p => row_min (snd p))).
  rewrite <- (map_map (fun p : vec * vec => (row_min (fst p), row_min (snd p))) (fun q => q)),
    map_id.
  rewrite (combine_map_same (fun p : vec * vec => (row_min (fst p), row_min (snd p)))
             (fun p => row_max (fst p))).
  rewrite (combine_map_same
             (fun p : vec * vec => (row_min (fst p), row_min (snd p), row_max (fst p)))
             (fun p => row_max (snd p))).
  rewrite map_map. reflexivity.
Qed.

Lemma mask_extent_nonempty (a : polygons) (boxes : mat) :
  mask_extent a = Ok boxes ->
  Forall (fun poly => fst poly <> [] /\ snd poly <> []) a.
Proof.
  intros H. unfold mask_extent in H. bind_inv H.
  repeat match goal with
         | Hm : min_dim _ = Ok _ |- _ => apply min_dim_nonempty in Hm
         end.
  match goal with
  | H1 : Forall _ (map fst a), H2 : Forall _ (map snd a) |- _ =>
      rewrite Forall_map in H1, H2; rewrite Forall_forall in H1, H2
  end.
  apply Forall_forall. intros p Hp. split; auto.
Qed.

Lemma mask_extent_extents (a : polygons) (boxes : mat) :
  mask_extent a = Ok boxes -> Forall2 extent_of a boxes.
Proof.
  intros H. pose proof (mask_extent_nonempty a boxes H) as Ha.
  rewrite (mask_extent_rows a Ha) in H. inversion H; subst boxes. clear H.
  induction Ha as [|poly a [Hx Hy] _ IH]; simpl; constructor; [|apply IH].
  destruct (row_min_spec _ Hx) as [? ?]. destruct (row_max_spec _ Hx) as [? ?].
  destruct (row_min_spec _ Hy) as [? ?]. destruct (row_max_spec _ Hy) as [? ?].
  exists (row_min (fst poly)), (row_min (snd poly)),
         (row_max (fst poly)), (row_max (snd poly)).
  repeat split; auto.
Qed.

(** X5.  The box that the head derives from a polygon (bbox_from_mask, and the
    NMS box under mask_nms) is the polygon's tight extent: it contains every
    vertex and each side passes through a vertex.  The derivation succeeds
    exactly when every polygon has at least one vertex. *)
Theorem mask_extent_encloses (a : polygons) :
  (forall boxes, mask_extent a = Ok boxes -> Forall2 extent_of a boxes) /\
  ((exists boxes, mask_extent a = Ok boxes)
   <-> Forall (fun poly => fst poly <> [] /\ snd poly <> []) a).
Proof.
  split; [|split].
  - intros boxes H. apply mask_extent_extents. exact H.
  - intros [boxes H]. apply (mask_extent_nonempty a boxes). exact H.
  - intros Ha. exists (map (fun poly => [row_min (fst poly); row_min (snd poly);
                                         row_max (fst poly); row_max (snd poly)]) a).
    apply mask_extent_rows. exact Ha.
Qed.

Lemma mask_extent_encloses_witness :
  exists boxes,
    mask_extent [([0; 3; 1], [2; 5; 4])] = Ok boxes /\
    Forall2 extent_of [([0; 3; 1], [2; 5; 4])] boxes.
Proof.
  eexists. split; [reflexivity|].
  apply (proj1 (mask_extent_encloses [([0; 3; 1], [2; 5; 4])])). reflexivity.
Defined.

(** ** Flattening order *)

Lemma concat_flat_map {A B : Type} (g : A -> list (list B)) (l : list A) :
  concat (flat_map g l) = flat_map (fun a => concat (g a)) l.
Proof.
  induction l as [|a l IH]; simpl; [reflexivity|]. rewrite concat_app, IH. reflexivity.
Qed.

Lemma permute_flat3_rows (t : tensor3) : permute_flat3 t = concat (pixel_rows t).
Proof.
  unfold permute_flat3, pixel_rows. destruct (size3 t) as [[c h] w].
  rewrite concat_flat_map. apply flat_map_ext. intros y.
  rewrite flat_map_concat_map. reflexivity.
Qed.

Lemma pixel_rows_width (t : tensor3) (c h w : nat) :
  size3 t = (c, h, w) -> Forall (fun row => length row = c) (pixel_rows t).
Proof.
  intros Hs. unfold pixel_rows. rewrite Hs. apply Forall_flat_map.
  apply Forall_forall. intros y _. apply Forall_map. apply Forall_forall.
  intros x _. rewrite length_map, length_seq. reflexivity.
Qed.

Lemma pixel_rows_length (t : tensor3) (c h w : nat) :
  size3 t = (c, h, w) -> length (pixel_rows t) = (h * w)%nat.
Proof.
  intros Hs. unfold pixel_rows. rewrite Hs.
  rewrite (length_blocks _ w) by (intros; rewrite length_map, length_seq; reflexivity).
  rewrite length_seq. reflexivity.
Qed.

Lemma pixel_rows_nth (t : tensor3) (c h w y x : nat) :
  size3 t = (c, h, w) -> (y < h)%nat -> (x < w)%nat ->
  nth_error (pixel_rows t) (y * w + x) = Some (map (fun ch => get3 t ch y x) (seq 0 c)).
Proof.
  intros Hs Hy Hx. unfold pixel_rows. rewrite Hs.
  rewrite (nth_error_blocks _ w _ y x y).
  - apply (nth_error_map_seq (fun x => map (fun ch => get3 t ch y x) (seq 0 c))). exact Hx.
  - intros; rewrite length_map, length_seq; reflexivity.
  - exact Hx.
  - rewrite nth_error_seq. destruct (Nat.ltb_spec y h); [reflexivity|lia].
Qed.

Lemma reshape_pixel_rows (t : tensor3) (c h w : nat) :
  size3 t = (c, h, w) -> (0 < c)%nat ->
  reshape_rows (Z.of_nat c) (permute_flat3 t) = Ok (pixel_rows t).
Proof.
  intros Hs Hc. rewrite permute_flat3_rows. apply reshape_rows_concat; [exact Hc|].
  eapply pixel_rows_width. exact Hs.
Qed.

Lemma reshape_pixel_rows_Z (t : tensor3) (k : Z) (h w : nat) :
  size3 t = (Z.to_nat k, h, w) -> (0 < k)%Z ->
  reshape_rows k (permute_flat3 t) = Ok (pixel_rows t).
Proof.
  intros Hs Hk. rewrite <- (Z2Nat.id k) at 1 by lia.
  apply (reshape_pixel_rows t (Z.to_nat k) h w Hs). lia.
Qed.

Lemma nth_error_concat_rows {A : Type} (w : nat) (rows : list (list A)) (i j : nat)
    (r : list A) :
  Forall (fun row => length row = w) rows -> (j < w)%nat ->
  nth_error rows i = Some r -> nth_error (concat rows) (i * w + j) = nth_error r j.
Proof.
  intros Hrows Hj. revert i. induction Hrows as [|row rows Hrow _ IH]; intros i Hi.
  - destruct i; discriminate.
  - destruct i as [|i]; simpl in *.
    + inversion Hi; subst. apply nth_error_app1. lia.
    + rewrite nth_error_app2 by lia.
      replace (w + i * w + j - length row)%nat with (i * w + j)%nat by lia.
      apply IH. exact Hi.
Qed.

Lemma grid_points (h w : nat) (s : Z) (points : list (R * R)) :
  get_points_single (h, w) s = Ok points ->
  length points = (h * w)%nat /\
  forall y x, (y < h)%nat -> (x < w)%nat ->
    nth_error points (y * w + x)
    = Some (IZR (s * Z.of_nat x + s / 2), IZR (s * Z.of_nat y + s / 2)).
Proof.
  intros H. destruct (Z.eq_dec s 0) as [->|Hs].
  - destruct (proj2 (get_points_single_raises h w 0) eq_refl) as [e He].
    rewrite He in H. discriminate.
  - rewrite get_points_single_grid in H by exact Hs. inversion H; subst points. split.
    + rewrite (length_blocks _ w) by (intros; rewrite length_map, length_seq; reflexivity).
      rewrite length_seq. reflexivity.
    + intros y x Hy Hx. rewrite (nth_error_blocks _ w _ y x y).
      * rewrite nth_error_map_seq by exact Hx. rewrite <- !plus_IZR.
        do 2 f_equal; f_equal; ring.
      * intros; rewrite length_map, length_seq; reflexivity.
      * exact Hx.
      * rewrite nth_error_seq. destruct (Nat.ltb_spec y h); [reflexivity|lia].
Qed.

(** X6.  For the tensors of one level with the configured channel counts and a
    common H x W size, [flatten_level] succeeds and keeps the point grid and
    the predictions aligned: every flattened tensor has H * W rows, and row
    y * W + x of each holds the channels of cell (y, x) (after the sigmoid,
    for scores and centerness), which is the cell of point y * W + x of the
    grid. *)
Theorem flatten_level_aligned (self : FourierNetHead)
    (cls_score bbox_pred mask_pred centerness : tensor3) (h w : nat) (stride : Z)
    (points : list (R * R)) :
  (0 < cls_out_channels self)%Z ->
  (0 < (if use_fourier self then num_coe self * 2 else contour_points self))%Z ->
  size3 cls_score = (Z.to_nat (cls_out_channels self), h, w) ->
  size3 bbox_pred = (4%nat, h, w) ->
  size3 mask_pred
  = (Z.to_nat (if use_fourier self then num_coe self * 2 else contour_points self), h, w) ->
  size3 centerness = (1%nat, h, w) ->
  get_points_single (h, w) stride = Ok points ->
  exists lv,
    flatten_level self cls_score bbox_pred mask_pred centerness points = Ok lv /\
    length (lv_points lv) = (h * w)%nat /\
    length (lv_scores lv) = (h * w)%nat /\
    length (lv_bbox_pred lv) = (h * w)%nat /\
    length (lv_mask_pred lv) = (h * w)%nat /\
    length (lv_centerness lv) = (h * w)%nat /\
    forall y x, (y < h)%nat -> (x < w)%nat ->
      nth_error (lv_points lv) (y * w + x)
      = Some (IZR (stride * Z.of_nat x + stride / 2),
              IZR (stride * Z.of_nat y + stride / 2)) /\
      nth_error (lv_scores lv) (y * w + x)
      = Some (map (fun ch => sigmoid (get3 cls_score ch y x))
                  (seq 0 (Z.to_nat (cls_out_channels self)))) /\
      nth_error (lv_bbox_pred lv) (y * w + x)
      = Some (map (fun ch => get3 bbox_pred ch y x) (seq 0 4)) /\
      nth_error (lv_mask_pred lv) (y * w + x)
      = Some (map (fun ch => get3 mask_pred ch y x)
                  (seq 0 (Z.to_nat (if use_fourier self then num_coe self * 2
                                    else contour_points self)))) /\
      nth_error (lv_centerness lv) (y * w + x) = Some (sigmoid (get3 centerness 0 y x)).
Proof.
  intros Hc Hm Hcls Hbbox Hmask Hctr Hpts.
  destruct (grid_points h w stride points Hpts) as [Hplen Hpnth].
  set (mc := (if use_fourier self then num_coe self * 2 else contour_points self)%Z) in *.
  unfold flatten_level. unfold featmap_size3. rewrite Hcls, Hbbox. cbn [fst snd].
  rewrite !Nat.eqb_refl. cbn [andb assert]. cbv beta delta [bind]. cbv iota.
  rewrite (reshape_pixel_rows_Z cls_score _ h w Hcls Hc).
  rewrite (reshape_pixel_rows_Z bbox_pred 4 h w Hbbox) by lia.
  fold mc. rewrite (reshape_pixel_rows_Z mask_pred mc h w Hmask Hm).
  eexists. split; [reflexivity|]. cbn [lv_points lv_scores lv_bbox_pred lv_mask_pred
                                       lv_centerness].
  assert (Hcrows : Forall (fun row => length row = 1%nat) (pixel_rows centerness))
    by (eapply pixel_rows_width; exact Hctr).
  split; [exact Hplen|]. split; [rewrite length_map; eapply pixel_rows_length; eassumption|].
  split; [eapply pixel_rows_length; eassumption|].
  split; [eapply pixel_rows_length; eassumption|].
  split.
  { rewrite length_map, permute_flat3_rows, (length_concat_rows 1) by exact Hcrows.
    pose proof (pixel_rows_length centerness 1 h w Hctr) as E.
    unfold mat, vec in *. lia. }
  intros y x Hy Hx.
  split; [apply Hpnth; assumption|].
  split.
  { pose proof (pixel_rows_nth cls_score _ h w y x Hcls Hy Hx) as E.
    unfold mat, vec in E. rewrite nth_error_map, E. simpl. rewrite map_map. reflexivity. }
  split; [apply (pixel_rows_nth bbox_pred 4 h w y x Hbbox Hy Hx)|].
  split; [apply (pixel_rows_nth mask_pred _ h w y x Hmask Hy Hx)|].
  pose proof (nth_error_concat_rows 1 _ (y * w + x) 0 _ Hcrows (Nat.lt_0_1)
                (pixel_rows_nth centerness 1 h w y x Hctr Hy Hx)) as E.
  replace ((y * w + x) * 1 + 0)%nat with (y * w + x)%nat in E by lia.
  unfold mat, vec in E. rewrite nth_error_map, permute_flat3_rows, E. reflexivity.
Qed.

Lemma flatten_level_aligned_witness :
  exists lv,
    flatten_level (example_head false false false false) ramp3 (const3 4 1 3 0)
      (const3 4 1 3 0) (const3 1 1 3 0) example_points = Ok lv /\
    length (lv_points lv) = (1 * 3)%nat /\
    length (lv_scores lv) = (1 * 3)%nat /\
    length (lv_bbox_pred lv) = (1 * 3)%nat /\
    length (lv_mask_pred lv) = (1 * 3)%nat /\
    length (lv_centerness lv) = (1 * 3)%nat /\
    forall y x, (y < 1)%nat -> (x < 3)%nat ->
      nth_error (lv_points lv) (y * 3 + x)
      = Some (IZR (8 * Z.of_nat x + 8 / 2), IZR (8 * Z.of_nat y + 8 / 2)) /\
      nth_error (lv_scores lv) (y * 3 + x)
      = Some (map (fun ch => sigmoid (get3 ramp3 ch y x)) (seq 0 (Z.to_nat 1))) /\
      nth_error (lv_bbox_pred lv) (y * 3 + x)
      = Some (map (fun ch => get3 (const3 4 1 3 0) ch y x) (seq 0 4)) /\
      nth_error (lv_mask_pred lv) (y * 3 + x)
      = Some (map (fun ch => get3 (const3 4 1 3 0) ch y x) (seq 0 (Z.to_nat 4))) /\
      nth_error (lv_centerness lv) (y * 3 + x)
      = Some (sigmoid (get3 (const3 1 1 3 0) 0 y x)).
Proof.
  apply (flatten_level_aligned (example_head false false false false) ramp3
           (const3 4 1 3 0) (const3 4 1 3 0) (const3 1 1 3 0) 1 3 8 example_points);
    try reflexivity.
  unfold get_points_single, example_points. simpl.
  repeat f_equal; rewrite <- plus_IZR; apply IZR_eq; reflexivity.
Defined.

(** ** Scores handed to the NMS step *)

Lemma sigmoid_probability (x : R) : probability (sigmoid x).
Proof.
  unfold probability, sigmoid. pose proof (exp_pos (- x)) as He. split.
  - apply Rdiv_lt_0_compat; lra.
  - apply (Rmult_lt_reg_r (1 + exp (- x))); [lra|]. field_simplify; lra.
Qed.

Lemma index_rows_Forall {A : Type} (P : A -> Prop) (t : list A) (inds : list nat)
    (r : list A) :
  index_rows t inds = Ok r -> Forall P t -> Forall P r.
Proof.
  intros H Ht. unfold index_rows in H.
  eapply (mapM_Forall _ (fun _ => True)); [|apply Forall_forall; intros; exact I|exact H].
  intros i a _ Hi. simpl in Hi. destruct (nth_error t i) as [a'|] eqn:E; [|discriminate].
  inversion Hi; subst. rewrite Forall_forall in Ht. apply Ht.
  eapply nth_error_In. exact E.
Qed.

Section Scores.

Context {nms_cfg : Type}.
Variable distance2bbox : list (R * R) -> mat -> option (Z * Z) -> result mat.

Lemma flatten_level_probabilities (self : FourierNetHead)
    (cls_score bbox_pred mask_pred centerness : tensor3) (points : list (R * R))
    (lv : level_preds) :
  flatten_level self cls_score bbox_pred mask_pred centerness points = Ok lv ->
  Forall (Forall probability) (lv_scores lv) /\ Forall probability (lv_centerness lv).
Proof.
  intros H. unfold flatten_level in H. bind_inv H. simpl. split.
  - apply Forall_map. apply Forall_forall. intros row _. apply Forall_map.
    apply Forall_forall. intros v _. apply sigmoid_probability.
  - apply Forall_map. apply Forall_forall. intros v _. apply sigmoid_probability.
Qed.

Lemma prefilter_probabilities (cfg : test_cfg nms_cfg) (lv lv' : level_preds) :
  prefilter cfg lv = Ok lv' ->
  Forall (Forall probability) (lv_scores lv) /\ Forall probability (lv_centerness lv) ->
  Forall (Forall probability) (lv_scores lv') /\ Forall probability (lv_centerness lv').
Proof.
  intros H [Hs Hc]. unfold prefilter in H.
  destruct (andb _ _); [|inversion H; subst; split; assumption].
  bind_inv H. simpl. split; eapply index_rows_Forall; eassumption.
Qed.

Lemma level_step_probabilities (self : FourierNetHead) (img_shape : Z * Z)
    (cfg : test_cfg nms_cfg) (lvl : level_inputs) (bboxes scores : mat)
    (centerness : vec) (masks : polygons) :
  level_step nms_cfg distance2bbox self img_shape cfg lvl
  = Ok (bboxes, scores, centerness, masks) ->
  Forall (Forall probability) scores /\ Forall probability centerness.
Proof.
  intros H. unfold level_step in H. destruct lvl as [[[[cls bb] mk] ct] pts].
  bind_inv H.
  eapply prefilter_probabilities; [eassumption|].
  eapply flatten_level_probabilities; eassumption.
Qed.

(** X7.  Whenever the per-level work of [get_bboxes_single] goes through, the
    score tensor prepared for the NMS step has an explicit background column:
    every row is 0 followed by class scores strictly between 0 and 1; the
    centerness values are strictly between 0 and 1 as well, so each score
    factor centerness + centerness_factor lies strictly between
    centerness_factor and centerness_factor + 1. *)
Theorem gather_levels_scores (self : FourierNetHead)
    (cls_scores bbox_preds mask_preds centernesses : list tensor3)
    (mlvl_points : list (list (R * R))) (img_shape : Z * Z)
    (scale_factor : scale_factor_t) (cfg : test_cfg nms_cfg) (rescale : option bool)
    (g : gathered) :
  gather_levels nms_cfg distance2bbox self cls_scores bbox_preds mask_preds
    centernesses mlvl_points img_shape scale_factor cfg rescale = Ok g ->
  Forall (fun row => exists r, row = 0 :: r /\ Forall probability r) (mlvl_scores g) /\
  Forall probability (mlvl_centerness g) /\
  Forall (fun f => centerness_factor self < f < centerness_factor self + 1)
         (map (fun c => c + centerness_factor self) (mlvl_centerness g)).
Proof.
  intros H. unfold gather_levels in H. bind_inv H.
  match goal with
  | Hl : mapM (level_step _ _ _ _ _) _ = Ok ?levels |- _ =>
      assert (Hlv : Forall (fun l => Forall (Forall probability) (snd (fst (fst l)))
                                     /\ Forall probability (snd (fst l))) levels)
  end.
  { eapply (mapM_Forall _ (fun _ => True)); [|apply Forall_forall; intros; exact I|eassumption].
    intros lvl [[[b s] c] m] _ Hstep. simpl.
    eapply level_step_probabilities. exact Hstep. }
  simpl.
  assert (Hc : Forall probability (mlvl_centerness
            {| mlvl_bboxes := a1; mlvl_masks := a2; _mlvl_bboxes := o; _mlvl_masks := o0;
               mlvl_scores := map (fun row => 0 :: row) a3; mlvl_centerness := a4 |})).
  { simpl. eapply cat_Forall; [eassumption|]. apply Forall_map.
    eapply Forall_impl; [|exact Hlv]. intros l [_ Hl]; exact Hl. }
  simpl in Hc.
  split; [|split].
  - apply Forall_map.
    assert (Hs : Forall (Forall probability) a3).
    { eapply cat_Forall; [eassumption|]. apply Forall_map.
      eapply Forall_impl; [|exact Hlv]. intros l [Hl _]; exact Hl. }
    eapply Forall_impl; [|exact Hs]. intros row Hrow. exists row. split; [reflexivity|exact Hrow].
  - exact Hc.
  - apply Forall_map. eapply Forall_impl; [|exact Hc].
    unfold probability. intros c Hcp. lra.
Qed.

End Scores.

Lemma gather_levels_scores_witness :
  exists g,
    gather_levels unit example_distance2bbox (example_head false false false false)
      [ramp3] [const3 4 1 3 0] [const3 4 1 3 1] [const3 1 1 3 0]
      [example_points] (32, 32)%Z (ScaleScalar 1) (example_cfg None) (Some true) = Ok g /\
    Forall (fun row => exists r, row = 0 :: r /\ Forall probability r) (mlvl_scores g) /\
    Forall probability (mlvl_centerness g) /\
    Forall (fun f => centerness_factor (example_head false false false false) < f
                     < centerness_factor (example_head false false false false) + 1)
           (map (fun c => c + centerness_factor (example_head false false false false))
                (mlvl_centerness g)).
Proof.
  eexists. split; [reflexivity|].
  eapply (gather_levels_scores example_distance2bbox (example_head false false false false)
            [ramp3] [const3 4 1 3 0] [const3 4 1 3 1] [const3 1 1 3 0]
            [example_points] (32, 32)%Z (ScaleScalar 1) (example_cfg None) (Some true)).
  reflexivity.
Defined.

(** ** Inference over a batch *)

Section BatchProperties.

Context {nms_cfg : Type}.
Variable distance2bbox : list (R * R) -> mat -> option (Z * Z) -> result mat.
Variable multiclass_nms_with_mask :
  mat -> mat -> polygons -> R -> nms_cfg -> Z -> vec ->
  result (mat * list Z * polygons).

Lemma get_bboxes_single_unrescaled (self : FourierNetHead)
    (cls_scores bbox_preds mask_preds centernesses : list tensor3)
    (mlvl_points : list (list (R * R))) (img_shape : Z * Z)
    (scale_factor : scale_factor_t) (cfg : test_cfg nms_cfg) (rescale : option bool) :
  truthy rescale = false ->
  raised (get_bboxes_single nms_cfg distance2bbox multiclass_nms_with_mask self
            cls_scores bbox_preds mask_preds centernesses mlvl_points img_shape
            scale_factor cfg rescale).
Proof.
  intros Hr. unfold get_bboxes_single. apply raised_bind. intros g Hg.
  destruct (gather_levels_not_rescaled distance2bbox _ _ _ _ _ _ _ _ _ _ _ Hr Hg)
    as [Hb Hm].
  rewrite (nms_step_unassigned multiclass_nms_with_mask self cfg g Hb Hm).
  eexists. reflexivity.
Qed.

(** X8.  [get_bboxes] returns one result per image.  It passes [rescale] on
    unchanged, and its default is None: on a batch with at least one image a
    false or unset [rescale] makes it raise, so a returned non-empty list
    implies that rescale was set. *)
Theorem get_bboxes_per_image (self : FourierNetHead)
    (cls_scores bbox_preds centernesses mask_preds : list tensor4)
    (img_metas : list img_meta) (cfg : test_cfg nms_cfg) (rescale : option bool) :
  (truthy rescale = false -> img_metas <> [] ->
   raised (get_bboxes nms_cfg distance2bbox multiclass_nms_with_mask self cls_scores
             bbox_preds centernesses mask_preds img_metas cfg rescale)) /\
  (forall results,
     get_bboxes nms_cfg distance2bbox multiclass_nms_with_mask self cls_scores
       bbox_preds centernesses mask_preds img_metas cfg rescale = Ok results ->
     length results = length img_metas).
Proof.
  split.
  - intros Hr Hne. unfold get_bboxes.
    repeat (apply raised_bind; intros ? ?).
    destruct img_metas as [|meta metas]; [congruence|].
    simpl. apply raised_bind. intros dets Hd. exfalso.
    unfold get_bboxes_image in Hd. bind_inv Hd.
    match goal with
    | Hs : get_bboxes_single _ _ _ _ ?a ?b ?c ?d ?e ?f ?g ?h ?r = Ok _ |- _ =>
        destruct (get_bboxes_single_unrescaled self a b c d e f g h r Hr) as [e' He'];
        rewrite He' in Hs; discriminate
    end.
  - intros results H. unfold get_bboxes in H. bind_inv H.
    match goal with
    | Hm : mapM _ _ = Ok results |- _ => apply mapM_length in Hm; rewrite Hm
    end.
    rewrite length_combine, length_seq. lia.
Qed.

End BatchProperties.

Lemma get_bboxes_per_image_witness :
  raised (get_bboxes unit example_distance2bbox example_nms
            (example_head false false false false)
            [const4 1 1 1 3 0] [const4 1 4 1 3 0] [const4 1 1 1 3 0] [const4 1 4 1 3 1]
            [{| meta_img_shape := (32, 32)%Z; meta_scale_factor := ScaleScalar 1 |}]
            (example_cfg None) None) /\
  exists results,
    get_bboxes unit example_distance2bbox example_nms
      (example_head false false false false)
      [const4 1 1 1 3 0] [const4 1 4 1 3 0] [const4 1 1 1 3 0] [const4 1 4 1 3 1]
      [{| meta_img_shape := (32, 32)%Z; meta_scale_factor := ScaleScalar 1 |}]
      (example_cfg None) (Some true) = Ok results /\
    length results = 1%nat.
Proof.
  split.
  - apply (proj1 (get_bboxes_per_image example_distance2bbox example_nms
                    (example_head false false false false)
                    [const4 1 1 1 3 0] [const4 1 4 1 3 0] [const4 1 1 1 3 0]
                    [const4 1 4 1 3 1]
                    [{| meta_img_shape := (32, 32)%Z; meta_scale_factor := ScaleScalar 1 |}]
                    (example_cfg None) None)); [reflexivity|discriminate].
  - eexists. split; [reflexivity|].
    apply (proj2 (get_bboxes_per_image example_distance2bbox example_nms
                    (example_head false false false false)
                    [const4 1 1 1 3 0] [const4 1 4 1 3 0] [const4 1 1 1 3 0]
                    [const4 1 4 1 3 1]
                    [{| meta_img_shape := (32, 32)%Z; meta_scale_factor := ScaleScalar 1 |}]
                    (example_cfg None) (Some true))).
    reflexivity.
Defined.

(** ** Scale invariance of the centerness target *)

Lemma Rmin_scale (c p q : R) : 0 <= c -> Rmin (c * p) (c * q) = c * Rmin p q.
Proof.
  intros Hc. unfold Rmin.
  destruct (Rle_dec p q) as [Hpq|Hpq], (Rle_dec (c * p) (c * q)) as [H|H];
    try reflexivity.
  - exfalso. apply H. apply Rmult_le_compat_l; assumption.
  - assert (c * q <= c * p) by (apply Rmult_le_compat_l; lra). lra.
Qed.

Lemma fold_min_scale (c : R) (xs : vec) (x : R) :
  0 <= c ->
  fold_left Rmin (map (fun v => c * v) xs) (c * x) = c * fold_left Rmin xs x.
Proof.
  intros Hc. revert x. induction xs as [|y xs IH]; intros x; simpl; [reflexivity|].
  rewrite <- IH. f_equal. apply Rmin_scale. exact Hc.
Qed.

Lemma fold_max_scale_l (c : R) (xs : vec) (x : R) :
  0 <= c ->
  fold_left Rmax (map (fun v => c * v) xs) (c * x) = c * fold_left Rmax xs x.
Proof.
  intros Hc. revert x. induction xs as [|y xs IH]; intros x; simpl; [reflexivity|].
  rewrite <- IH. f_equal. apply RmaxRmult. exact Hc.
Qed.

Lemma row_min_scale (c : R) (row : vec) :
  0 <= c -> row <> [] -> row_min (map (fun v => c * v) row) = c * row_min row.
Proof.
  intros Hc Hne. destruct row as [|x xs]; [congruence|]. apply fold_min_scale. exact Hc.
Qed.

Lemma row_max_scale (c : R) (row : vec) :
  0 <= c -> row <> [] -> row_max (map (fun v => c * v) row) = c * row_max row.
Proof.
  intros Hc Hne. destruct row as [|x xs]; [congruence|]. apply fold_max_scale_l. exact Hc.
Qed.

(** X9.  The centerness target depends on the ratios of the ray distances
    only: multiplying every distance of a batch of positive target vectors by
    the same factor c > 0 (a rescaled image, a larger object of the same
    shape) leaves [polar_centerness_target] unchanged. *)
Theorem polar_centerness_target_scale_invariant (c : R) (pos_mask_targets : mat) :
  0 < c ->
  Forall (fun row => row <> [] /\ Forall (fun d => 0 < d) row) pos_mask_targets ->
  polar_centerness_target (map (map (fun d => c * d)) pos_mask_targets)
  = polar_centerness_target pos_mask_targets.
Proof.
  intros Hc Ht.
  assert (Hne : Forall (fun row => row <> []) pos_mask_targets)
    by (eapply Forall_impl; [|exact Ht]; intros row [H _]; exact H).
  rewrite (polar_centerness_target_total _ Hne).
  rewrite polar_centerness_target_total.
  - rewrite map_map. f_equal. apply map_ext_in. intros row Hrow.
    rewrite Forall_forall in Ht. destruct (Ht row Hrow) as [Hr Hpos].
    rewrite row_min_scale, row_max_scale by (lra || exact Hr). f_equal.
    destruct (row_max_spec row Hr) as [Hin _].
    rewrite Forall_forall in Hpos. specialize (Hpos _ Hin).
    field. split; lra.
  - apply Forall_map. eapply Forall_impl; [|exact Hne].
    intros [|x row] H; [congruence|discriminate].
Qed.

Lemma polar_centerness_target_scale_invariant_witness :
  polar_centerness_target (map (map (fun d => 2 * d)) [[4; 1; 2]; [3; 3]])
  = polar_centerness_target [[4; 1; 2]; [3; 3]].
Proof.
  apply (polar_centerness_target_scale_invariant 2 [[4; 1; 2]; [3; 3]]); [lra|].
  repeat constructor; try discriminate; lra.
Defined.

(** ** Training and inference decode *)

Lemma chunks_fuel_widths {A : Type} (k fuel : nat) (l : list A) (m : nat) :
  (0 < k)%nat -> length l = (m * k)%nat ->
  Forall (fun row => length row = k) (chunks_fuel fuel k l).
Proof.
  intros Hk. revert l m. induction fuel as [|fuel IH]; intros l m Hl; simpl;
    [constructor|].
  destruct l as [|a l]; [constructor|].
  destruct m as [|m]; [simpl in Hl; discriminate|].
  constructor.
  - rewrite length_firstn. rewrite Hl. simpl. lia.
  - apply (IH _ m). rewrite length_skipn, Hl. simpl. lia.
Qed.

Lemma reshape_rows_widths {A : Type} (k : Z) (flat : list A) (rows : list (list A)) :
  reshape_rows k flat = Ok rows ->
  (0 < k)%Z /\ Forall (fun row => length row = Z.to_nat k) rows.
Proof.
  unfold reshape_rows. destruct (Z.leb_spec k 0) as [|Hk]; [discriminate|].
  destruct (Nat.eqb_spec (length flat mod Z.to_nat k) 0) as [Hm|]; [|discriminate].
  intros H. inversion H. split; [exact Hk|].
  apply (chunks_fuel_widths _ _ _ (length flat / Z.to_nat k)); [lia|].
  pose proof (Nat.div_mod_eq (length flat) (Z.to_nat k)). lia.
Qed.

Lemma pairs_length (n : nat) (l : vec) :
  length l = (2 * n)%nat -> length (pairs l) = n.
Proof.
  revert l. induction n as [|n IH]; intros l Hl.
  - destruct l; [reflexivity|discriminate].
  - destruct l as [|re [|im l]]; simpl in Hl; try lia.
    simpl. f_equal. apply IH. lia.
Qed.

Lemma reshape_coe_flat_widths (c : Z) (flat : vec) (coe : cmat) :
  reshape_coe_flat c flat = Ok coe ->
  (0 < c)%Z /\ Forall (fun row => length row = Z.to_nat c) coe.
Proof.
  intros H. unfold reshape_coe_flat in H. bind_inv H.
  match goal with
  | Hr : reshape_rows _ _ = Ok _ |- _ => apply reshape_rows_widths in Hr; destruct Hr as [Hc Hw]
  end.
  split; [lia|]. apply Forall_map. eapply Forall_impl; [|exact Hw].
  intros row Hrow. apply pairs_length. rewrite Hrow. lia.
Qed.

(** X10.  Under use_fourier with visulize_coe = num_coe, inference decodes a
    flat [n, 2C] prediction to the very distances that training mode decodes
    from its [n, C, 2] view: same values, same errors. *)
Theorem inference_decode_matches_training (self : FourierNetHead) (mask_pred : mat)
    (coe : cmat) :
  use_fourier self = true ->
  visulize_coe self = num_coe self ->
  reshape_coe (num_coe self) mask_pred = Ok coe ->
  decode_distances self false (Rays mask_pred) = decode_distances self true (Coeffs coe).
Proof.
  intros Hf Hv Hc. unfold decode_distances. rewrite Hf, Hv, Hc. cbv beta delta [bind].
  cbv iota. unfold reshape_coe in Hc. apply reshape_coe_flat_widths in Hc.
  destruct Hc as [Hpos Hw].
  replace (map (slice_to (num_coe self)) coe) with coe; [reflexivity|].
  rewrite <- (map_id coe) at 1. apply map_ext_in. intros row Hrow.
  rewrite Forall_forall in Hw. specialize (Hw row Hrow).
  rewrite <- (Z2Nat.id (num_coe self)) by lia. rewrite slice_to_nat.
  symmetry. apply firstn_all2. lia.
Qed.

Lemma inference_decode_matches_training_witness :
  decode_distances (example_head true false false false) false
    (Rays [[1; 0; 2; 0; 3; 0]])
  = decode_distances (example_head true false false false) true
      (Coeffs [[(1, 0); (2, 0); (3, 0)]]).
Proof.
  apply (inference_decode_matches_training (example_head true false false false)
           [[1; 0; 2; 0; 3; 0]] [[(1, 0); (2, 0); (3, 0)]]); reflexivity.
Defined.

(** X11.  In the loss of a Fourier head without loss_on_coe, the ray
    prediction of a level is the training-mode decode of its coefficients
    whether or not bbox_from_mask is set; with bbox_from_mask the box
    prediction is the tight extent of the polygon decoded from the same
    coefficients, and without it no box is produced here. *)
Theorem decode_level_train_distances (self : FourierNetHead) (num_imgs : nat)
    (mask_pred : tensor4) (points : list (R * R)) (b : option mat) (m : mat) :
  use_fourier self = true ->
  decode_level_train self num_imgs (mask_pred, points) = Ok (b, m) ->
  exists coe,
    reshape_coe_flat (num_coe self) (permute_flat4 mask_pred) = Ok coe /\
    decode_distances self true (Coeffs coe) = Ok m /\
    if bbox_from_mask self
    then exists xy boxes,
           distance2mask self (repeat_points num_imgs points) (Coeffs coe) None true None
           = Ok (xy, m) /\
           b = Some boxes /\ Forall2 extent_of xy boxes
    else b = None.
Proof.
  intros Hf H. unfold decode_level_train in H.
  destruct (reshape_coe_flat (num_coe self) (permute_flat4 mask_pred)) as [coe|e] eqn:Hc;
    [|discriminate].
  cbv beta delta [bind] in H. cbv iota in H.
  exists coe. split; [reflexivity|].
  destruct (bbox_from_mask self).
  - destruct (distance2mask self (repeat_points num_imgs points) (Coeffs coe) None true None)
      as [[xy m']|e] eqn:Hd; [|discriminate].
    destruct (mask_extent xy) as [boxes|e] eqn:He; [|discriminate].
    inversion H; subst. split.
    + unfold distance2mask, distance2mask_traced in Hd.
      destruct (decode_distances self true (Coeffs coe)) as [d|e]; [|discriminate].
      cbn [snd] in Hd. bind_inv Hd. reflexivity.
    + exists xy, boxes. split; [reflexivity|]. split; [reflexivity|].
      apply (mask_extent_extents xy boxes He).
  - unfold decode_distances. rewrite Hf.
    bind_inv H. cbv beta delta [bind].
    repeat (cbv iota;
            try match goal with
                | Hz : ?t = Ok _ |- context [?t] => rewrite Hz
                end).
    split; reflexivity.
Qed.

Lemma decode_level_train_distances_witness :
  exists b m,
    decode_level_train (example_head true true false false) 1
      (const4 1 6 1 3 0, example_points) = Ok (b, m) /\
    exists coe,
      reshape_coe_flat (num_coe (example_head true true false false))
        (permute_flat4 (const4 1 6 1 3 0)) = Ok coe /\
      decode_distances (example_head true true false false) true (Coeffs coe) = Ok m /\
      if bbox_from_mask (example_head true true false false)
      then exists xy boxes,
             distance2mask (example_head true true false false)
               (repeat_points 1 example_points) (Coeffs coe) None true None
             = Ok (xy, m) /\
             b = Some boxes /\ Forall2 extent_of xy boxes
      else b = None.
Proof.
  eexists _, _. split; [reflexivity|].
  apply (decode_level_train_distances (example_head true true false false) 1
           (const4 1 6 1 3 0) example_points); reflexivity.
Defined.

(** ** Rescaling to the original image *)

Lemma bcast_row_div (boxes : mat) (a : vec) :
  Forall (fun row => length row = length a) boxes ->
  bcast2 Rdiv boxes [a]
  = Ok (map (fun row => map (fun q => fst q / snd q) (combine row a)) boxes).
Proof.
  intros Hrows. unfold bcast2, bcastM.
  assert (Hmap : mapM (fun x => bcast1 Rdiv x a) boxes
                 = Ok (map (fun row => map (fun q => fst q / snd q) (combine row a)) boxes)).
  { apply mapM_total. eapply Forall_impl; [|exact Hrows].
    intros row Hrow. apply bcast1_same. exact Hrow. }
  destruct boxes as [|r1 [|r2 boxes]].
  - reflexivity.
  - simpl. inversion Hrows; subst. rewrite bcast1_same by assumption. reflexivity.
  - exact Hmap.
Qed.

(** X12.  Rescaling divides component-wise.  With an array scale factor
    (sx, sy, ...) the x coordinates of every polygon are divided by sx and the
    y coordinates by sy, and with four factors each box column is divided by
    its own factor; with a float every coordinate is divided by it.  The
    polygons must have contour_points vertices for the array case. *)
Theorem rescale_componentwise (self : FourierNetHead) (K : nat) (boxes : mat)
    (masks : polygons) (sx sy s3 s4 s : R) :
  contour_points self = Z.of_nat K ->
  Forall (fun row => length row = 4%nat) boxes ->
  Forall (fun p => length (fst p) = K /\ length (snd p) = K) masks ->
  rescale_bboxes boxes (ScaleArray [sx; sy; s3; s4])
  = Ok (map (fun row => map (fun q => fst q / snd q) (combine row [sx; sy; s3; s4])) boxes) /\
  rescale_masks self masks (ScaleArray [sx; sy; s3; s4])
  = Ok (map (fun p => (map (fun v => v / sx) (fst p), map (fun v => v / sy) (snd p))) masks) /\
  rescale_bboxes boxes (ScaleScalar s) = Ok (map (map (fun v => v / s)) boxes) /\
  rescale_masks self masks (ScaleScalar s)
  = Ok (map (fun p => (map (fun v => v / s) (fst p), map (fun v => v / s) (snd p))) masks).
Proof.
  intros HK Hboxes Hmasks. split; [|split; [|split; reflexivity]].
  - unfold rescale_bboxes. apply bcast_row_div. exact Hboxes.
  - unfold rescale_masks. rewrite HK.
    destruct (Z.ltb_spec (Z.of_nat K) 0); [lia|]. rewrite Nat2Z.id. simpl firstn.
    apply mapM_total. eapply Forall_impl; [|exact Hmasks].
    intros [xs ys] [Hx Hy]. simpl in *.
    rewrite bcast2_same.
    + simpl. rewrite <- Hx at 1. rewrite <- Hy at 1.
      rewrite !combine_repeat_r. reflexivity.
    + repeat constructor; simpl; rewrite repeat_length; assumption.
Qed.

Lemma rescale_componentwise_witness :
  rescale_bboxes [[8; 6; 16; 12]] (ScaleArray [2; 3; 2; 3])
  = Ok (map (fun row => map (fun q => fst q / snd q) (combine row [2; 3; 2; 3]))
            [[8; 6; 16; 12]]) /\
  rescale_masks (example_head false false false false) [([8; 8; 8; 8], [6; 6; 6; 6])]
    (ScaleArray [2; 3; 2; 3])
  = Ok (map (fun p => (map (fun v => v / 2) (fst p), map (fun v => v / 3) (snd p)))
            [([8; 8; 8; 8], [6; 6; 6; 6])]) /\
  rescale_bboxes [[8; 6; 16; 12]] (ScaleScalar 2)
  = Ok (map (map (fun v => v / 2)) [[8; 6; 16; 12]]) /\
  rescale_masks (example_head false false false false) [([8; 8; 8; 8], [6; 6; 6; 6])]
    (ScaleScalar 2)
  = Ok (map (fun p => (map (fun v => v / 2) (fst p), map (fun v => v / 2) (snd p)))
            [([8; 8; 8; 8], [6; 6; 6; 6])]).
Proof.
  apply (rescale_componentwise (example_head false false false false) 4
           [[8; 6; 16; 12]] [([8; 8; 8; 8], [6; 6; 6; 6])] 2 3 2 3 2);
    [reflexivity| |]; repeat constructor.
Defined.

(** ** Point sets of all levels *)

Lemma skipn_cons_nth {A : Type} (l : list A) (i : nat) (x : A) (rest : list A) :
  skipn i l = x :: rest -> nth_error l i = Some x /\ skipn (S i) l = rest.
Proof.
  revert l. induction i as [|i IH]; intros l H.
  - destruct l; simpl in H; [discriminate|]. inversion H; subst. split; reflexivity.
  - destruct l as [|a l]; [discriminate|]. simpl in H. apply IH in H. exact H.
Qed.

Lemma skipn_nil_nth {A : Type} (l : list A) (i : nat) :
  skipn i l = [] -> nth_error l i = None.
Proof.
  revert l. induction i as [|i IH]; intros l H.
  - destruct l; [reflexivity|discriminate].
  - destruct l as [|a l]; [reflexivity|]. simpl in H. apply IH. exact H.
Qed.

Lemma get_points_single_ok (sz : nat * nat) (s : Z) :
  s <> 0%Z ->
  exists p, get_points_single sz s = Ok p /\ length p = (fst sz * snd sz)%nat.
Proof.
  intros Hs. destruct sz as [h w].
  destruct (get_points_single (h, w) s) as [p|e] eqn:E.
  - exists p. split; [reflexivity|]. apply (grid_points h w s p E).
  - destruct (proj1 (get_points_single_raises h w s)) as []; [eexists; exact E|].
    contradiction.
Qed.

Lemma get_points_from_levels (self : FourierNetHead) (sizes : list (nat * nat)) (i : nat) :
  (length sizes <= length (skipn i (strides self)))%nat ->
  Forall (fun s => s <> 0%Z) (firstn (length sizes) (skipn i (strides self))) ->
  exists pts,
    get_points_from self i sizes = Ok pts /\
    Forall2 (fun ss p => get_points_single (fst ss) (snd ss) = Ok p /\
                         length p = (fst (fst ss) * snd (fst ss))%nat)
            (combine sizes (skipn i (strides self))) pts.
Proof.
  revert i. induction sizes as [|sz sizes IH]; intros i Hlen Hnz; simpl.
  - exists []. split; [reflexivity|constructor].
  - destruct (skipn i (strides self)) as [|s rest] eqn:E; [simpl in Hlen; lia|].
    destruct (skipn_cons_nth _ _ _ _ E) as [Hn Hrest]. rewrite Hn. cbv [bind].
    simpl in Hnz. inversion Hnz as [|? ? Hs Hnz']; subst.
    destruct (get_points_single_ok sz s Hs) as (p & Hp & Hpl). rewrite Hp.
    destruct (IH (S i)) as (pts & Hpts & Hall).
    + cbn [length] in Hlen. lia.
    + exact Hnz'.
    + rewrite Hpts. exists (p :: pts). split; [reflexivity|].
      constructor; [split; assumption|]. exact Hall.
Qed.

Lemma get_points_from_short (self : FourierNetHead) (sizes : list (nat * nat)) (i : nat) :
  (length (skipn i (strides self)) < length sizes)%nat ->
  Forall (fun s => s <> 0%Z) (skipn i (strides self)) ->
  get_points_from self i sizes = Raise IndexError.
Proof.
  revert i. induction sizes as [|sz sizes IH]; intros i Hlen Hnz; simpl in *; [lia|].
  destruct (skipn i (strides self)) as [|s rest] eqn:E.
  - rewrite (skipn_nil_nth _ _ E). reflexivity.
  - destruct (skipn_cons_nth _ _ _ _ E) as [Hn Hrest]. rewrite Hn. cbv [bind].
    inversion Hnz as [|? ? Hs Hnz']; subst.
    destruct (get_points_single_ok sz s Hs) as (p & Hp & _). rewrite Hp.
    rewrite (IH (S i)); [reflexivity|cbn [length] in Hlen; lia|exact Hnz'].
Qed.

(** X13.  [get_points] pairs level i with strides[i].  With at least as many
    non-zero strides as levels it returns, for every level, the grid of
    [get_points_single] with h * w points; extra strides are ignored.  With
    more levels than strides it raises IndexError. *)
Theorem get_points_levels (self : FourierNetHead) (featmap_sizes : list (nat * nat)) :
  ((length featmap_sizes <= length (strides self))%nat ->
   Forall (fun s => s <> 0%Z) (firstn (length featmap_sizes) (strides self)) ->
   exists mlvl_points,
     get_points self featmap_sizes = Ok mlvl_points /\
     length mlvl_points = length featmap_sizes /\
     Forall2 (fun ss p => get_points_single (fst ss) (snd ss) = Ok p /\
                          length p = (fst (fst ss) * snd (fst ss))%nat)
             (combine featmap_sizes (strides self)) mlvl_points) /\
  ((length (strides self) < length featmap_sizes)%nat ->
   Forall (fun s => s <> 0%Z) (strides self) ->
   get_points self featmap_sizes = Raise IndexError).
Proof.
  unfold get_points. split.
  - intros Hlen Hnz.
    destruct (get_points_from_levels self featmap_sizes 0 Hlen Hnz) as (pts & Hp & Hall).
    exists pts. split; [exact Hp|]. split; [|exact Hall].
    apply Forall2_length in Hall. simpl in Hall.
    rewrite length_combine in Hall. lia.
  - intros Hlen Hnz. apply get_points_from_short; assumption.
Qed.

Lemma get_points_levels_witness :
  (exists mlvl_points,
     get_points (example_head false false false false) [(1, 3)%nat] = Ok mlvl_points /\
     length mlvl_points = length [(1, 3)%nat] /\
     Forall2 (fun ss p => get_points_single (fst ss) (snd ss) = Ok p /\
                          length p = (fst (fst ss) * snd (fst ss))%nat)
             (combine [(1, 3)%nat] (strides (example_head false false false false)))
             mlvl_points) /\
  get_points (example_head false false false false) [(1, 3)%nat; (1, 2)%nat]
  = Raise IndexError.
Proof.
  split.
  - apply (proj1 (get_points_levels (example_head false false false false) [(1, 3)%nat]));
      [simpl; lia|repeat constructor; discriminate].
  - apply (proj2 (get_points_levels (example_head false false false false)
                    [(1, 3)%nat; (1, 2)%nat]));
      [simpl; lia|repeat constructor; discriminate].
Defined.

(** ** Regrouping the targets per level *)

Lemma split_sizes_length {A : Type} (sizes : list nat) (t : list A) :
  length (split_sizes sizes t) = length sizes.
Proof.
  revert t. induction sizes as [|n sizes IH]; intros t; simpl; [reflexivity|].
  rewrite IH. reflexivity.
Qed.

Lemma firstn_plus {A : Type} (n m : nat) (t : list A) :
  firstn n t ++ firstn m (skipn n t) = firstn (n + m) t.
Proof.
  revert t. induction n as [|n IH]; intros t; simpl; [reflexivity|].
  destruct t as [|a t]; simpl; [apply firstn_nil|]. rewrite IH. reflexivity.
Qed.

Lemma concat_split_sizes {A : Type} (sizes : list nat) (t : list A) :
  concat (split_sizes sizes t) = firstn (list_sum sizes) t.
Proof.
  revert t. induction sizes as [|n sizes IH]; intros t; simpl; [reflexivity|].
  rewrite IH. apply firstn_plus.
Qed.

Lemma map_nth_seq_id {A : Type} (l : list A) (d : A) :
  map (fun i => nth i l d) (seq 0 (length l)) = l.
Proof.
  apply (nth_ext _ _ d d).
  - rewrite length_map, length_seq. reflexivity.
  - intros n Hn. rewrite length_map, length_seq in Hn.
    rewrite (nth_map_seq (fun i => nth i l d)) by exact Hn. reflexivity.
Qed.

Lemma concat_map_app_perm {A B : Type} (f g : B -> list A) (l : list B) :
  Permutation (concat (map (fun i => f i ++ g i) l))
              (concat (map f l) ++ concat (map g l)).
Proof.
  induction l as [|i l IH]; simpl; [constructor|].
  rewrite IH. rewrite <- !app_assoc. apply Permutation_app_head.
  rewrite !app_assoc. apply Permutation_app_tail. apply Permutation_app_comm.
Qed.

Lemma regroup_permutation {A : Type} (sizes : list nat) (ts : list (list A)) :
  Forall (fun t => length t = list_sum sizes) ts ->
  Permutation (concat (regroup sizes ts)) (concat ts).
Proof.
  unfold regroup. induction 1 as [|t ts Ht _ IH]; simpl.
  - induction (seq 0 (length sizes)); simpl; [constructor|assumption].
  - rewrite (concat_map_app_perm (fun i => nth i (split_sizes sizes t) [])).
    apply Permutation_app; [|exact IH].
    rewrite <- (split_sizes_length sizes t), map_nth_seq_id, concat_split_sizes.
    rewrite firstn_all2 by lia. reflexivity.
Qed.

Lemma regroup_lengths {A : Type} (sizes : list nat) (ts : list (list A)) :
  Forall (fun t => length t = list_sum sizes) ts ->
  Forall2 (fun n level => length level = (length ts * n)%nat) sizes (regroup sizes ts).
Proof.
  intros Hts. unfold regroup.
  assert (G : forall (pre : list nat),
             Forall (fun t => (list_sum pre + list_sum sizes <= length t)%nat) ts ->
             Forall2 (fun n level => length level = (length ts * n)%nat) sizes
               (map (fun i => concat (map (fun t => nth i (split_sizes sizes
                                                      (skipn (list_sum pre) t)) []) ts))
                    (seq 0 (length sizes)))).
  { clear Hts. induction sizes as [|n sizes IH]; intros pre Hpre; simpl; [constructor|].
    constructor.
    - clear IH. induction Hpre as [|t ts Ht _ IHt]; simpl; [reflexivity|].
      rewrite length_app, IHt, length_firstn, length_skipn. simpl in Ht. lia.
    - rewrite <- seq_shift, map_map.
      specialize (IH (pre ++ [n])).
      rewrite list_sum_app in IH. simpl in IH.
      assert (Hpre' : Forall (fun t => (list_sum pre + (n + 0) + list_sum sizes
                                        <= length t)%nat) ts).
      { eapply Forall_impl; [|exact Hpre]. intros t Ht. simpl in Ht. lia. }
      specialize (IH Hpre').
      erewrite map_ext; [exact IH|].
      intros i. simpl. f_equal. apply map_ext. intros t.
      rewrite skipn_skipn. replace (n + list_sum pre)%nat with (list_sum pre + (n + 0))%nat
        by lia. reflexivity. }
  specialize (G []). simpl in G. apply G.
  eapply Forall_impl; [|exact Hts]. intros t Ht. simpl in Ht. rewrite Ht. lia.
Qed.

Lemma mapM_split {A : Type} (sizes : list nat) (ts : list (list A)) :
  Forall (fun t => length t = list_sum sizes) ts ->
  mapM (split sizes) ts = Ok (map (split_sizes sizes) ts).
Proof.
  intros H. apply mapM_total. eapply Forall_impl; [|exact H].
  intros t Ht. simpl in Ht. unfold split. rewrite Ht, Nat.eqb_refl. reflexivity.
Qed.

Lemma mapM_split_mismatch {A : Type} (sizes : list nat) (ts : list (list A)) :
  Exists (fun t => length t <> list_sum sizes) ts -> raised (mapM (split sizes) ts).
Proof.
  induction 1 as [t ts Ht|t ts _ IH]; simpl.
  - unfold split. destruct (Nat.eqb_spec (list_sum sizes) (length t)) as [E|_].
    + exfalso. apply Ht. symmetry. exact E.
    + eexists. reflexivity.
  - destruct (split sizes t); [|eexists; reflexivity]. simpl.
    destruct IH as [e He]. rewrite He. eexists. reflexivity.
Qed.

Lemma concat_level_regroup {A : Type} (sizes : list nat) (ts : list (list A)) (i : nat) :
  ts <> [] ->
  concat_level (map (split_sizes sizes) ts) i
  = Ok (concat (map (fun t => nth i (split_sizes sizes t) []) ts)).
Proof.
  intros Hne. unfold concat_level, cat. rewrite map_map.
  destruct ts as [|t ts]; [contradiction|]. reflexivity.
Qed.

Lemma polar_target_value (self : FourierNetHead) (points : list (list (R * R)))
    (extra_data : extra_data_t) :
  let sizes := map (@length (R * R)) points in
  length points = length (regress_ranges self) ->
  ed_labels extra_data <> [] -> ed_bbox_targets extra_data <> [] ->
  ed_mask_targets extra_data <> [] -> ed_centerness_targets extra_data <> [] ->
  Forall (fun t => length t = list_sum sizes) (ed_labels extra_data) ->
  Forall (fun t => length t = list_sum sizes) (ed_bbox_targets extra_data) ->
  Forall (fun t => length t = list_sum sizes) (ed_mask_targets extra_data) ->
  Forall (fun t => length t = list_sum sizes) (ed_centerness_targets extra_data) ->
  polar_target self points extra_data
  = Ok (regroup sizes (ed_labels extra_data),
        regroup sizes (ed_bbox_targets extra_data),
        regroup sizes (ed_mask_targets extra_data),
        regroup sizes (ed_centerness_targets extra_data)).
Proof.
  intros sizes Hlen Hl Hb Hm Hc Fl Fb Fm Fc.
  unfold polar_target. rewrite Hlen, Nat.eqb_refl. simpl.
  fold sizes.
  rewrite (mapM_split sizes _ Fl). simpl.
  rewrite (mapM_split sizes _ Fc). simpl.
  rewrite (mapM_split sizes _ Fb). simpl.
  rewrite (mapM_split sizes _ Fm). simpl.
  rewrite (mapM_total _ (fun i =>
    (concat (map (fun t => nth i (split_sizes sizes t) []) (ed_labels extra_data)),
     concat (map (fun t => nth i (split_sizes sizes t) []) (ed_bbox_targets extra_data)),
     concat (map (fun t => nth i (split_sizes sizes t) []) (ed_mask_targets extra_data)),
     concat (map (fun t => nth i (split_sizes sizes t) [])
                 (ed_centerness_targets extra_data))))).
  - simpl. rewrite !map_map. simpl. unfold regroup, sizes.
    rewrite length_map, Hlen. reflexivity.
  - apply Forall_forall. intros i _.
    rewrite !concat_level_regroup by assumption. reflexivity.
Qed.

(** X14 (polar_target, lines 383-423): the targets are handed over per image
    and come back per level.  A number of point sets different from the
    number of regress ranges fails the assertion, and a label tensor whose
    length is not the total number of points makes the split raise.
    Otherwise level i of each result is the concatenation, over the images,
    of the i-th slice of that image's tensor: no entry is lost or added, and
    level i holds (number of images) x (points of level i) rows. *)
Theorem polar_target_regroups (self : FourierNetHead) (points : list (list (R * R)))
    (extra_data : extra_data_t) :
  let sizes := map (@length (R * R)) points in
  (length points <> length (regress_ranges self) ->
   polar_target self points extra_data = Raise AssertionError) /\
  (length points = length (regress_ranges self) ->
   Exists (fun t => length t <> list_sum sizes) (ed_labels extra_data) ->
   raised (polar_target self points extra_data)) /\
  (length points = length (regress_ranges self) ->
   ed_labels extra_data <> [] -> ed_bbox_targets extra_data <> [] ->
   ed_mask_targets extra_data <> [] -> ed_centerness_targets extra_data <> [] ->
   Forall (fun t => length t = list_sum sizes) (ed_labels extra_data) ->
   Forall (fun t => length t = list_sum sizes) (ed_bbox_targets extra_data) ->
   Forall (fun t => length t = list_sum sizes) (ed_mask_targets extra_data) ->
   Forall (fun t => length t = list_sum sizes) (ed_centerness_targets extra_data) ->
   exists labels bbox_targets mask_targets centerness_targets,
     polar_target self points extra_data
     = Ok (labels, bbox_targets, mask_targets, centerness_targets) /\
     labels = regroup sizes (ed_labels extra_data) /\
     bbox_targets = regroup sizes (ed_bbox_targets extra_data) /\
     mask_targets = regroup sizes (ed_mask_targets extra_data) /\
     centerness_targets = regroup sizes (ed_centerness_targets extra_data) /\
     Permutation (concat labels) (concat (ed_labels extra_data)) /\
     Permutation (concat bbox_targets) (concat (ed_bbox_targets extra_data)) /\
     Permutation (concat mask_targets) (concat (ed_mask_targets extra_data)) /\
     Permutation (concat centerness_targets) (concat (ed_centerness_targets extra_data)) /\
     Forall2 (fun n level => length level = (length (ed_labels extra_data) * n)%nat)
             sizes labels /\
     Forall2 (fun n level => length level = (length (ed_mask_targets extra_data) * n)%nat)
             sizes mask_targets).
Proof.
  intros sizes. split; [|split].
  - intros Hne. unfold polar_target.
    destruct (Nat.eqb_spec (length points) (length (regress_ranges self))) as [E|_];
      [contradiction|]. reflexivity.
  - intros Hlen Hex. unfold polar_target. rewrite Hlen, Nat.eqb_refl. simpl.
    fold sizes. destruct (mapM_split_mismatch sizes _ Hex) as [e He].
    rewrite He. exists e. reflexivity.
  - intros Hlen Hl Hb Hm Hc Fl Fb Fm Fc.
    exists (regroup sizes (ed_labels extra_data)),
           (regroup sizes (ed_bbox_targets extra_data)),
           (regroup sizes (ed_mask_targets extra_data)),
           (regroup sizes (ed_centerness_targets extra_data)).
    split; [|repeat split; try reflexivity;
             try (apply regroup_permutation; assumption);
             apply regroup_lengths; assumption].
    apply polar_target_value; assumption.
Qed.

Lemma polar_target_regroups_witness :
  exists labels bbox_targets mask_targets centerness_targets,
    polar_target example_head_two_levels example_points_two_levels
                 example_extra_data_two_images
    = Ok (labels, bbox_targets, mask_targets, centerness_targets) /\
    labels = [[1; 0; 0; 0]%Z; [0; 1]%Z] /\
    centerness_targets = [[1; 0; 0; 0]; [0; 1]].
Proof.
  destruct (proj2 (proj2 (polar_target_regroups example_head_two_levels
                            example_points_two_levels example_extra_data_two_images)))
    as (l & b & m & c & H & El & Eb & Em & Ec & _).
  - reflexivity.
  - discriminate.
  - discriminate.
  - discriminate.
  - discriminate.
  - repeat constructor.
  - repeat constructor.
  - repeat constructor.
  - repeat constructor.
  - exists l, b, m, c. split; [exact H|]. split; [rewrite El|rewrite Ec]; reflexivity.
Defined.

(** ** Selecting the positive locations *)

Lemma nonzero_from_index_rows {A : Type} (labels : list Z) :
  forall (t pre : list A),
    (length labels <= length t)%nat ->
    index_rows (pre ++ t)
      (map snd (filter (fun p => negb (fst p =? 0)%Z)
                       (combine labels (seq (length pre) (length labels)))))
    = Ok (positives labels t).
Proof.
  unfold positives, index_rows.
  induction labels as [|lab labels IH]; intros t pre Hlen; [reflexivity|].
  destruct t as [|x t]; [simpl in Hlen; lia|].
  simpl in Hlen. apply le_S_n in Hlen.
  specialize (IH t (pre ++ [x]) Hlen).
  rewrite <- app_assoc, length_app in IH. simpl in IH.
  rewrite Nat.add_1_r in IH.
  cbn [length seq combine filter fst].
  destruct (negb (lab =? 0)%Z); cbn [map snd mapM].
  - rewrite nth_error_app2 by lia. rewrite Nat.sub_diag. cbn [nth_error bind].
    rewrite IH. reflexivity.
  - exact IH.
Qed.

Lemma nonzero_from_bounds (labels : list Z) (k : nat) :
  Forall (fun i => (k <= i < k + length labels)%nat /\ nth (i - k)%nat labels 0%Z <> 0%Z)
    (map snd (filter (fun p => negb (fst p =? 0)%Z)
                     (combine labels (seq k (length labels))))) /\
  StronglySorted lt
    (map snd (filter (fun p => negb (fst p =? 0)%Z)
                     (combine labels (seq k (length labels))))) /\
  Forall (fun i => (k <= i)%nat)
    (map snd (filter (fun p => negb (fst p =? 0)%Z)
                     (combine labels (seq k (length labels))))).
Proof.
  revert k. induction labels as [|lab labels IH]; intros k.
  - simpl. repeat constructor.
  - destruct (IH (S k)) as (Hb & Hs & Hl).
    assert (Hb' : Forall (fun i => (k <= i < k + length (lab :: labels))%nat /\
                                   nth (i - k)%nat (lab :: labels) 0%Z <> 0%Z)
                    (map snd (filter (fun p => negb (fst p =? 0)%Z)
                                (combine labels (seq (S k) (length labels)))))).
    { eapply Forall_impl; [|exact Hb]. intros i [Hi Hn]. simpl length. split; [lia|].
      replace (i - k)%nat with (S (i - S k)) by lia. exact Hn. }
    cbn [length seq combine filter fst].
    destruct (Z.eqb_spec lab 0) as [E|E]; cbn [negb map snd].
    + repeat split; [exact Hb'|exact Hs|].
      eapply Forall_impl; [|exact Hl]. intros i Hi. simpl in Hi. lia.
    + repeat split.
      * constructor; [|exact Hb']. rewrite Nat.sub_diag. simpl. split; [lia|exact E].
      * constructor; [exact Hs|]. eapply Forall_impl; [|exact Hl]. intros i Hi.
        simpl in Hi. lia.
      * constructor; [lia|]. eapply Forall_impl; [|exact Hl]. intros i Hi.
        simpl in Hi. lia.
Qed.

Lemma index_rows_out_of_range {A : Type} (t : list A) (inds : list nat) :
  Exists (fun i => (length t <= i)%nat) inds -> raised (index_rows t inds).
Proof.
  unfold index_rows. induction 1 as [i inds Hi|i inds _ IH]; simpl.
  - apply nth_error_None in Hi. rewrite Hi. eexists. reflexivity.
  - destruct (nth_error t i); [|eexists; reflexivity]. simpl.
    destruct IH as [e He]. rewrite He. eexists. reflexivity.
Qed.

(** X15 (loss, lines 296-304): [pos_inds] lists, in increasing order, exactly
    the locations whose label is not zero.  Indexing a flattened tensor that
    has at least as many rows as there are labels with it never fails and
    returns the rows of those locations; a tensor too short to hold the last
    positive location makes the indexing raise. *)
Theorem positive_locations_selected {A : Type} (labels : list Z) (t : list A) :
  StronglySorted lt (nonzero labels) /\
  (forall i, In i (nonzero labels) <->
             (i < length labels)%nat /\ nth i labels 0%Z <> 0%Z) /\
  ((length labels <= length t)%nat ->
   index_rows t (nonzero labels) = Ok (positives labels t) /\
   length (positives labels t) = length (nonzero labels)) /\
  ((exists i, (length t <= i < length labels)%nat /\ nth i labels 0%Z <> 0%Z) ->
   raised (index_rows t (nonzero labels))).
Proof.
  destruct (nonzero_from_bounds labels 0) as (Hb & Hs & _).
  assert (Hin : forall i, In i (nonzero labels) <->
                          (i < length labels)%nat /\ nth i labels 0%Z <> 0%Z).
  { intros i. split.
    - intros Hi. pose proof (proj1 (Forall_forall _ _) Hb i Hi) as [H1 H2].
      rewrite Nat.sub_0_r in H2. split; [lia|exact H2].
    - intros [Hi Hn]. unfold nonzero. apply in_map_iff. exists (nth i labels 0%Z, i).
      split; [reflexivity|]. apply filter_In. split.
      + replace (nth i labels 0%Z, i)
          with (nth i (combine labels (seq 0 (length labels))) (0%Z, 0%nat)).
        * apply nth_In. rewrite length_combine, length_seq. lia.
        * rewrite combine_nth by (rewrite length_seq; reflexivity).
          rewrite seq_nth by exact Hi. reflexivity.
      + simpl. destruct (Z.eqb_spec (nth i labels 0%Z) 0); [contradiction|reflexivity]. }
  split; [exact Hs|]. split; [exact Hin|]. split.
  - intros Hlen. pose proof (nonzero_from_index_rows labels t [] Hlen) as H.
    simpl in H. split; [exact H|].
    unfold index_rows in H. apply mapM_length in H. exact H.
  - intros (i & Hi & Hn). apply index_rows_out_of_range.
    apply Exists_exists. exists i. split; [|lia]. apply Hin. split; [lia|exact Hn].
Qed.

Lemma positive_locations_selected_witness :
  index_rows [10; 20; 30; 40] (nonzero [0; 3; 0; 1]%Z) = Ok [20; 40].
Proof.
  destruct (positive_locations_selected [0; 3; 0; 1]%Z [10; 20; 30; 40])
    as (_ & _ & H & _).
  destruct H as [H _]; [simpl; lia|]. exact H.
Defined.

(** ** The coefficient targets *)

Lemma sumR_map_ext {A : Type} (f g : A -> R) (l : list A) :
  (forall a, In a l -> f a = g a) -> sumR (map f l) = sumR (map g l).
Proof.
  intros H. induction l as [|a l IH]; simpl; [reflexivity|].
  rewrite (H a) by (left; reflexivity). rewrite IH; [reflexivity|].
  intros b Hb. apply H. right. exact Hb.
Qed.

Lemma sumR_map_zero {A : Type} (l : list A) : sumR (map (fun _ => 0) l) = 0.
Proof. induction l as [|a l IH]; simpl; [reflexivity|]. rewrite IH. lra. Qed.

Lemma sumR_map_nth (x : vec) : sumR (map (fun m => nth m x 0) (seq 0 (length x))) = sumR x.
Proof.
  induction x as [|a x IH]; [reflexivity|].
  cbn [length seq map sumR fold_right nth]. rewrite <- seq_shift, map_map.
  cbn [nth]. fold (sumR (map (fun m => nth m x 0) (seq 0 (length x)))).
  rewrite IH. reflexivity.
Qed.

Lemma rfft_coef_dc (x : vec) : rfft_coef x 0 = (sumR x / sqrt (INR (length x)), 0).
Proof.
  unfold rfft_coef, dft_angle. f_equal.
  - f_equal. etransitivity; [|apply (sumR_map_nth x)]. apply sumR_map_ext. intros m _.
    replace (2 * PI * INR 0 * INR m / INR (length x)) with 0
      by (simpl; unfold Rdiv; ring).
    rewrite cos_0. ring.
  - rewrite (sumR_map_ext _ (fun _ => 0)), sumR_map_zero; [unfold Rdiv; ring|].
    intros m _.
    replace (2 * PI * INR 0 * INR m / INR (length x)) with 0
      by (simpl; unfold Rdiv; ring).
    rewrite sin_0. ring.
Qed.

Lemma length_slice_to {A : Type} (v : Z) (l : list A) :
  (0 <= v)%Z -> length (slice_to v l) = Nat.min (Z.to_nat v) (length l).
Proof.
  intros Hv. unfold slice_to. destruct (Z.leb_spec 0 v); [|lia]. apply length_firstn.
Qed.

Lemma nth_error_slice_to {A : Type} (v : Z) (l : list A) (k : nat) :
  (Z.of_nat k < v)%Z -> nth_error (slice_to v l) k = nth_error l k.
Proof.
  intros Hk. unfold slice_to. destruct (Z.leb_spec 0 v); [|lia].
  rewrite nth_error_firstn. destruct (Nat.ltb_spec k (Z.to_nat v)); [reflexivity|lia].
Qed.

Lemma rfft_spectrum (x : vec) :
  x <> [] -> rfft x = Ok (map (rfft_coef x) (seq 0 (length x))).
Proof. destruct x; [contradiction|reflexivity]. Qed.

(** X16 (loss, lines 327-328): the coefficient targets.  Each row of K >= 1
    ray lengths gives min(num_coe, K) coefficients.  The first one is the sum
    of the ray lengths over sqrt K, with no imaginary part, and whenever
    coefficients k and K - k are both kept they are conjugates of each other.
    A row without entries makes the transform raise. *)
Theorem target_coefficients_spectrum (self : FourierNetHead) (targets : mat) (K : nat) :
  (In [] targets -> raised (target_coefficients self targets)) /\
  ((0 <= num_coe self)%Z -> (0 < K)%nat ->
   Forall (fun row => length row = K) targets ->
   exists coes,
     target_coefficients self targets = Ok coes /\
     Forall2 (fun row coe =>
       length coe = Nat.min (Z.to_nat (num_coe self)) K /\
       ((0 < num_coe self)%Z -> nth_error coe 0 = Some (sumR row / sqrt (INR K), 0)) /\
       (forall k ck cm,
          (0 < k < K)%nat ->
          nth_error coe k = Some ck -> nth_error coe (K - k) = Some cm ->
          cm = conj ck)) targets coes).
Proof.
  split.
  - intros Hin. unfold target_coefficients.
    assert (Hm : raised (mapM rfft targets)).
    { induction targets as [|row targets IH]; [contradiction|].
      destruct Hin as [->|Hin]; simpl.
      - eexists. reflexivity.
      - destruct (rfft row); [|eexists; reflexivity]. simpl.
        destruct (IH Hin) as [e He]. rewrite He. eexists. reflexivity. }
    destruct Hm as [e He]. rewrite He. exists e. reflexivity.
  - intros Hc HK Hrows. unfold target_coefficients.
    rewrite (mapM_total _ (fun x => map (rfft_coef x) (seq 0 (length x)))).
    + simpl. eexists. split; [reflexivity|]. rewrite map_map.
      induction Hrows as [|row targets Hrow _ IH]; cbn [map]; constructor; [|exact IH].
      assert (Hl : length (map (rfft_coef row) (seq 0 (length row))) = K)
        by (rewrite length_map, length_seq; exact Hrow).
      unfold cmat, cvec, complex in *. split; [|split].
      * etransitivity; [apply length_slice_to; exact Hc|]. f_equal. exact Hl.
      * intros Hpos.
        change (nth_error (slice_to (num_coe self)
                             (map (rfft_coef row) (seq 0 (length row)))) 0
                = Some (sumR row / sqrt (INR K), 0)).
        rewrite nth_error_slice_to by lia.
        rewrite nth_error_map, nth_error_seq. rewrite Hrow.
        destruct (Nat.ltb_spec 0 K); [|lia]. simpl. rewrite rfft_coef_dc, Hrow.
        reflexivity.
      * intros k ck cm Hk Hck Hcm.
        assert (Hget : forall j c, nth_error (slice_to (num_coe self)
                         (map (rfft_coef row) (seq 0 (length row)))) j = Some c ->
                       (j < K)%nat -> c = rfft_coef row j).
        { intros j c Hj HjK. unfold slice_to in Hj.
          destruct (Z.leb_spec 0 (num_coe self)); [|lia].
          rewrite nth_error_firstn in Hj.
          destruct (Nat.ltb j (Z.to_nat (num_coe self))); [|discriminate].
          rewrite nth_error_map, nth_error_seq, Hrow in Hj.
          destruct (Nat.ltb_spec j K); [|lia]. simpl in Hj. inversion Hj. reflexivity. }
        rewrite (Hget _ _ Hck) by lia. rewrite (Hget _ _ Hcm) by lia.
        rewrite <- Hrow. apply rfft_coef_mirror; [|lia].
        destruct row; [simpl in Hrow; lia|discriminate].
    + eapply Forall_impl; [|exact Hrows]. intros row Hrow. simpl in Hrow.
      apply rfft_spectrum. destruct row; [simpl in Hrow; lia|discriminate].
Qed.

Lemma target_coefficients_spectrum_witness :
  exists coes,
    target_coefficients (example_head true false true false) [[1; 2; 3; 4]] = Ok coes /\
    Forall2 (fun row coe => length coe = 3%nat /\
                            nth_error coe 0 = Some (sumR row / sqrt (INR 4), 0))
            [[1; 2; 3; 4]] coes.
Proof.
  destruct (proj2 (target_coefficients_spectrum (example_head true false true false)
                     [[1; 2; 3; 4]] 4)) as (coes & H & F).
  - simpl. lia.
  - lia.
  - repeat constructor.
  - exists coes. split; [exact H|].
    eapply Forall2_impl; [|exact F]. intros row coe (Hl & Hdc & _).
    split; [exact Hl|]. apply Hdc. simpl. lia.
Defined.

(** ** Row order of the flattened batch *)

Lemma permute_flat4_rows (t : tensor4) : permute_flat4 t = concat (batch_rows t).
Proof.
  unfold permute_flat4, batch_rows. destruct (size4 t) as [[[n c] h] w].
  unfold vec. rewrite concat_flat_map. apply flat_map_ext. intros i.
  change (flat_map (fun y => flat_map (fun x => map (fun ch => get4 t i ch y x) (seq 0 c))
                                      (seq 0 w)) (seq 0 h))
    with (permute_flat3 (Tensor3 (c, h, w) (get4 t i))).
  apply permute_flat3_rows.
Qed.

Lemma batch_rows_width (t : tensor4) (n c h w : nat) :
  size4 t = (n, c, h, w) -> Forall (fun row => length row = c) (batch_rows t).
Proof.
  intros Hs. unfold batch_rows. rewrite Hs. apply Forall_flat_map.
  apply Forall_forall. intros i _. apply (pixel_rows_width _ c h w). reflexivity.
Qed.

Lemma batch_rows_length (t : tensor4) (n c h w : nat) :
  size4 t = (n, c, h, w) -> length (batch_rows t) = (n * (h * w))%nat.
Proof.
  intros Hs. unfold batch_rows. rewrite Hs.
  rewrite (length_blocks _ (h * w)), length_seq; [reflexivity|].
  intros i. apply (pixel_rows_length _ c h w). reflexivity.
Qed.

Lemma batch_rows_nth (t : tensor4) (n c h w i j : nat) :
  size4 t = (n, c, h, w) -> (i < n)%nat -> (j < h * w)%nat ->
  nth_error (batch_rows t) (i * (h * w) + j)
  = nth_error (pixel_rows (Tensor3 (c, h, w) (get4 t i))) j.
Proof.
  intros Hs Hi Hj. unfold batch_rows. rewrite Hs.
  apply (nth_error_blocks (fun i => pixel_rows (Tensor3 (c, h, w) (get4 t i)))).
  - intros a. apply (pixel_rows_length _ c h w). reflexivity.
  - exact Hj.
  - rewrite nth_error_seq. destruct (Nat.ltb_spec i n); [reflexivity|lia].
Qed.

Lemma nth_error_repeat_lt {A : Type} (a : A) (n i : nat) :
  (i < n)%nat -> nth_error (repeat a n) i = Some a.
Proof.
  revert i. induction n as [|n IH]; intros i Hi; [lia|].
  destruct i as [|i]; simpl; [reflexivity|]. apply IH. lia.
Qed.

Lemma repeat_points_length (num_imgs : nat) (points : list (R * R)) :
  length (repeat_points num_imgs points) = (num_imgs * length points)%nat.
Proof.
  unfold repeat_points. rewrite (length_concat_rows (length points)).
  - rewrite repeat_length. reflexivity.
  - apply Forall_forall. intros p Hp. apply repeat_spec in Hp. subst p. reflexivity.
Qed.

Lemma repeat_points_nth (num_imgs : nat) (points : list (R * R)) (i j : nat) :
  (i < num_imgs)%nat -> (j < length points)%nat ->
  nth_error (repeat_points num_imgs points) (i * length points + j) = nth_error points j.
Proof.
  intros Hi Hj. unfold repeat_points.
  apply (nth_error_concat_rows (length points) (repeat points num_imgs)).
  - apply Forall_forall. intros p Hp. apply repeat_spec in Hp. subst p. reflexivity.
  - exact Hj.
  - apply nth_error_repeat_lt. exact Hi.
Qed.

(** X17 (loss, lines 241-283, 294-295): a level's batch tensor of shape
    [n, c, h, w] is flattened image by image.  Row i*(h*w) + y*w + x holds
    the c channels of image i at cell (y, x); it is the row y*w + x that the
    inference flattening gives for image i alone, and the repeated point set
    has the point of cell (y, x) at the same position. *)
Theorem loss_rows_aligned (t : tensor4) (n c h w : nat) (points : list (R * R)) :
  size4 t = (n, c, h, w) -> (0 < c)%nat -> length points = (h * w)%nat ->
  exists rows,
    reshape_rows (Z.of_nat c) (permute_flat4 t) = Ok rows /\
    length rows = (n * (h * w))%nat /\
    length (repeat_points n points) = (n * (h * w))%nat /\
    forall i y x, (i < n)%nat -> (y < h)%nat -> (x < w)%nat ->
      nth_error rows (i * (h * w) + (y * w + x))
      = Some (map (fun ch => get4 t i ch y x) (seq 0 c)) /\
      nth_error (repeat_points n points) (i * (h * w) + (y * w + x))
      = nth_error points (y * w + x) /\
      exists img rows_i,
        select_image t i = Ok img /\
        reshape_rows (Z.of_nat c) (permute_flat3 img) = Ok rows_i /\
        nth_error rows_i (y * w + x) = nth_error rows (i * (h * w) + (y * w + x)).
Proof.
  intros Hs Hc Hp. exists (batch_rows t).
  split; [|split; [|split]].
  - rewrite permute_flat4_rows. apply reshape_rows_concat; [exact Hc|].
    eapply batch_rows_width. exact Hs.
  - eapply batch_rows_length. exact Hs.
  - rewrite repeat_points_length, Hp. reflexivity.
  - intros i y x Hi Hy Hx.
    assert (Hj : (y * w + x < h * w)%nat) by nia.
    assert (Hrow : nth_error (batch_rows t) (i * (h * w) + (y * w + x))
                   = Some (map (fun ch => get4 t i ch y x) (seq 0 c))).
    { rewrite (batch_rows_nth t n c h w) by assumption.
      apply (pixel_rows_nth (Tensor3 (c, h, w) (get4 t i)) c h w y x);
        [reflexivity|exact Hy|exact Hx]. }
    split; [exact Hrow|]. split.
    + rewrite <- Hp. apply repeat_points_nth; [exact Hi|]. rewrite Hp. exact Hj.
    + exists (Tensor3 (c, h, w) (get4 t i)),
             (pixel_rows (Tensor3 (c, h, w) (get4 t i))).
      split; [|split].
      * unfold select_image. rewrite Hs.
        destruct (Nat.ltb_spec i n); [reflexivity|lia].
      * apply (reshape_pixel_rows _ c h w); [reflexivity|exact Hc].
      * etransitivity; [|symmetry; exact Hrow].
        apply (pixel_rows_nth (Tensor3 (c, h, w) (get4 t i)) c h w y x);
          [reflexivity|exact Hy|exact Hx].
Qed.

Lemma loss_rows_aligned_witness :
  exists rows,
    reshape_rows 2 (permute_flat4 (Tensor4 (2, 2, 1, 3)%nat
                                     (fun i ch y x => INR (100 * i + 10 * ch + x))))
    = Ok rows /\
    nth_error rows 5 = Some [INR 102; INR 112] /\
    nth_error (repeat_points 2 example_points) 5 = Some (20, 4).
Proof.
  destruct (loss_rows_aligned
              (Tensor4 (2, 2, 1, 3)%nat (fun i ch y x => INR (100 * i + 10 * ch + x)))
              2 2 1 3 example_points)
    as (rows & Hr & _ & _ & Hrows).
  - reflexivity.
  - lia.
  - reflexivity.
  - exists rows. split; [exact Hr|].
    destruct (Hrows 1%nat 0%nat 2%nat) as (H1 & H2 & _); [lia|lia|lia|].
    split; [exact H1|exact H2].
Defined.

(** ** Row order of the per-level targets *)

Lemma split_sizes_nth {A : Type} (sizes : list nat) :
  forall (l : nat) (t : list A),
    (l < length sizes)%nat ->
    nth l (split_sizes sizes t) []
    = firstn (nth l sizes 0%nat) (skipn (list_sum (firstn l sizes)) t).
Proof.
  induction sizes as [|n sizes IH]; intros l t Hl; [simpl in Hl; lia|].
  destruct l as [|l]; [reflexivity|].
  cbn [split_sizes nth firstn list_sum fold_right]. simpl in Hl.
  rewrite IH by lia. rewrite skipn_skipn.
  replace (list_sum (firstn l sizes) + n)%nat with (n + list_sum (firstn l sizes))%nat by lia.
  reflexivity.
Qed.

Lemma prefix_sum_le (sizes : list nat) (l : nat) :
  (l < length sizes)%nat ->
  (list_sum (firstn l sizes) + nth l sizes 0 <= list_sum sizes)%nat.
Proof.
  revert l. induction sizes as [|n sizes IH]; intros l Hl; [simpl in Hl; lia|].
  destruct l as [|l]; simpl in *; [lia|]. specialize (IH l). lia.
Qed.

Lemma regroup_nth {A : Type} (sizes : list nat) (ts : list (list A)) (l i j : nat) :
  Forall (fun t => length t = list_sum sizes) ts ->
  (l < length sizes)%nat -> (i < length ts)%nat -> (j < nth l sizes 0)%nat ->
  nth_error (nth l (regroup sizes ts) []) (i * nth l sizes 0%nat + j)
  = nth_error (nth i ts []) (list_sum (firstn l sizes) + j).
Proof.
  intros Hts Hl Hi Hj. pose proof (prefix_sum_le sizes l Hl) as Hsum.
  assert (Hlvl : nth l (regroup sizes ts) []
                 = concat (map (fun t => nth l (split_sizes sizes t) []) ts)).
  { unfold regroup.
    apply (nth_error_nth _ _ []).
    apply (nth_error_map_seq
             (fun i => concat (map (fun t => nth i (split_sizes sizes t) []) ts))).
    exact Hl. }
  rewrite Hlvl.
  rewrite (nth_error_concat_rows (nth l sizes 0%nat) _ i j
             (nth l (split_sizes sizes (nth i ts [])) [])).
  - rewrite split_sizes_nth by exact Hl.
    rewrite nth_error_firstn. destruct (Nat.ltb_spec j (nth l sizes 0%nat)); [|lia].
    apply nth_error_skipn.
  - apply Forall_map. eapply Forall_impl; [|exact Hts]. intros t Ht. simpl in Ht.
    rewrite split_sizes_nth by exact Hl. rewrite length_firstn, length_skipn. lia.
  - exact Hj.
  - rewrite nth_error_map. rewrite (nth_error_nth' ts [] Hi). reflexivity.
Qed.

(** X18 (polar_target, lines 383-423): inside level l the targets are laid
    out image by image.  With n_l points in level l, row i*n_l + j of each
    returned level tensor is the row of image i's tensor at position
    (points of the levels before l) + j, which is the row order of the
    flattened predictions. *)
Theorem polar_target_rows (self : FourierNetHead) (points : list (list (R * R)))
    (extra_data : extra_data_t) (l j : nat) :
  let sizes := map (@length (R * R)) points in
  length points = length (regress_ranges self) ->
  ed_labels extra_data <> [] -> ed_bbox_targets extra_data <> [] ->
  ed_mask_targets extra_data <> [] -> ed_centerness_targets extra_data <> [] ->
  Forall (fun t => length t = list_sum sizes) (ed_labels extra_data) ->
  Forall (fun t => length t = list_sum sizes) (ed_bbox_targets extra_data) ->
  Forall (fun t => length t = list_sum sizes) (ed_mask_targets extra_data) ->
  Forall (fun t => length t = list_sum sizes) (ed_centerness_targets extra_data) ->
  (l < length points)%nat -> (j < length (nth l points []))%nat ->
  exists labels bbox_targets mask_targets centerness_targets,
    polar_target self points extra_data
    = Ok (labels, bbox_targets, mask_targets, centerness_targets) /\
    let n := length (nth l points []) in
    let before := list_sum (firstn l sizes) in
    (forall i, (i < length (ed_labels extra_data))%nat ->
       nth_error (nth l labels []) (i * n + j)
       = nth_error (nth i (ed_labels extra_data) []) (before + j)) /\
    (forall i, (i < length (ed_bbox_targets extra_data))%nat ->
       nth_error (nth l bbox_targets []) (i * n + j)
       = nth_error (nth i (ed_bbox_targets extra_data) []) (before + j)) /\
    (forall i, (i < length (ed_mask_targets extra_data))%nat ->
       nth_error (nth l mask_targets []) (i * n + j)
       = nth_error (nth i (ed_mask_targets extra_data) []) (before + j)) /\
    (forall i, (i < length (ed_centerness_targets extra_data))%nat ->
       nth_error (nth l centerness_targets []) (i * n + j)
       = nth_error (nth i (ed_centerness_targets extra_data) []) (before + j)).
Proof.
  intros sizes Hlen Hl Hb Hm Hc Fl Fb Fm Fc Hlvl Hj.
  exists (regroup sizes (ed_labels extra_data)),
         (regroup sizes (ed_bbox_targets extra_data)),
         (regroup sizes (ed_mask_targets extra_data)),
         (regroup sizes (ed_centerness_targets extra_data)).
  split; [apply polar_target_value; assumption|].
  assert (Hn : length (nth l points []) = nth l sizes 0%nat).
  { unfold sizes. rewrite (nth_indep _ 0%nat (length (@nil (R * R))))
      by (rewrite length_map; exact Hlvl).
    rewrite map_nth. reflexivity. }
  assert (Hl' : (l < length sizes)%nat) by (unfold sizes; rewrite length_map; exact Hlvl).
  cbv zeta. rewrite Hn in *.
  repeat split; intros i Hi; apply regroup_nth; assumption.
Qed.

Lemma polar_target_rows_witness :
  exists labels bbox_targets mask_targets centerness_targets,
    polar_target example_head_two_levels example_points_two_levels
                 example_extra_data_two_images
    = Ok (labels, bbox_targets, mask_targets, centerness_targets) /\
    nth_error (nth 1 labels []) 1 = Some 1%Z /\
    nth_error (nth 1 mask_targets []) 1 = Some [3; 4; 3; 4].
Proof.
  destruct (polar_target_rows example_head_two_levels example_points_two_levels
              example_extra_data_two_images 1 0)
    as (l & b & m & c & H & Hlab & _ & Hmask & _).
  - reflexivity.
  - discriminate.
  - discriminate.
  - discriminate.
  - discriminate.
  - repeat constructor.
  - repeat constructor.
  - repeat constructor.
  - repeat constructor.
  - simpl. lia.
  - simpl. lia.
  - exists l, b, m, c. split; [exact H|]. split.
    + apply (Hlab 1%nat). simpl. lia.
    + apply (Hmask 1%nat). simpl. lia.
Defined.

(** ** The towers built by the constructor *)

Lemma tower_step_block (self : FourierNetHead) (args : Layers.layer_args)
    (cls : list Layers.module) (reg : option (list Layers.module))
    (mask : list Layers.module) (i : Z) :
  Layers.tower_step self args (cls, reg, mask) i
  = (cls ++ tower_block args i,
     if bbox_from_mask self then reg else Layers.append_to reg (tower_block args i),
     mask ++ tower_block args i).
Proof.
  unfold Layers.tower_step, tower_block.
  destruct (Layers.use_dcn args); cbn [negb].
  - rewrite <- !app_assoc. cbn [app].
    destruct (bbox_from_mask self); cbn [negb]; [reflexivity|].
    destruct reg as [reg|]; cbn [Layers.append_to option_map]; [|reflexivity].
    rewrite <- !app_assoc. reflexivity.
  - destruct (bbox_from_mask self); reflexivity.
Qed.

Lemma tower_loop (self : FourierNetHead) (args : Layers.layer_args) (l : list Z) :
  forall cls reg mask,
    fold_left (Layers.tower_step self args) l (cls, reg, mask)
    = (cls ++ flat_map (tower_block args) l,
       if bbox_from_mask self then reg
       else Layers.append_to reg (flat_map (tower_block args) l),
       mask ++ flat_map (tower_block args) l).
Proof.
  induction l as [|i l IH]; intros cls reg mask.
  - simpl. rewrite !app_nil_r. destruct (bbox_from_mask self); [reflexivity|].
    destruct reg; simpl; [rewrite app_nil_r|]; reflexivity.
  - cbn [fold_left flat_map]. rewrite tower_step_block, IH. rewrite <- !app_assoc.
    destruct (bbox_from_mask self); [reflexivity|].
    destruct reg; simpl; [rewrite <- app_assoc|]; reflexivity.
Qed.

Lemma tower_channels_app (a b : list Layers.module) (c : Z) :
  tower_channels (a ++ b) c = bind (tower_channels a c) (tower_channels b).
Proof.
  revert c. induction a as [|m a IH]; intros c; simpl; [reflexivity|].
  destruct (module_channels m c); simpl; [apply IH|reflexivity].
Qed.

Lemma tower_block_channels (args : Layers.layer_args) (i : Z) :
  tower_channels (tower_block args i)
    (if (i =? 0)%Z then Layers.in_channels args else Layers.feat_channels args)
  = Ok (Layers.feat_channels args).
Proof.
  unfold tower_block. destruct (Layers.use_dcn args); cbn [negb tower_channels module_channels].
  - rewrite Z.eqb_refl. cbn [bind].
    destruct (Layers.norm_cfg args); cbn [app tower_channels module_channels];
      rewrite ?Z.eqb_refl; reflexivity.
  - rewrite Z.eqb_refl. reflexivity.
Qed.

Lemma tower_block_rejects (args : Layers.layer_args) (i c : Z) :
  c <> (if (i =? 0)%Z then Layers.in_channels args else Layers.feat_channels args) ->
  forall rest, raised (tower_channels (tower_block args i ++ rest) c).
Proof.
  intros Hc rest. unfold tower_block.
  destruct (Layers.use_dcn args); cbn [negb app tower_channels module_channels];
    destruct (Z.eqb_spec c (if (i =? 0)%Z then Layers.in_channels args
                            else Layers.feat_channels args));
    try contradiction; eexists; reflexivity.
Qed.

Lemma tower_rest_channels (args : Layers.layer_args) (l : list Z) :
  Forall (fun i => i <> 0%Z) l ->
  tower_channels (flat_map (tower_block args) l) (Layers.feat_channels args)
  = Ok (Layers.feat_channels args).
Proof.
  induction 1 as [|i l Hi _ IH]; [reflexivity|].
  cbn [flat_map]. rewrite tower_channels_app.
  pose proof (tower_block_channels args i) as Hb.
  destruct (Z.eqb_spec i 0); [contradiction|]. rewrite Hb. exact IH.
Qed.

Lemma py_range_pos (n : Z) :
  (0 < n)%Z ->
  exists rest, Layers.py_range n = 0%Z :: rest /\ Forall (fun i => i <> 0%Z) rest.
Proof.
  intros Hn. unfold Layers.py_range.
  destruct (Z.to_nat n) as [|k] eqn:Hk; [lia|].
  cbn [seq map]. eexists. split; [reflexivity|].
  apply Forall_map. apply Forall_forall. intros i Hi. apply in_seq in Hi. lia.
Qed.

Lemma tower_block_length (args : Layers.layer_args) (i : Z) :
  length (tower_block args i)
  = if Layers.use_dcn args
    then (if Layers.is_none (Layers.norm_cfg args) then 2%nat else 3%nat)
    else 1%nat.
Proof.
  unfold tower_block. destruct (Layers.use_dcn args); [|reflexivity].
  destruct (Layers.norm_cfg args); reflexivity.
Qed.

(** X19 (_init_layers, lines 73-166; forward_single, lines 194-204): the
    classification and the mask tower hold the same modules, and the
    regression tower too unless the head takes its boxes from the masks, in
    which case the attribute is not set.  Each of max(stacked_convs, 0)
    turns adds one module, or with use_dcn two or three.  The channel counts
    fit along a tower: fed with in_channels channels it gives feat_channels
    channels, which is what the four output convolutions expect, and it
    rejects any other channel count.  Without a turn the tower is empty and
    the output convolution accepts the input only when in_channels equals
    feat_channels. *)
Theorem init_layers_towers (self : FourierNetHead) (args : Layers.layer_args) :
  let L := Layers._init_layers self args in
  let tower := flat_map (tower_block args) (Layers.py_range (Layers.stacked_convs args)) in
  Layers.cls_convs L = tower /\
  Layers.mask_convs L = tower /\
  Layers.reg_convs L = (if bbox_from_mask self then None else Some tower) /\
  length tower
  = (Z.to_nat (Layers.stacked_convs args)
     * (if Layers.use_dcn args
        then (if Layers.is_none (Layers.norm_cfg args) then 2 else 3)
        else 1))%nat /\
  length (Layers.scales_bbox L) = length (strides self) /\
  length (Layers.scales_mask L) = length (strides self) /\
  ((0 < Layers.stacked_convs args)%Z ->
   tower_channels tower (Layers.in_channels args) = Ok (Layers.feat_channels args) /\
   (forall c, c <> Layers.in_channels args -> raised (tower_channels tower c)) /\
   bind (tower_channels (Layers.cls_convs L) (Layers.in_channels args))
        (module_channels (Layers.polar_cls L)) = Ok (cls_out_channels self) /\
   bind (tower_channels (Layers.mask_convs L) (Layers.in_channels args))
        (module_channels (Layers.polar_mask L))
   = Ok (if use_fourier self then num_coe self * 2 else contour_points self)%Z) /\
  ((Layers.stacked_convs args <= 0)%Z ->
   tower = [] /\
   (Layers.in_channels args <> Layers.feat_channels args ->
    raised (bind (tower_channels (Layers.cls_convs L) (Layers.in_channels args))
                 (module_channels (Layers.polar_cls L))))).
Proof.
  intros L tower.
  assert (HL : Layers.cls_convs L = tower /\ Layers.mask_convs L = tower /\
               Layers.reg_convs L = (if bbox_from_mask self then None else Some tower)).
  { unfold L, Layers._init_layers. rewrite tower_loop. cbn [app].
    destruct (bbox_from_mask self); cbn; repeat split; reflexivity. }
  destruct HL as (Hcls & Hmask & Hreg).
  split; [exact Hcls|]. split; [exact Hmask|]. split; [exact Hreg|].
  split; [|split; [|split; [|split]]].
  - unfold tower, Layers.py_range.
    rewrite (length_blocks _ _ _ (tower_block_length args)).
    rewrite length_map, length_seq. reflexivity.
  - unfold L, Layers._init_layers. rewrite tower_loop. cbn. apply length_map.
  - unfold L, Layers._init_layers. rewrite tower_loop. cbn. apply length_map.
  - intros Hpos.
    destruct (py_range_pos _ Hpos) as (rest & Hr & Hrest).
    assert (Hflow : tower_channels tower (Layers.in_channels args)
                    = Ok (Layers.feat_channels args)).
    { unfold tower. rewrite Hr. cbn [flat_map]. rewrite tower_channels_app.
      pose proof (tower_block_channels args 0) as Hb. rewrite Z.eqb_refl in Hb.
      rewrite Hb. cbn [bind]. apply tower_rest_channels. exact Hrest. }
    split; [exact Hflow|]. split; [|split].
    + intros c Hc. unfold tower. rewrite Hr. cbn [flat_map].
      apply tower_block_rejects. rewrite Z.eqb_refl. exact Hc.
    + rewrite Hcls, Hflow. unfold L, Layers._init_layers. rewrite tower_loop.
      cbn. rewrite Z.eqb_refl. reflexivity.
    + rewrite Hmask, Hflow. unfold L, Layers._init_layers. rewrite tower_loop.
      cbn. destruct (use_fourier self); cbn; rewrite Z.eqb_refl; reflexivity.
  - intros Hle.
    assert (Hempty : tower = []).
    { unfold tower, Layers.py_range. replace (Z.to_nat (Layers.stacked_convs args)) with 0%nat
        by lia. reflexivity. }
    split; [exact Hempty|]. intros Hne.
    rewrite Hcls, Hempty. unfold L, Layers._init_layers. rewrite tower_loop.
    cbn. destruct (Z.eqb_spec (Layers.in_channels args) (Layers.feat_channels args));
      [contradiction|]. eexists. reflexivity.
Qed.

(** ** The level lists handed to the loss *)

Section LossChecks.

Variable distance2bbox : list (R * R) -> mat -> option (Z * Z) -> result mat.
Variable loss_cls_fn : mat -> list Z -> R -> R.
Variable loss_bbox_fn : mat -> mat -> vec -> R -> R.
Variable loss_mask_fn : mask_tensor -> mask_tensor -> option (vec * R) -> R.
Variable loss_centerness_fn : vec -> vec -> R.

(** X20 (loss, lines 232-237; get_points, lines 354-370; polar_target, line
    384): the checks a batch passes before any tensor is flattened.  The four
    prediction lists must have the same number of levels (AssertionError),
    the number must not be zero (IndexError on bbox_preds[0]), it must not
    exceed the number of strides (IndexError in get_points), and it must be
    the number of regress ranges (AssertionError in polar_target). *)
Theorem loss_level_lists_checked (self : FourierNetHead)
    (cls_scores bbox_preds centernesses mask_preds : list tensor4)
    (extra_data : extra_data_t) :
  let run := loss distance2bbox loss_cls_fn loss_bbox_fn loss_mask_fn loss_centerness_fn
               self cls_scores bbox_preds centernesses mask_preds extra_data in
  let same_levels := length cls_scores = length bbox_preds /\
                     length bbox_preds = length centernesses /\
                     length centernesses = length mask_preds in
  (~ same_levels -> run = Raise AssertionError) /\
  (same_levels -> cls_scores = [] -> run = Raise IndexError) /\
  (same_levels -> cls_scores <> [] ->
   Forall (fun s => s <> 0%Z) (strides self) ->
   (length (strides self) < length cls_scores)%nat -> run = Raise IndexError) /\
  (same_levels -> cls_scores <> [] ->
   Forall (fun s => s <> 0%Z) (strides self) ->
   (length cls_scores <= length (strides self))%nat ->
   length cls_scores <> length (regress_ranges self) -> run = Raise AssertionError).
Proof.
  intros run same_levels. unfold run, same_levels, loss.
  split; [|split; [|split]].
  - intros Hne.
    destruct (Nat.eqb_spec (length cls_scores) (length bbox_preds)) as [E1|E1];
      [|reflexivity].
    destruct (Nat.eqb_spec (length bbox_preds) (length centernesses)) as [E2|E2];
      [|reflexivity].
    destruct (Nat.eqb_spec (length centernesses) (length mask_preds)) as [E3|E3];
      [|reflexivity].
    exfalso. apply Hne. repeat split; assumption.
  - intros (E1 & E2 & E3) Hnil. subst cls_scores.
    destruct bbox_preds; [|discriminate]. destruct centernesses; [|discriminate].
    destruct mask_preds; [|discriminate]. reflexivity.
  - intros (E1 & E2 & E3) Hne Hnz Hshort.
    assert (Ha : (Nat.eqb (length cls_scores) (length bbox_preds)
                  && Nat.eqb (length bbox_preds) (length centernesses)
                  && Nat.eqb (length centernesses) (length mask_preds))%bool = true)
      by (rewrite E1, E2, E3, !Nat.eqb_refl; reflexivity).
    rewrite Ha. cbn [assert bind]. clear Ha.
    destruct bbox_preds as [|b bs]; [destruct cls_scores; [contradiction|discriminate]|].
    cbn [bind]. unfold get_points.
    rewrite get_points_from_short; [reflexivity| |exact Hnz].
    rewrite length_map. cbn [skipn]. exact Hshort.
  - intros (E1 & E2 & E3) Hne Hnz Hlen Hranges.
    assert (Ha : (Nat.eqb (length cls_scores) (length bbox_preds)
                  && Nat.eqb (length bbox_preds) (length centernesses)
                  && Nat.eqb (length centernesses) (length mask_preds))%bool = true)
      by (rewrite E1, E2, E3, !Nat.eqb_refl; reflexivity).
    rewrite Ha. cbn [assert bind]. clear Ha.
    destruct bbox_preds as [|b bs]; [destruct cls_scores; [contradiction|discriminate]|].
    cbn [bind]. unfold get_points.
    destruct (get_points_from_levels self (map featmap_size4 cls_scores) 0)
      as (pts & Hpts & Hall).
    + rewrite length_map. cbn [skipn]. exact Hlen.
    + cbn [skipn].
      rewrite <- (firstn_skipn (length (map featmap_size4 cls_scores)) (strides self))
        in Hnz.
      apply Forall_app in Hnz. exact (proj1 Hnz).
    + rewrite Hpts. cbn [bind].
      assert (Hn : length pts = length cls_scores).
      { apply Forall2_length in Hall. rewrite <- Hall. cbn [skipn].
        rewrite length_combine, length_map. lia. }
      unfold polar_target. rewrite Hn.
      destruct (Nat.eqb_spec (length cls_scores) (length (regress_ranges self)));
        [contradiction|]. reflexivity.
Qed.

End LossChecks.

Lemma loss_level_lists_checked_witness :
  loss example_distance2bbox example_loss_cls example_loss_bbox example_loss_mask
    example_loss_centerness (example_head false false false false)
    [const4 1 1 1 3 0; const4 1 1 1 2 0] [const4 1 4 1 3 0; const4 1 4 1 2 0]
    [const4 1 1 1 3 0; const4 1 1 1 2 0] [const4 1 4 1 3 0; const4 1 4 1 2 0]
    example_extra_data
  = Raise IndexError.
Proof.
  apply (proj1 (proj2 (proj2 (loss_level_lists_checked example_distance2bbox
           example_loss_cls example_loss_bbox example_loss_mask example_loss_centerness
           (example_head false false false false)
           [const4 1 1 1 3 0; const4 1 1 1 2 0] [const4 1 4 1 3 0; const4 1 4 1 2 0]
           [const4 1 1 1 3 0; const4 1 1 1 2 0] [const4 1 4 1 3 0; const4 1 4 1 2 0]
           example_extra_data)))).
  - repeat split.
  - discriminate.
  - repeat constructor. discriminate.
  - simpl. lia.
Defined.
